(** * Rank estimator of [src/lib/college-service.ts]

    A shallow embedding of the KCET rank-prediction utilities
    ([predictKCETRank], [getRankBand], [getCompetitionLevel],
    [calculatePercentile], [getCollegeSuggestions]) and of the constant
    tables they read; of the other classifiers ([getPercentile],
    [getRankAnalysis], [getRankGapAnalysis]); and of the pure parts of
    the review service ([getUserSessionId], [isUserReview], the
    cleaning of names in [loadColleges]).

    JavaScript numbers are IEEE 754 binary64 values.  They are modelled
    by [spec_float], the executable specification of binary
    floating-point arithmetic of the standard library, at precision 53
    and maximal exponent 1024, with round-to-nearest-even operations
    [SFadd], [SFsub], [SFmul], [SFdiv] and the comparisons [SFltb],
    [SFleb] (false as soon as one side is NaN, as in JavaScript). *)

From Stdlib Require Import ZArith Bool List String Ascii Lia.
From Stdlib Require Import Floats.SpecFloat.
From Stdlib Require Import DecimalString.
Import ListNotations.

Local Open Scope Z_scope.

(** ** Numbers *)

Module Num.

Definition number : Type := spec_float.

Definition prec : Z := 53.
Definition emax : Z := 1024.

(** A [spec_float] is a JavaScript number when its mantissa and its
    exponent are those of a binary64 value. *)
Definition is_number (x : number) : bool := valid_binary prec emax x.

Definition add : number -> number -> number := SFadd prec emax.
Definition sub : number -> number -> number := SFsub prec emax.
Definition mul : number -> number -> number := SFmul prec emax.
Definition div : number -> number -> number := SFdiv prec emax.

Definition leb : number -> number -> bool := SFleb.
Definition ltb : number -> number -> bool := SFltb.
Definition geb (x y : number) : bool := leb y x.
Definition gtb (x y : number) : bool := ltb y x.

Definition NaN : number := S754_nan.

Definition isNaN (x : number) : bool :=
  match x with S754_nan => true | _ => false end.

(** An integer literal: the nearest binary64 value, the integer itself
    below 2^53. *)
Definition of_Z (n : Z) : number := binary_normalize prec emax n 0 false.

(** A decimal literal [n / 10^k], read as the source reads it: the
    binary64 value nearest to the decimal.  Both [n] and [10^k] are
    exact for the literals of this file, and the division rounds
    correctly, so the quotient is that value. *)
Definition decimal (n : Z) (k : Z) : number := div (of_Z n) (of_Z (10 ^ k)).

(** [Math.abs]. *)
Definition Math_abs : number -> number := SFabs.

(** [Math.round]: the integer nearest to [x], the larger one at a tie;
    NaN, the infinities and the zeros are returned as they are, and a
    value in [-0.5, 0) gives -0.  A finite number of nonnegative
    exponent is an integer already. *)
Definition Math_round (x : number) : number :=
  match x with
  | S754_finite s m e =>
      if 0 <=? e then x
      else
        let n := (2 * cond_Zopp s (Zpos m) + 2 ^ (- e)) / 2 ^ (1 - e) in
        if n =? 0 then S754_zero s else of_Z n
  | _ => x
  end.

End Num.

Import Num.

(** ** [Number.prototype.toFixed(2)] *)

Module ToFixed.

Local Open Scope string_scope.
Local Open Scope Z_scope.

Definition digits_of (n : Z) : string :=
  NilZero.string_of_uint (N.to_uint (Z.to_N n)).

Fixpoint zeros (k : nat) : string :=
  match k with O => "" | S k' => "0" ++ zeros k' end.

Fixpoint take (k : nat) (s : string) : string :=
  match k, s with
  | S k', String c s' => String c (take k' s')
  | _, _ => ""
  end.

Fixpoint drop (k : nat) (s : string) : string :=
  match k, s with
  | S k', String _ s' => drop k' s'
  | _, _ => s
  end.

(** The digits of [n], padded on the left to three characters at
    least, with a point before the last two. *)
Definition fixed2 (n : Z) : string :=
  let m := digits_of n in
  let k := String.length m in
  let m := if (k <=? 2)%nat then zeros (3 - k)%nat ++ m else m in
  let k := String.length m in
  take (k - 2)%nat m ++ "." ++ drop (k - 2)%nat m.

(** The integer [n] for which [n / 100] is nearest to [m * 2^e], the
    larger one at a tie. *)
Definition hundredths (m : positive) (e : Z) : Z :=
  if 0 <=? e then 100 * Zpos m * 2 ^ e
  else (200 * Zpos m + 2 ^ (- e)) / 2 ^ (1 - e).

(** [Number::toString] of an integer [x >= 10^21]: the shortest decimal
    [s * 10^(n-k)] that reads back as [x], in exponent notation.  The
    reals that round to [m * 2^e] are those between the midpoints to
    its neighbours, the midpoints included when [m] is even. *)
Section Shortest.
Variables (m : positive) (e : Z).

Let x : Z := Zpos m * 2 ^ e.
Let below : Z :=
  if (Zpos m =? 2 ^ 52) then 2 * x - 2 ^ (e - 1) else 2 * x - 2 ^ e.
Let above : Z := 2 * x + 2 ^ e.

Definition reads_back (v : Z) : bool :=
  if Z.even (Zpos m)
  then (below <=? 2 * v) && (2 * v <=? above)
  else (below <? 2 * v) && (2 * v <? above).

Definition ndigits : Z := Z.of_nat (String.length (digits_of x)).

(** The candidate with [k] digits, if one reads back as [x]. *)
Definition candidate (k : Z) : option (Z * Z) :=
  let p := 10 ^ (ndigits - k) in
  let lo := x / p in
  let hi := lo + 1 in
  let oklo := reads_back (lo * p) in
  let okhi := reads_back (hi * p) in
  let pick (s : Z) :=
    if s =? 10 ^ k then Some (10 ^ (k - 1), ndigits + 1)
    else Some (s, ndigits) in
  match oklo, okhi with
  | false, false => None
  | true, false => pick lo
  | false, true => pick hi
  | true, true =>
      match (x - lo * p) ?= (hi * p - x) with
      | Lt => pick lo
      | Gt => pick hi
      | Eq => if Z.even lo then pick lo else pick hi
      end
  end.

Fixpoint shortest (fuel : nat) (k : Z) : Z * Z :=
  match fuel with
  | O => (x, ndigits)
  | S fuel' =>
      match candidate k with
      | Some r => r
      | None => shortest fuel' (k + 1)
      end
  end.

Definition exponential : string :=
  let '(s, n) := shortest 17 1 in
  let d := digits_of s in
  let frac := drop 1 d in
  take 1 d ++ (if String.eqb frac "" then "" else "." ++ frac)
  ++ "e+" ++ digits_of (n - 1).
End Shortest.

(** [x.toFixed(2)]. *)
Definition toFixed2 (x : number) : string :=
  match x with
  | S754_nan => "NaN"
  | S754_infinity s => if s then "-Infinity" else "Infinity"
  | S754_zero _ => "0.00"
  | S754_finite s m e =>
      (if s then "-" else "") ++
      (if (0 <=? e) && (10 ^ 21 <=? Zpos m * 2 ^ e)
       then exponential m e
       else fixed2 (hundredths m e))
  end.

End ToFixed.

Import ToFixed.

(** ** Data model *)

Local Open Scope string_scope.

(** A calibration point [{ score, rank }]. *)
Record entry : Type := mkEntry { score : number; rank : number }.

Definition point (score100 rank : Z) : entry :=
  mkEntry (decimal score100 2) (of_Z rank).

(** [kcet2025RankTable], by descending score. *)
Definition kcet2025RankTable : list entry :=
  Eval vm_compute in
  [ point 9622 81; point 9406 308; point 9000 1245; point 8500 3804;
    point 8000 8500;
    point 7500 16000; point 7000 30000; point 6500 50000; point 6000 80000;
    point 5000 155000; point 4000 235000; point 3500 259000 ].

(** The optional fields of [RankPrediction] are options. *)
Record RankPrediction : Type := mkPrediction {
  low : number;
  medium : number;
  high : number;
  composite : number;
  percentile : option string;
  rankBand : option string;
  competitionLevel : option string
}.

(** What a call does: it returns a value or throws an [Error] with a
    message. *)
Inductive outcome (A : Type) : Type :=
| Returned (a : A)
| Thrown (message : string).
Arguments Returned {A} a.
Arguments Thrown {A} message.

(** ** Classifiers *)

Definition getRankBand (rank : number) : string :=
  if leb rank (of_Z 200) then "Elite"
  else if leb rank (of_Z 1200) then "Excellent"
  else if leb rank (of_Z 3000) then "Very Good"
  else if leb rank (of_Z 8000) then "Good"
  else if leb rank (of_Z 16000) then "Above Average"
  else if leb rank (of_Z 30000) then "Average"
  else if leb rank (of_Z 50000) then "Below Average"
  else if leb rank (of_Z 80000) then "Lower"
  else if leb rank (of_Z 155000) then "Poor"
  else "Very Poor".

Definition getCompetitionLevel (score : number) : string :=
  if geb score (of_Z 95) then "Extremely High"
  else if geb score (of_Z 90) then "Very High"
  else if geb score (of_Z 85) then "High"
  else if geb score (of_Z 80) then "Moderately High"
  else if geb score (of_Z 75) then "Moderate"
  else if geb score (of_Z 70) then "Moderately Low"
  else if geb score (of_Z 60) then "Low"
  else "Very Low".

Definition totalCandidates : number := of_Z 260000.

Definition calculatePercentile (rank : number) : string :=
  let percentile :=
    toFixed2 (mul (div (sub totalCandidates rank) totalCandidates) (of_Z 100)) in
  percentile ++ "%".

(** ** [predictKCETRank] *)

Definition invalid_marks : string :=
  "Please enter valid marks (KCET: 0-180, PUC: 0-100)".

(** [0.6 * ((cet / 180) * 100) + 0.4 * puc]. *)
Definition combined (cet puc : number) : number :=
  let kcetPercentage := mul (div cet (of_Z 180)) (of_Z 100) in
  add (mul (decimal 6 1) kcetPercentage) (mul (decimal 4 1) puc).

(** The guard of the [throw]. *)
Definition rejected (combinedScore : number) : bool :=
  isNaN combinedScore || ltb combinedScore (of_Z 0)
  || gtb combinedScore (of_Z 100).

(** The result built from a rank [r] in the interpolation loop and in
    the fallback: [medium = Math.round(r)] and a band of 5% around it. *)
Definition banded (r combinedScore : number) : RankPrediction :=
  let medium := Math_round r in
  {| low := Math_round (mul medium (decimal 95 2));
     medium := medium;
     high := Math_round (mul medium (decimal 105 2));
     composite := combinedScore;
     percentile := Some (calculatePercentile medium);
     rankBand := Some (getRankBand medium);
     competitionLevel := Some (getCompetitionLevel combinedScore) |}.

Definition interpolatedRank (currentEntry nextEntry : entry)
    (combinedScore : number) : number :=
  let scoreDiff := sub (score currentEntry) (score nextEntry) in
  let rankDiff := sub (rank nextEntry) (rank currentEntry) in
  let scoreOffset := sub (score currentEntry) combinedScore in
  add (rank currentEntry) (mul (div scoreOffset scoreDiff) rankDiff).

(** The loop over adjacent entries [table[i]], [table[i + 1]]: the first
    pair that brackets the score gives the result, and [None] stands
    for a [result] left [null]. *)
Fixpoint interpolate (table : list entry) (combinedScore : number)
    : option RankPrediction :=
  match table with
  | currentEntry :: ((nextEntry :: _) as rest) =>
      if leb combinedScore (score currentEntry)
         && geb combinedScore (score nextEntry)
      then Some (banded (interpolatedRank currentEntry nextEntry combinedScore)
                        combinedScore)
      else interpolate rest combinedScore
  | _ => None
  end.

(** The fallback loop: the entry whose score is closest, the earliest
    one among equals. *)
Fixpoint closest_from (table : list entry) (combinedScore : number)
    (closest : entry) (minDiff : number) : entry :=
  match table with
  | [] => closest
  | e :: rest =>
      let diff := Math_abs (sub combinedScore (score e)) in
      if ltb diff minDiff
      then closest_from rest combinedScore e diff
      else closest_from rest combinedScore closest minDiff
  end.

Definition closest_entry (table : list entry) (first : entry)
    (combinedScore : number) : entry :=
  closest_from (tl table) combinedScore first
    (Math_abs (sub combinedScore (score first))).

Definition first_entry : entry :=
  hd (mkEntry NaN NaN) kcet2025RankTable.
Definition last_entry : entry :=
  last kcet2025RankTable (mkEntry NaN NaN).

(** The body of [predictKCETRank] after the guard, as a function of the
    combined score. *)
Definition predict (combinedScore : number) : RankPrediction :=
  if geb combinedScore (score first_entry) then
    {| low := of_Z 1; medium := of_Z 1; high := of_Z 1;
       composite := combinedScore;
       percentile := Some "Top 0.01%";
       rankBand := Some "Elite";
       competitionLevel := Some "Extremely High" |}
  else if leb combinedScore (score last_entry) then
    {| low := of_Z 250000; medium := of_Z 260000; high := of_Z 270000;
       composite := combinedScore;
       percentile := Some "Bottom 20%";
       rankBand := Some "Lower";
       competitionLevel := Some "Moderate" |}
  else
    match interpolate kcet2025RankTable combinedScore with
    | Some result => result
    | None =>
        banded (rank (closest_entry kcet2025RankTable first_entry combinedScore))
               combinedScore
    end.

(** The [catch] rethrows the error with its own message. *)
Definition predictKCETRank (cet puc : number) : outcome RankPrediction :=
  let combinedScore := combined cet puc in
  if rejected combinedScore then Thrown invalid_marks
  else Returned (predict combinedScore).

(** ** [getCollegeSuggestions] *)

Record suggestion : Type := mkSuggestion {
  threshold : option number;   (* the [rank] field, absent in the default *)
  name : string;
  branch : string
}.

Definition row (r : Z) (n b : string) : suggestion :=
  mkSuggestion (Some (of_Z r)) n b.

Definition general : list suggestion :=
  [ row 200 "RVCE, BMSCE, IISc" "CSE, ECE, EEE";
    row 1200 "MSRIT, PESIT, BMSIT" "CSE, ECE, ISE";
    row 3000 "SIT, NMIT, DSCE" "CSE, ECE, ME";
    row 8000 "CIT, SJCE, UVCE" "All branches";
    row 16000 "Regional colleges" "All branches";
    row 30000 "Private colleges" "All branches" ].

Definition obc : list suggestion :=
  [ row 300 "RVCE, BMSCE" "CSE, ECE";
    row 1500 "MSRIT, PESIT" "CSE, ECE";
    row 4000 "SIT, NMIT" "CSE, ECE";
    row 10000 "CIT, SJCE" "All branches";
    row 20000 "Regional colleges" "All branches";
    row 40000 "Private colleges" "All branches" ].

Definition sc : list suggestion :=
  [ row 500 "RVCE, BMSCE" "CSE, ECE";
    row 2000 "MSRIT, PESIT" "CSE, ECE";
    row 6000 "SIT, NMIT" "CSE, ECE";
    row 15000 "CIT, SJCE" "All branches";
    row 30000 "Regional colleges" "All branches";
    row 60000 "Private colleges" "All branches" ].

Definition st : list suggestion :=
  [ row 800 "RVCE, BMSCE" "CSE, ECE";
    row 3000 "MSRIT, PESIT" "CSE, ECE";
    row 8000 "SIT, NMIT" "CSE, ECE";
    row 20000 "CIT, SJCE" "All branches";
    row 40000 "Regional colleges" "All branches";
    row 80000 "Private colleges" "All branches" ].

(** What [colleges[category]] evaluates to.  [colleges] is an object
    literal: besides its four own properties, a property read finds the
    members of [Object.prototype], which are functions or, for
    [__proto__], the prototype object itself. *)
Inductive property : Type :=
| Own (table : list suggestion)
| Inherited
| Undefined.

Definition Object_prototype_keys : list string :=
  [ "constructor"; "hasOwnProperty"; "isPrototypeOf";
    "propertyIsEnumerable"; "toLocaleString"; "toString"; "valueOf";
    "__proto__"; "__defineGetter__"; "__defineSetter__";
    "__lookupGetter__"; "__lookupSetter__" ].

Definition colleges (category : string) : property :=
  if String.eqb category "general" then Own general
  else if String.eqb category "obc" then Own obc
  else if String.eqb category "sc" then Own sc
  else if String.eqb category "st" then Own st
  else if existsb (String.eqb category) Object_prototype_keys then Inherited
  else Undefined.

Definition other_colleges : suggestion :=
  mkSuggestion None "Other colleges" "All branches".

(** [suggestions.find(s => rank <= s.rank)]. *)
Definition find_suggestion (rank : number) (suggestions : list suggestion)
    : option suggestion :=
  find (fun s => match threshold s with
                 | Some t => leb rank t
                 | None => false
                 end) suggestions.

(** [colleges[category] || colleges.general] keeps every value but
    [undefined]; calling [find] on an inherited member, which has no
    such method, throws a [TypeError]. *)
Definition getCollegeSuggestions (rank : number) (category : string)
    : outcome suggestion :=
  match colleges category with
  | Own suggestions =>
      Returned (match find_suggestion rank suggestions with
                | Some s => s
                | None => other_colleges
                end)
  | Undefined =>
      Returned (match find_suggestion rank general with
                | Some s => s
                | None => other_colleges
                end)
  | Inherited => Thrown "suggestions.find is not a function"
  end.

(** ** The other classifiers *)

Definition getPercentile (composite : number) : string :=
  if geb composite (of_Z 95) then "Top 1%"
  else if geb composite (of_Z 90) then "Top 5%"
  else if geb composite (of_Z 80) then "Top 15%"
  else if geb composite (of_Z 70) then "Top 30%"
  else if geb composite (of_Z 60) then "Top 50%"
  else "Below Average".

Definition getRankAnalysis (rank : number) : string :=
  if leb rank (of_Z 200)
  then "Elite rank! Top colleges like RVCE, BMSCE, MSRIT are within reach."
  else if leb rank (of_Z 1200)
  then "Excellent rank! Strong chances for premier engineering colleges."
  else if leb rank (of_Z 3000)
  then "Very good rank! Good options for top-tier colleges."
  else if leb rank (of_Z 8000)
  then "Good rank! Solid chances for reputed colleges."
  else if leb rank (of_Z 16000)
  then "Above average rank. Consider various college options."
  else if leb rank (of_Z 30000)
  then "Average rank. Explore multiple college choices."
  else if leb rank (of_Z 50000)
  then "Below average rank. Consider all available options."
  else if leb rank (of_Z 80000)
  then "Lower rank. Focus on colleges with higher acceptance rates."
  else if leb rank (of_Z 155000)
  then "Poor rank. Consider alternative pathways and colleges."
  else "Very poor rank. Explore all possible options including diploma courses.".

(** ** Strings

    The methods of strings that [getRankGapAnalysis] calls.  The
    characters of a string are its code units; those of the tables of
    this file are ASCII. *)

Module Str.

Local Open Scope string_scope.
Local Open Scope Z_scope.

(** [s.split(sep)] for a separator that is not empty: the pieces
    between the occurrences of [sep], found from the left.  [skip]
    counts the characters of an occurrence still to pass, and [piece]
    is the piece read so far. *)
Fixpoint split_from (sep s : string) (skip : nat) (piece : string)
    : list string :=
  match s with
  | EmptyString => [piece]
  | String c s' =>
      match skip with
      | S k => split_from sep s' k piece
      | O =>
          if String.prefix sep s
          then piece :: split_from sep s' (String.length sep - 1) ""
          else split_from sep s' 0 (piece ++ String c "")
      end
  end.

Definition split (sep s : string) : list string := split_from sep s 0 "".

(** [s.replace(pattern, replacement)] for a pattern that is a string
    and a replacement without [$]: the first occurrence is replaced. *)
Fixpoint replace (pattern replacement s : string) : string :=
  if String.prefix pattern s
  then replacement ++ drop (String.length pattern) s
  else match s with
       | EmptyString => EmptyString
       | String c s' => String c (replace pattern replacement s')
       end.

Definition is_digit (c : ascii) : bool :=
  let n := nat_of_ascii c in ((48 <=? n) && (n <=? 57))%nat.

(** White space and line terminators among the code units below 256. *)
Definition is_white (c : ascii) : bool :=
  let n := nat_of_ascii c in
  (((9 <=? n) && (n <=? 13)) || (n =? 32) || (n =? 160))%nat.

Fixpoint skip_white (s : string) : string :=
  match s with
  | String c s' => if is_white c then skip_white s' else s
  | EmptyString => s
  end.

(** The decimal digits at the start of a string, and the rest. *)
Fixpoint span_digits (s : string) : string * string :=
  match s with
  | String c s' =>
      if is_digit c
      then let '(d, rest) := span_digits s' in (String c d, rest)
      else (EmptyString, s)
  | EmptyString => (EmptyString, s)
  end.

Fixpoint digits_value_from (acc : Z) (d : string) : Z :=
  match d with
  | String c d' => digits_value_from (10 * acc + (Z.of_nat (nat_of_ascii c) - 48)) d'
  | EmptyString => acc
  end.

Definition digits_value (d : string) : Z := digits_value_from 0 d.

Definition signed (s : string) : bool * string :=
  match s with
  | String "+" t => (false, t)
  | String "-" t => (true, t)
  | _ => (false, s)
  end.

(** The value of an exponent part [e], [E] with an optional sign and
    digits at the start of a string; 0 when there is none. *)
Definition exponent_part (s : string) : Z :=
  match s with
  | String c s' =>
      if Ascii.eqb c "e" || Ascii.eqb c "E" then
        let '(neg, t) := signed s' in
        let '(d, _) := span_digits t in
        if String.eqb d "" then 0
        else if neg then - digits_value d else digits_value d
      else 0
  | EmptyString => 0
  end.

(** The number nearest to [n * 10^k], negated if [neg]: an integer is
    rounded by [binary_normalize], and a quotient [n / 10^(-k)] of two
    integers by the division, which rounds the exact quotient once. *)
Definition decimal_value (neg : bool) (n k : Z) : number :=
  match n with
  | Z0 => S754_zero neg
  | Zpos p =>
      if 0 <=? k
      then binary_normalize prec emax (cond_Zopp neg (n * 10 ^ k)) 0 false
      else SFdiv prec emax (S754_finite neg p 0)
                 (S754_finite false (Z.to_pos (10 ^ (- k))) 0)
  | Zneg _ => NaN
  end.

(** [parseFloat(s)]: the longest prefix of [s], after white space, that
    is a decimal literal, or NaN when there is none. *)
Definition parseFloat (s : string) : number :=
  let '(neg, s0) := signed (skip_white s) in
  if String.prefix "Infinity" s0 then S754_infinity neg
  else
    let '(ip, s1) := span_digits s0 in
    let '(fp, s2) :=
      match s1 with
      | String "." t => span_digits t
      | _ => (EmptyString, s1)
      end in
    if String.eqb ip "" && String.eqb fp "" then NaN
    else decimal_value neg (digits_value (ip ++ fp))
                       (exponent_part s2 - Z.of_nat (String.length fp)).

End Str.

(** ** [getRankGapAnalysis] *)

Record band : Type := mkBand {
  range : string;
  rankRange : string;
  candidatesPer1Percent : string
}.

Definition rankGapAnalysis : list band :=
  [ mkBand "95-100%" "1-200" "20-30";
    mkBand "90-95%" "200-1,200" "200-300";
    mkBand "85-90%" "1,200-3,000" "350-400";
    mkBand "80-85%" "3,000-8,000" "1,000";
    mkBand "75-80%" "8,000-16,000" "1,500";
    mkBand "70-75%" "16,000-30,000" "2,800";
    mkBand "60-70%" "30,000-75,000" "4,000-5,000";
    mkBand "50-60%" "75,000-1,55,000" "8,000-9,000";
    mkBand "40-50%" "1,55,000-2,35,000" "8,000";
    mkBand "30-40%" "2,35,000-2,59,000" "10,000" ].

Module RankAnalysis.
Record t : Type := mk {
  rankGap : string;
  candidatesPerPercent : string;
  competitionLevel : string;
  improvementPotential : string
}.
End RankAnalysis.

(** [band.range.split('-').map(s => parseFloat(s.replace('%', '')))]. *)
Definition bounds (b : band) : list number :=
  map (fun s => Str.parseFloat (Str.replace "%" "" s)) (Str.split "-" (range b)).

(** The test of [find]: [[min, max]] are the first two bounds, and a
    missing one is [undefined], which compares as NaN does. *)
Definition in_band (score : number) (b : band) : bool :=
  let min := nth 0 (bounds b) NaN in
  let max := nth 1 (bounds b) NaN in
  geb score min && leb score max.

(** The table is not empty, so its last element is defined. *)
Definition getRankGapAnalysis (score : number) : RankAnalysis.t :=
  let b :=
    match find (in_band score) rankGapAnalysis with
    | Some b => b
    | None => last rankGapAnalysis (mkBand "" "" "")
    end in
  {| RankAnalysis.rankGap := rankRange b;
     RankAnalysis.candidatesPerPercent := candidatesPer1Percent b;
     RankAnalysis.competitionLevel := getCompetitionLevel score;
     RankAnalysis.improvementPotential :=
       if geb score (of_Z 80) then "Limited"
       else if geb score (of_Z 60) then "Moderate"
       else "High" |}.

(** ** Reviews and the session of the user

    [localStorage] is a map from keys to strings, and [getItem] gives
    [null] for a key that is absent.  Writes to the console are left
    out, and the storage is taken to accept every write. *)

Module Reviews.

Local Open Scope string_scope.

Definition Storage : Type := string -> option string.

Definition getItem (localStorage : Storage) (key : string) : option string :=
  localStorage key.

Definition setItem (localStorage : Storage) (key value : string) : Storage :=
  fun k => if String.eqb k key then Some value else localStorage k.

(** The optional fields are options: an absent field reads as
    [undefined]. *)
Record CollegeReview : Type := mkReview {
  id : string;
  college_id : string;
  user_id : option string;
  session_id : option string;
  rating : number;
  review_text : string;
  faculty_rating : number;
  infrastructure_rating : number;
  placements_rating : number;
  helpful_votes : number;
  verified : bool;
  created_at : string;
  collegeCode : option string;
  collegeName : option string;
  author : option string;
  comment : option string;
  course : option string;
  graduation_year : option number;
  helpful : option number
}.

(** [getUserSessionId], where [randomUUID] is what
    [crypto.randomUUID()] returns when it is called.  [!sessionId]
    holds of [null] and of the empty string. *)
Definition getUserSessionId (randomUUID : string) (localStorage : Storage)
    : string * Storage :=
  match getItem localStorage "user_session_id" with
  | Some sessionId =>
      if String.eqb sessionId ""
      then (randomUUID, setItem localStorage "user_session_id" randomUUID)
      else (sessionId, localStorage)
  | None => (randomUUID, setItem localStorage "user_session_id" randomUUID)
  end.

(** [field === s] for a field that is a string or [undefined]. *)
Definition same (field : option string) (s : string) : bool :=
  match field with
  | Some x => String.eqb x s
  | None => false
  end.

Definition isUserReview (randomUUID : string) (localStorage : Storage)
    (review : CollegeReview) : bool * Storage :=
  let '(userSessionId, localStorage') :=
    getUserSessionId randomUUID localStorage in
  let reviewUserId := user_id review in
  let reviewSessionId := session_id review in
  let isCurrentUser :=
    same reviewUserId userSessionId || same reviewSessionId userSessionId in
  (isCurrentUser, localStorage').

End Reviews.

(** ** The names of the colleges

    The text of a name is the list of its UTF-16 code units.  The three
    [replace] calls and [trim] of [loadColleges] are written as the
    functions that the regular expressions compute. *)

Module Names.

Local Open Scope N_scope.

Definition text : Type := list N.

(** The class [\s], which is also what [trim] removes: white space and
    line terminators. *)
Definition white (c : N) : bool :=
  existsb (N.eqb c)
    [9; 10; 11; 12; 13; 32; 160; 5760; 8232; 8233; 8239; 8287; 12288; 65279]
  || ((8192 <=? c) && (c <=? 8202)).

(** What a greedy [\s*] leaves of a text. *)
Fixpoint skip (s : text) : text :=
  match s with
  | c :: s' => if white c then skip s' else s
  | [] => []
  end.

(** [.replace(/^E:\s*/, '')]. *)
Definition without_prefix (s : text) : text :=
  match s with
  | 69 :: 58 :: rest => skip rest
  | _ => s
  end.

(** [\s*:\s*$] matches at the start of a text: a colon follows the
    white space, and only white space follows the colon.  A colon is
    not white space, so giving back white space never helps. *)
Definition colon_tail (s : text) : bool :=
  match skip s with
  | 58 :: rest => match skip rest with [] => true | _ => false end
  | _ => false
  end.

(** [.replace(/\s*:\s*$/, '')]: the leftmost match is removed, and it
    reaches the end of the text. *)
Fixpoint without_colon (s : text) : text :=
  if colon_tail s then []
  else match s with
       | [] => []
       | c :: s' => c :: without_colon s'
       end.

(** [.replace(/\s+/g, ' ')]: every run of white space becomes one
    space, written here when the last character of the run is read. *)
Fixpoint single_spaces (s : text) : text :=
  match s with
  | [] => []
  | c :: s' =>
      if white c then
        match s' with
        | c' :: _ => if white c' then single_spaces s' else 32 :: single_spaces s'
        | [] => [32]
        end
      else c :: single_spaces s'
  end.

(** A text without the white space at its end. *)
Fixpoint chop (s : text) : text :=
  match s with
  | [] => []
  | c :: s' =>
      match chop s' with
      | [] => if white c then [] else [c]
      | t => c :: t
      end
  end.

(** [.trim()]. *)
Definition trim (s : text) : text := chop (skip s).

(** The chain applied to [college.name]. *)
Definition cleaned_name (name : text) : text :=
  trim (single_spaces (without_colon (without_prefix name))).

Record College : Type := mkCollege { code : text; name : text }.

(** [college => ({ ...college, name: ... })]. *)
Definition cleaned (college : College) : College :=
  {| code := code college; name := cleaned_name (name college) |}.

(** What the request for [/colleges-list.json] comes to: it fails, or
    it is answered with a status and a body, which is taken to be a
    list of colleges as the code annotates it. *)
Inductive response : Type :=
| Failed
| Answered (ok : bool) (colleges : list College).

(** A response that is not [ok] throws, and every error is caught and
    gives the empty list. *)
Definition loadColleges (r : response) : list College :=
  match r with
  | Answered true colleges => map cleaned colleges
  | _ => []
  end.

End Names.

(** * Notions of the proofs

    The definitions the lemmas below are stated with: the reading of a
    truncated mantissa as a code, the value of a number, the functions
    that grow, the checks of the calibration table, and the words of the
    specification about percentiles and suggestions. *)

Module Notions.

Local Open Scope Z_scope.

(** A truncated mantissa with its round and sticky bits, read as one
    integer: four times the mantissa, plus the two bits. *)
Definition code (mrs : shr_record) : Z :=
  4 * shr_m mrs + (if shr_r mrs then 2 else 0) + (if shr_s mrs then 1 else 0).

(** The code of the value [N / D]: twice the integer part of
    [2 * N / D], plus one when a remainder is left. *)
Definition Code (N D : Z) : Z :=
  2 * (2 * N / D) + (if (2 * N) mod D =? 0 then 0 else 1).

(** Rounding to nearest, ties to even, of a truncated mantissa. *)
Definition RNE (mrs : shr_record) : Z :=
  round_nearest_even (shr_m mrs) (loc_of_shr_record mrs).

(** The float of mantissa [M <= 2^53] and exponent [e]. *)
Definition finish (s : bool) (M e : Z) : spec_float :=
  if M =? 2 ^ 53 then
    if e + 1 <=? 971 then S754_finite s 4503599627370496 (e + 1)
    else S754_infinity s
  else
    match M with
    | Z0 => S754_zero s
    | Zpos p => if e <=? 971 then S754_finite s p e else S754_infinity s
    | Zneg _ => S754_nan
    end.

(** What [binary_round_aux] asks of its arguments: the mantissa is not
    shorter than the format asks at this exponent. *)
Definition long_enough (m e : Z) : Prop :=
  0 <= m /\ e <= fexp prec emax (Zdigits2 m + e).

(** What the first stage of [binary_round_aux] hands to the second: a
    mantissa of 53 bits at most, of exactly 53 bits above the smallest
    exponent, possibly rounded up to [2^53]. *)
Definition staged (M e : Z) : Prop :=
  0 <= M <= 2 ^ 53 /\ (-1074 < e -> 2 ^ 52 <= M) /\ -1074 <= e.

(** The mantissa [2^53] is written [2^52] at the next exponent. *)
Definition normal_pair (M e : Z) : Z * Z :=
  if M =? 2 ^ 53 then (2 ^ 52, e + 1) else (M, e).

(** The float of a pair of a mantissa below [2^53] and an exponent. *)
Definition finish_pair (s : bool) (p : Z * Z) : spec_float :=
  match fst p with
  | Z0 => S754_zero s
  | Zpos m => if snd p <=? 971 then S754_finite s m (snd p) else S754_infinity s
  | Zneg _ => S754_nan
  end.

(** The value [m * 2^e], counted in units of [2^(-K)]. *)
Definition val (K : Z) (m : positive) (e : Z) : Z := Zpos m * 2 ^ (e + K).

(** A finite number that is zero or positive. *)
Definition nonneg (x : number) : Prop :=
  is_number x = true
  /\ match x with
     | S754_zero _ | S754_finite false _ _ => True
     | _ => False
     end.

(** A finite number above zero. *)
Definition positive_number (x : number) : Prop :=
  is_number x = true
  /\ match x with S754_finite false _ _ => True | _ => False end.

(** The absolute value of a finite number in units of [2^(-K)]. *)
Definition value (K : Z) (x : number) : Z :=
  match x with
  | S754_finite _ m e => val K m e
  | _ => 0
  end.

(** The exponent and the shifted dividend of [SFdiv_core_binary]. *)
Definition div_exponent (m1 : positive) (e1 : Z) (m2 : positive) (e2 : Z) : Z :=
  Z.min (fexp prec emax (Zdigits2 (Zpos m1) + e1 - (Zdigits2 (Zpos m2) + e2)))
        (e1 - e2).

Definition div_dividend (m1 : positive) (e1 : Z) (m2 : positive) (e2 : Z) : Z :=
  Zpos m1 * 2 ^ (e1 - e2 - div_exponent m1 e1 m2 e2).

(** The number [+0]. *)
Definition zero : number := S754_zero false.

(** [grows b f]: on the nonnegative numbers up to [b], the function [f]
    is monotone and its results are nonnegative numbers. *)
Record grows (b : number) (f : number -> number) : Prop := {
  grows_bound : nonneg b;
  grows_top : nonneg (f b);
  grows_valid : forall x, is_number x = true -> is_number (f x) = true;
  grows_mono : forall x1 x2, nonneg x1 -> nonneg x2 ->
      leb x1 x2 = true -> leb x2 b = true -> leb (f x1) (f x2) = true;
  grows_zero : leb zero (f zero) = true
}.

(** [nonneg] and [positive_number] as checks. *)
Definition nonnegb (x : number) : bool :=
  is_number x
  && match x with S754_zero _ | S754_finite false _ _ => true | _ => false end.

Definition positiveb (x : number) : bool :=
  is_number x
  && match x with S754_finite false _ _ => true | _ => false end.

(** The rank of a score as a function of its offset
    [currentEntry.score - combinedScore], rounded. *)
Definition rank_at (currentEntry nextEntry : entry) (scoreOffset : number)
    : number :=
  let scoreDiff := sub (score currentEntry) (score nextEntry) in
  let rankDiff := sub (rank nextEntry) (rank currentEntry) in
  Math_round
    (add (rank currentEntry) (mul (div scoreOffset scoreDiff) rankDiff)).

(** What a pair of adjacent entries is checked for: the entries are
    positive numbers, scores fall and ranks rise, and the rank computed
    at either end stays between the ranks of the entries. *)
Definition segment_ok (cur next : entry) : bool :=
  let d := sub (score cur) (score next) in
  let rd := sub (rank next) (rank cur) in
  positiveb (score cur) && positiveb (score next) && positiveb (rank cur)
  && positiveb (rank next)
  && leb (score next) (score cur)
  && positiveb d && nonnegb rd
  && nonnegb (div d d) && nonnegb (mul (div d d) rd)
  && nonnegb (add (rank cur) (mul (div d d) rd))
  && nonnegb (rank_at cur next d)
  && leb (rank cur) (rank_at cur next (sub (score cur) (score cur)))
  && leb (rank_at cur next d) (rank next).

(** Every pair of adjacent entries of a table passes the check. *)
Fixpoint table_ok (table : list entry) : bool :=
  match table with
  | cur :: ((next :: _) as rest) => segment_ok cur next && table_ok rest
  | _ => true
  end.

(** A score of the segment between two adjacent entries. *)
Definition inside (cur next : entry) (c : number) : Prop :=
  nonneg c /\ leb (score next) c = true /\ leb c (score cur) = true.

(** [kcet2025RankTable[0].score] and the score of the last entry. *)
Definition top_score : number := score first_entry.
Definition bottom_score : number := score last_entry.

(** The number 1. *)
Definition one : number := Eval vm_compute in of_Z 1.

(** The pairs [table[i]], [table[i + 1]] of the loop. *)
Definition adjacent (table : list entry) : list (entry * entry) :=
  combine table (tl table).

(** [n / 100] is nearest to [m * 2^e], and [n] is the larger integer
    at a tie. *)
Definition nearest_hundredth (m : positive) (e n : Z) : Prop :=
  if 0 <=? e then n = 100 * Zpos m * 2 ^ e
  else 200 * Zpos m - 2 ^ (- e) < 2 * n * 2 ^ (- e) <= 200 * Zpos m + 2 ^ (- e).

(** The percentage [(260000 - rank) / 260000 * 100]. *)
Definition percentage (rank : number) : number :=
  mul (div (sub totalCandidates rank) totalCandidates) (of_Z 100).

(** The number 260000 of [totalCandidates], evaluated. *)
Definition pool : number := Eval vm_compute in totalCandidates.

(** The suggestion of a rank in a table: the first row whose threshold
    is at least the rank, or the default. *)
Definition first_at_least (rank : number) (rows : list suggestion) : suggestion :=
  match find_suggestion rank rows with
  | Some s => s
  | None => other_colleges
  end.

(** The table of a category, the general one for an unknown category. *)
Definition table_of (category : string) : list suggestion :=
  if String.eqb category "general" then general
  else if String.eqb category "obc" then obc
  else if String.eqb category "sc" then sc
  else if String.eqb category "st" then st
  else general.

(** The place of a label in a list of labels. *)
Fixpoint position (l : string) (ls : list string) : nat :=
  match ls with
  | [] => O
  | x :: rest => if String.eqb l x then O else S (position l rest)
  end.

(** The rank bands from the best to the worst, and the competition
    levels and percentile labels from the lowest to the highest. *)
Definition rank_bands : list string :=
  [ "Elite"; "Excellent"; "Very Good"; "Good"; "Above Average"; "Average";
    "Below Average"; "Lower"; "Poor"; "Very Poor" ].

Definition competition_levels : list string :=
  [ "Very Low"; "Low"; "Moderately Low"; "Moderate"; "Moderately High";
    "High"; "Very High"; "Extremely High" ].

Definition percentile_labels : list string :=
  [ "Below Average"; "Top 50%"; "Top 30%"; "Top 15%"; "Top 5%"; "Top 1%" ].

(** A string in lower case. *)
Definition lower (c : ascii) : ascii :=
  let n := nat_of_ascii c in
  if ((65 <=? n) && (n <=? 90))%nat then ascii_of_nat (n + 32) else c.

Fixpoint lowercase (s : string) : string :=
  match s with
  | EmptyString => EmptyString
  | String c s' => String (lower c) (lowercase s')
  end.

(** The percentile label and the improvement potential that go with a
    competition level. *)
Definition percentile_of_level (level : string) : string :=
  if String.eqb level "Extremely High" then "Top 1%"
  else if String.eqb level "Very High" then "Top 5%"
  else if String.eqb level "High" || String.eqb level "Moderately High"
  then "Top 15%"
  else if String.eqb level "Moderate" || String.eqb level "Moderately Low"
  then "Top 30%"
  else if String.eqb level "Low" then "Top 50%"
  else "Below Average".

Definition potential_of_level (level : string) : string :=
  if existsb (String.eqb level)
       ["Extremely High"; "Very High"; "High"; "Moderately High"]
  then "Limited"
  else if existsb (String.eqb level) ["Moderate"; "Moderately Low"; "Low"]
  then "Moderate"
  else "High".

(** The label [lo-hi%] of a band of scores. *)
Definition band_label (lo hi : Z) : string :=
  digits_of lo ++ "-" ++ digits_of hi ++ "%".

(** The thresholds of a table of suggestions rise: every row has one,
    and it is at most those of the rows after it. *)
Definition threshold_leb (a b : suggestion) : bool :=
  match threshold a, threshold b with
  | Some x, Some y => leb x y
  | _, _ => false
  end.

Fixpoint rising (rows : list suggestion) : bool :=
  match rows with
  | [] => true
  | a :: rest => threshold_leb a a && forallb (threshold_leb a) rest && rising rest
  end.

(** The hundredths that [toFixed(2)] prints for a number from 0 to
    100. *)
Definition hundredths_of (x : number) : Z :=
  match x with
  | S754_finite _ m e => hundredths m e
  | _ => 0
  end.

(** The distance [Math.abs(combinedScore - entry.score)] of the
    fallback loop. *)
Definition distance (combinedScore : number) (e : entry) : number :=
  Math_abs (sub combinedScore (score e)).

(** Every white-space character of a text is a space, and none is
    followed by another. *)
Fixpoint isolated (s : Names.text) : bool :=
  match s with
  | [] => true
  | c :: s' =>
      (if Names.white c
       then N.eqb c 32
            && match s' with c' :: _ => negb (Names.white c') | [] => true end
       else true)
      && isolated s'
  end.

(** Every white-space character of a text is a space between two
    characters that are not white space: the text begins and ends with
    none, and has no two in a row. *)
Fixpoint spaced (s : Names.text) : bool :=
  match s with
  | [] => true
  | c :: s' =>
      (if Names.white c
       then N.eqb c 32
            && match s' with c' :: _ => negb (Names.white c') | [] => false end
       else true)
      && spaced s'
  end.

Definition tidy (s : Names.text) : bool :=
  match s with c :: _ => negb (Names.white c) | [] => true end && spaced s.

(** The text begins with [E:], and the text ends with a colon. *)
Definition begins_with_E (s : Names.text) : bool :=
  match s with
  | c :: d :: _ => N.eqb c 69 && N.eqb d 58
  | _ => false
  end.

Definition ends_with_colon (s : Names.text) : bool :=
  N.eqb (last s 0%N) 58.

(** A storage that holds the session identifier [s-1], and a review
    written in that session. *)
Definition sample_storage : Reviews.Storage :=
  Reviews.setItem (fun _ => None) "user_session_id" "s-1".

Definition sample_review : Reviews.CollegeReview :=
  Reviews.mkReview "r-1" "c-1" None (Some "s-1") (of_Z 4) "Good" (of_Z 4)
    (of_Z 3) (of_Z 5) (of_Z 0) false "2025-06-01" None None None None None
    None None.

(** The place of the row that [find] returns in a table of
    suggestions: the number of rows before the first whose threshold is
    at least the rank, which is the length of the table when there is
    none. *)
Fixpoint place (rank : number) (rows : list suggestion) : nat :=
  match rows with
  | [] => O
  | s :: rest =>
      match threshold s with
      | Some t => if leb rank t then O else S (place rank rest)
      | None => S (place rank rest)
      end
  end.

(** Row by row, the thresholds of one table are at most those of
    another. *)
Fixpoint dominated (rows1 rows2 : list suggestion) : bool :=
  match rows1, rows2 with
  | [], [] => true
  | a :: rest1, b :: rest2 => threshold_leb a b && dominated rest1 rest2
  | _, _ => false
  end.

End Notions.

Import Notions.

(** * Properties *)

(** ** The order of numbers *)

Local Open Scope Z_scope.

Module Order.

Lemma compare_flip (x y : number) :
  SFcompare y x = option_map CompOpp (SFcompare x y).
Proof.
  destruct x as [[]| []| |[] m1 e1], y as [[]| []| |[] m2 e2];
    simpl; try reflexivity;
    rewrite (Z.compare_antisym e1 e2);
    destruct (e1 ?= e2); simpl; try reflexivity;
    rewrite (Pos.compare_cont_antisym m1 m2 Eq); simpl;
    destruct (Pos.compare_cont Eq m1 m2); reflexivity.
Qed.

(** Two numbers compare unless one is NaN. *)
Lemma compare_defined (x y : number) :
  isNaN x = false -> isNaN y = false -> exists c, SFcompare x y = Some c.
Proof.
  destruct x, y; simpl; intros; try discriminate; eauto.
Qed.

Lemma leb_false_ltb (x y : number) :
  isNaN x = false -> isNaN y = false -> leb x y = false -> ltb y x = true.
Proof.
  intros Hx Hy. unfold leb, ltb, SFleb, SFltb.
  rewrite (compare_flip x y).
  destruct (compare_defined x y Hx Hy) as [c ->].
  destruct c; simpl; congruence.
Qed.

Lemma ltb_leb (x y : number) : ltb x y = true -> leb x y = true.
Proof.
  unfold leb, ltb, SFleb, SFltb.
  destruct (SFcompare x y) as [[]|]; congruence.
Qed.

Lemma ltb_not_geb (x y : number) : ltb x y = true -> leb y x = false.
Proof.
  unfold leb, ltb, SFleb, SFltb. rewrite (compare_flip x y).
  destruct (SFcompare x y) as [[]|]; simpl; congruence.
Qed.

Lemma leb_not_gtb (x y : number) : leb x y = true -> ltb y x = false.
Proof.
  unfold leb, ltb, SFleb, SFltb. rewrite (compare_flip x y).
  destruct (SFcompare x y) as [[]|]; simpl; congruence.
Qed.

Lemma leb_not_nan_l (x y : number) : leb x y = true -> isNaN x = false.
Proof. unfold leb, SFleb; destruct x, y; simpl; congruence. Qed.

Lemma leb_not_nan_r (x y : number) : leb x y = true -> isNaN y = false.
Proof. unfold leb, SFleb; destruct x, y; simpl; congruence. Qed.

Lemma ltb_not_nan_l (x y : number) : ltb x y = true -> isNaN x = false.
Proof. intros H. apply ltb_leb in H. eapply leb_not_nan_l; eauto. Qed.

Lemma ltb_not_nan_r (x y : number) : ltb x y = true -> isNaN y = false.
Proof. intros H. apply ltb_leb in H. eapply leb_not_nan_r; eauto. Qed.

Ltac split_compare :=
  repeat match goal with
  | |- context [Z.compare ?a ?b] => destruct (Z.compare_spec a b)
  | H : context [Z.compare ?a ?b] |- _ => destruct (Z.compare_spec a b)
  | |- context [Pos.compare_cont Eq ?a ?b] =>
      change (Pos.compare_cont Eq a b) with (Pos.compare a b);
      destruct (Pos.compare_spec a b)
  | H : context [Pos.compare_cont Eq ?a ?b] |- _ =>
      change (Pos.compare_cont Eq a b) with (Pos.compare a b) in H;
      destruct (Pos.compare_spec a b)
  end.

Lemma leb_trans (x y z : number) :
  leb x y = true -> leb y z = true -> leb x z = true.
Proof.
  unfold leb, SFleb.
  destruct x as [[]| []| |[] m1 e1], y as [[]| []| |[] m2 e2],
           z as [[]| []| |[] m3 e3];
    simpl; try congruence; intros H1 H2;
    split_compare; simpl in *; subst; try congruence; try lia.
Qed.

Lemma leb_ltb_trans (x y z : number) :
  leb x y = true -> ltb y z = true -> ltb x z = true.
Proof.
  intros H1 H2.
  assert (Hx := leb_not_nan_l _ _ H1).
  assert (Hz := ltb_not_nan_r _ _ H2).
  destruct (leb z x) eqn:E.
  - pose proof (leb_trans _ _ _ E H1) as H3.
    apply leb_not_gtb in H3. congruence.
  - now apply leb_false_ltb.
Qed.

Lemma ltb_leb_trans (x y z : number) :
  ltb x y = true -> leb y z = true -> ltb x z = true.
Proof.
  intros H1 H2.
  assert (Hx := ltb_not_nan_l _ _ H1).
  assert (Hz := leb_not_nan_r _ _ H2).
  destruct (leb z x) eqn:E.
  - pose proof (leb_trans _ _ _ H2 E) as H3.
    apply leb_not_gtb in H3. congruence.
  - now apply leb_false_ltb.
Qed.

End Order.

(** ** Rounding

    [binary_round_aux] receives a truncated mantissa, an exponent and
    the location of the exact value above the truncation.  The pair of
    a mantissa and a location is read as one integer, its [code]; the
    code of the exact value [N / D] is [Code N D], and shifting the
    mantissa by one bit doubles [D]. *)

Module Rounding.

Lemma Code_scale N D c : 0 < D -> 0 < c -> Code (c * N) (c * D) = Code N D.
Proof.
  intros HD Hc. unfold Code.
  replace (2 * (c * N)) with (c * (2 * N)) by ring.
  rewrite Z.div_mul_cancel_l by lia.
  rewrite Z.mul_mod_distr_l by lia.
  destruct (Z.eqb_spec ((2 * N) mod D) 0) as [E|E].
  - rewrite E, Z.mul_0_r. reflexivity.
  - destruct (Z.eqb_spec (c * ((2 * N) mod D)) 0) as [E'|E']; [|reflexivity].
    apply Z.eq_mul_0 in E'. lia.
Qed.

(** The code orders the values. *)
Lemma Code_mono N1 D1 N2 D2 :
  0 <= N1 -> 0 < D1 -> 0 < D2 -> N1 * D2 <= N2 * D1 ->
  Code N1 D1 <= Code N2 D2.
Proof.
  intros HN1 HD1 HD2 H. unfold Code.
  pose proof (Z.div_mod (2 * N1) D1 ltac:(lia)) as E1.
  pose proof (Z.mod_pos_bound (2 * N1) D1 HD1) as B1.
  pose proof (Z.div_mod (2 * N2) D2 ltac:(lia)) as E2.
  pose proof (Z.mod_pos_bound (2 * N2) D2 HD2) as B2.
  set (q1 := 2 * N1 / D1) in *. set (r1 := (2 * N1) mod D1) in *.
  set (q2 := 2 * N2 / D2) in *. set (r2 := (2 * N2) mod D2) in *.
  assert (Hq : q1 <= q2 /\ (q1 = q2 -> r2 = 0 -> r1 = 0)).
  { assert (D1 * q1 * D2 + r1 * D2 <= D2 * q2 * D1 + r2 * D1) by nia.
    split.
    - destruct (Z_lt_le_dec q2 q1) as [L|L]; [|exact L]. exfalso.
      assert (q2 + 1 <= q1) by lia.
      assert (D1 * D2 * (q2 + 1) <= D1 * D2 * q1) by (apply Z.mul_le_mono_nonneg_l; nia).
      nia.
    - intros -> ->. nia. }
  destruct Hq as [Hq Hr].
  destruct (Z.eqb_spec r1 0), (Z.eqb_spec r2 0); lia.
Qed.

Lemma Code_double (N D m : Z) (r s : bool) :
  0 < D ->
  4 * m + (if r then 2 else 0) + (if s then 1 else 0) = Code N D ->
  2 * m + (if r || s then 1 else 0) = Code N (2 * D).
Proof.
  intros HD. unfold Code.
  pose proof (Z.div_mod (2 * N) D ltac:(lia)) as E1.
  pose proof (Z.mod_pos_bound (2 * N) D HD) as B1.
  set (q1 := 2 * N / D) in *. set (r1 := (2 * N) mod D) in *.
  intros H.
  assert (Hq : q1 = 2 * m + (if r then 1 else 0)
               /\ (if s then 1 else 0) = (if r1 =? 0 then 0 else 1)).
  { destruct r, s, (r1 =? 0); lia. }
  destruct Hq as [Hq Hs].
  assert (Ediv : 2 * N / (2 * D) = m).
  { symmetry. apply (Z.div_unique_pos _ _ _ (D * (if r then 1 else 0) + r1)).
    - destruct r; lia.
    - rewrite Hq in E1. destruct r; lia. }
  assert (Emod : (2 * N) mod (2 * D) = D * (if r then 1 else 0) + r1).
  { symmetry. apply (Z.mod_unique_pos _ _ m).
    - destruct r; lia.
    - rewrite Hq in E1. destruct r; lia. }
  rewrite Ediv, Emod.
  destruct r, s, (Z.eqb_spec r1 0); simpl in *;
    try lia;
    match goal with
    | |- context [?a =? 0] => destruct (Z.eqb_spec a 0); lia
    end.
Qed.

Lemma shr_1_code mrs N D :
  0 < D -> 0 <= shr_m mrs -> code mrs = Code N D ->
  code (shr_1 mrs) = Code N (2 * D) /\ 0 <= shr_m (shr_1 mrs).
Proof.
  intros HD Hm H. destruct mrs as [m r s].
  unfold code in *. cbn [shr_m shr_r shr_s] in *.
  pose proof (Code_double N D m r s HD H) as H2.
  rewrite <- H2. clear H H2.
  destruct m as [|[p|p|]|p]; try lia;
    destruct r, s; cbn [shr_1 shr_m shr_r shr_s orb]; lia.
Qed.

Lemma iter_shr_1_code p : forall mrs N D,
  0 < D -> 0 <= shr_m mrs -> code mrs = Code N D ->
  code (iter_pos shr_1 p mrs) = Code N (D * 2 ^ Zpos p)
  /\ 0 <= shr_m (iter_pos shr_1 p mrs).
Proof.
  induction p as [p IH|p IH|]; intros mrs N D HD Hm H; simpl iter_pos.
  - destruct (shr_1_code mrs N D HD Hm H) as [H1 M1].
    assert (HD2 : 0 < 2 * D) by lia.
    destruct (IH _ _ _ HD2 M1 H1) as [H2 M2].
    assert (HD3 : 0 < 2 * D * 2 ^ Zpos p) by (apply Z.mul_pos_pos; lia).
    destruct (IH _ _ _ HD3 M2 H2) as [H3 M3].
    split; [|exact M3]. rewrite H3. f_equal.
    replace (Zpos p~1) with (Zpos p + Zpos p + 1) by lia.
    rewrite !Z.pow_add_r by lia. change (2 ^ 1) with 2. ring.
  - destruct (IH _ _ _ HD Hm H) as [H2 M2].
    assert (HD3 : 0 < D * 2 ^ Zpos p) by (apply Z.mul_pos_pos; lia).
    destruct (IH _ _ _ HD3 M2 H2) as [H3 M3].
    split; [|exact M3]. rewrite H3. f_equal.
    replace (Zpos p~0) with (Zpos p + Zpos p) by lia.
    rewrite Z.pow_add_r by lia. ring.
  - destruct (shr_1_code mrs N D HD Hm H) as [H1 M1].
    split; [|exact M1]. rewrite H1. f_equal. change (2 ^ 1) with 2. ring.
Qed.

(** The mantissa is the integer part of the value. *)
Lemma code_mantissa mrs N D :
  0 < D -> code mrs = Code N D -> shr_m mrs = N / D.
Proof.
  intros HD H. destruct mrs as [m r s].
  unfold code in H. cbn [shr_m shr_r shr_s] in *.
  pose proof (Code_double N D m r s HD H) as H2. unfold Code in H2.
  rewrite Z.div_mul_cancel_l in H2 by lia.
  destruct (r || s), (_ =? 0) in H2; lia.
Qed.

Lemma code_of_loc m l :
  code (shr_record_of_loc m l)
  = Code (4 * m + match l with
                  | loc_Exact => 0
                  | loc_Inexact Lt => 1
                  | loc_Inexact Eq => 2
                  | loc_Inexact Gt => 3
                  end) 4.
Proof.
  unfold Code.
  assert (E : forall c q t, c = 2 * q + t -> 0 <= t < 2 ->
            2 * (4 * m + c) / 4 = 2 * m + q
            /\ (2 * (4 * m + c)) mod 4 = 2 * t).
  { intros c q t Hc Ht. split.
    - symmetry. apply (Z.div_unique_pos _ _ _ (2 * t)); lia.
    - symmetry. apply (Z.mod_unique_pos _ _ (2 * m + q)); lia. }
  destruct l as [|[]]; unfold code; cbn [shr_record_of_loc shr_m shr_r shr_s].
  - destruct (E 0 0 0 eq_refl ltac:(lia)) as [-> ->]. change (2 * 0 =? 0) with true. cbv beta iota. lia.
  - destruct (E 2 1 0 eq_refl ltac:(lia)) as [-> ->]. change (2 * 0 =? 0) with true. cbv beta iota. lia.
  - destruct (E 1 0 1 eq_refl ltac:(lia)) as [-> ->]. change (2 * 1 =? 0) with false. cbv beta iota. lia.
  - destruct (E 3 1 1 eq_refl ltac:(lia)) as [-> ->]. change (2 * 1 =? 0) with false. cbv beta iota. lia.
Qed.

Lemma shr_m_of_loc m l : shr_m (shr_record_of_loc m l) = m.
Proof. destruct l as [|[]]; reflexivity. Qed.

Lemma shr_code mrs e n N D :
  0 < D -> 0 <= shr_m mrs -> 0 <= n -> code mrs = Code N D ->
  snd (shr mrs e n) = e + n
  /\ code (fst (shr mrs e n)) = Code N (D * 2 ^ n)
  /\ 0 <= shr_m (fst (shr mrs e n)).
Proof.
  intros HD Hm Hn H. destruct n as [|p|p]; [| |lia].
  - cbn [shr fst snd]. rewrite Z.add_0_r, Z.mul_1_r. auto.
  - cbn [shr fst snd].
    destruct (iter_shr_1_code p mrs N D HD Hm H). auto.
Qed.

(** *** Digits *)

Lemma digits2_pos_bounds (m : positive) :
  2 ^ (Zpos (digits2_pos m) - 1) <= Zpos m < 2 ^ Zpos (digits2_pos m).
Proof.
  induction m as [m IH|m IH|]; cbn [digits2_pos].
  - rewrite Pos2Z.inj_succ.
    replace (Z.succ (Zpos (digits2_pos m)) - 1)
      with (Z.succ (Zpos (digits2_pos m) - 1)) by lia.
    rewrite !Z.pow_succ_r by lia. lia.
  - rewrite Pos2Z.inj_succ.
    replace (Z.succ (Zpos (digits2_pos m)) - 1)
      with (Z.succ (Zpos (digits2_pos m) - 1)) by lia.
    rewrite !Z.pow_succ_r by lia. lia.
  - cbn. lia.
Qed.

Lemma Zdigits2_bounds (m : Z) :
  0 < m -> 0 < Zdigits2 m /\ 2 ^ (Zdigits2 m - 1) <= m < 2 ^ Zdigits2 m.
Proof.
  destruct m as [|p|p]; try lia. intros _. cbn [Zdigits2].
  split; [lia | apply digits2_pos_bounds].
Qed.

Lemma pow2_lt_exp (a b : Z) : 0 <= a -> 0 <= b -> 2 ^ a < 2 ^ b -> a < b.
Proof.
  intros Ha Hb H. destruct (Z_lt_le_dec a b) as [L|L]; [exact L|].
  pose proof (Z.pow_le_mono_r 2 b a ltac:(lia) L). lia.
Qed.

Lemma Zdigits2_unique (m d : Z) :
  0 < d -> 2 ^ (d - 1) <= m < 2 ^ d -> Zdigits2 m = d.
Proof.
  intros Hd [L U].
  assert (0 < m) by (pose proof (Z.pow_pos_nonneg 2 (d - 1)); lia).
  destruct (Zdigits2_bounds m H) as [P [L' U']].
  assert (d - 1 < Zdigits2 m) by (apply pow2_lt_exp; lia).
  assert (Zdigits2 m - 1 < d) by (apply pow2_lt_exp; lia).
  lia.
Qed.

(** *** The two stages of [binary_round_aux] *)

Lemma fexp_eq (x : Z) : fexp prec emax x = Z.max (x - 53) (-1074).
Proof. reflexivity. Qed.

Lemma div_pow2_bounds (m a b n : Z) :
  0 <= n -> 0 <= a -> 0 <= b ->
  2 ^ (a + n) <= m < 2 ^ (b + n) -> 2 ^ a <= m / 2 ^ n < 2 ^ b.
Proof.
  intros Hn Ha Hb [L U]. rewrite !Z.pow_add_r in * by lia.
  assert (0 < 2 ^ n) by (apply Z.pow_pos_nonneg; lia).
  split.
  - apply Z.div_le_lower_bound; lia.
  - apply Z.div_lt_upper_bound; lia.
Qed.

Lemma first_stage (m e : Z) (l : location) (N D : Z) :
  long_enough m e -> 0 < D ->
  code (shr_record_of_loc m l) = Code N D ->
  let e' := fexp prec emax (Zdigits2 m + e) in
  let mrs' := fst (shr_fexp prec emax m e l) in
  snd (shr_fexp prec emax m e l) = e'
  /\ code mrs' = Code N (D * 2 ^ (e' - e))
  /\ 0 <= shr_m mrs' < 2 ^ 53
  /\ (-1074 < e' -> 2 ^ 52 <= shr_m mrs')
  /\ -1074 <= e'.
Proof.
  intros [Hm He] HD HC. cbv zeta. unfold shr_fexp.
  set (e' := fexp prec emax (Zdigits2 m + e)) in *.
  assert (Hn : 0 <= e' - e) by lia.
  assert (Hm0 : 0 <= shr_m (shr_record_of_loc m l))
    by (rewrite shr_m_of_loc; exact Hm).
  destruct (shr_code _ e (e' - e) N D HD Hm0 Hn HC) as (E1 & E2 & E3).
  set (mrs' := fst (shr (shr_record_of_loc m l) e (e' - e))) in *.
  split; [rewrite E1; lia|]. split; [exact E2|].
  (* the mantissa is [m / 2^(e' - e)] *)
  assert (Em : shr_m mrs' = m / 2 ^ (e' - e)).
  { pose proof (code_of_loc m l) as Hc.
    destruct (shr_code _ e (e' - e) _ 4 ltac:(lia) Hm0 Hn Hc) as (_ & F2 & _).
    fold mrs' in F2.
    assert (P2 : 0 < 2 ^ (e' - e)) by (apply Z.pow_pos_nonneg; lia).
    assert (P4 : 0 < 4 * 2 ^ (e' - e)) by lia.
    rewrite (code_mantissa _ _ _ P4 F2).
    rewrite <- Z.div_div by lia.
    f_equal. symmetry.
    apply (Z.div_unique_pos _ _ _ (match l with
                  | loc_Exact => 0
                  | loc_Inexact Lt => 1
                  | loc_Inexact Eq => 2
                  | loc_Inexact Gt => 3
                  end)); destruct l as [|[]]; lia. }
  assert (He' : e' = Z.max (Zdigits2 m + e - 53) (-1074)) by reflexivity.
  destruct (Z.eq_dec m 0) as [->|Hm1].
  { rewrite Em, Z.div_0_l by (apply Z.pow_nonzero; lia).
    cbn [Zdigits2] in He'. repeat split; lia. }
  destruct (Zdigits2_bounds m ltac:(lia)) as (Hd & L & U).
  set (d := Zdigits2 m) in *.
  rewrite Em.
  destruct (Z_le_gt_dec (-1074) (d + e - 53)) as [C|C].
  - (* normal *)
    assert (En : e' - e = d - 53) by lia.
    rewrite En.
    destruct (div_pow2_bounds m 52 53 (d - 53) ltac:(lia) ltac:(lia) ltac:(lia))
      as [L' U'].
    { replace (52 + (d - 53)) with (d - 1) by lia.
      replace (53 + (d - 53)) with d by lia. lia. }
    repeat split; lia.
  - (* subnormal *)
    assert (En : e' = -1074) by lia.
    assert (0 < 2 ^ (e' - e)) by (apply Z.pow_pos_nonneg; lia).
    assert (m / 2 ^ (e' - e) < 2 ^ 53).
    { apply Z.div_lt_upper_bound; [lia|].
      rewrite <- Z.pow_add_r by lia.
      assert (2 ^ d <= 2 ^ (e' - e + 53)) by (apply Z.pow_le_mono_r; lia).
      lia. }
    assert (0 <= m / 2 ^ (e' - e)) by (apply Z.div_pos; lia).
    repeat split; lia.
Qed.

Lemma RNE_bounds (mrs : shr_record) : shr_m mrs <= RNE mrs <= shr_m mrs + 1.
Proof.
  destruct mrs as [m [] []]; unfold RNE; cbn; try destruct (Z.even m); lia.
Qed.

Lemma RNE_mono (a b : shr_record) : code a <= code b -> RNE a <= RNE b.
Proof.
  destruct a as [m1 r1 s1], b as [m2 r2 s2]. unfold code, RNE.
  cbn [shr_m shr_r shr_s loc_of_shr_record]. intros H.
  destruct (Z.eq_dec m1 m2) as [->|Hne].
  - destruct r1, s1, r2, s2; cbn [round_nearest_even];
      try destruct (Z.even m2); lia.
  - assert (m1 < m2) by (destruct r1, s1, r2, s2; lia).
    destruct r1, s1, r2, s2; cbn [round_nearest_even];
      try destruct (Z.even m1); try destruct (Z.even m2); lia.
Qed.

Lemma second_stage (s : bool) (M e : Z) :
  0 <= M <= 2 ^ 53 -> (-1074 < e -> 2 ^ 52 <= M) -> -1074 <= e ->
  (let '(mrs, e') := shr_fexp prec emax M e loc_Exact in
   match shr_m mrs with
   | Z0 => S754_zero s
   | Zpos m => if e' <=? emax - prec then S754_finite s m e' else S754_infinity s
   | Zneg _ => S754_nan
   end) = finish s M e.
Proof.
  intros HM Hn He. unfold finish.
  destruct (Z.eqb_spec M (2 ^ 53)) as [->|Hne].
  - unfold shr_fexp. rewrite fexp_eq.
    change (Zdigits2 (2 ^ 53)) with 54.
    replace (Z.max (54 + e - 53) (-1074) - e) with 1 by lia.
    reflexivity.
  - unfold shr_fexp. rewrite fexp_eq.
    assert (E : Z.max (Zdigits2 M + e - 53) (-1074) - e = 0).
    { destruct (Z.eq_dec M 0) as [->|HM0]; [cbn [Zdigits2]; lia|].
      destruct (Zdigits2_bounds M ltac:(lia)) as (Hd & L & U).
      destruct (Z_lt_le_dec (-1074) e) as [C|C].
      - rewrite (Zdigits2_unique M 53); lia.
      - assert (Zdigits2 M - 1 < 53) by (apply pow2_lt_exp; lia). lia. }
    rewrite E. cbn [shr shr_record_of_loc shr_m].
    destruct M; reflexivity.
Qed.

(** The closed form of [binary_round_aux]. *)
Lemma binary_round_aux_finish (s : bool) (m e : Z) (l : location) :
  long_enough m e ->
  binary_round_aux prec emax s m e l
  = finish s (RNE (fst (shr_fexp prec emax m e l)))
             (fexp prec emax (Zdigits2 m + e)).
Proof.
  intros H.
  destruct (first_stage m e l _ 4 H ltac:(lia) (code_of_loc m l))
    as (E1 & _ & B & Hn & He).
  unfold binary_round_aux.
  destruct (shr_fexp prec emax m e l) as [mrs' e'] eqn:S1.
  cbn [fst snd] in *. subst e'.
  pose proof (RNE_bounds mrs') as R.
  apply second_stage; unfold RNE in *; lia.
Qed.

(** *** The result is a number, and it grows with the exact value *)

Lemma canonical_53 (p : positive) (e : Z) :
  Zpos p < 2 ^ 53 -> (-1074 < e -> 2 ^ 52 <= Zpos p) -> -1074 <= e ->
  canonical_mantissa prec emax p e = true.
Proof.
  intros U L He. unfold canonical_mantissa. rewrite fexp_eq.
  apply Z.eqb_eq.
  change (Zpos (digits2_pos p)) with (Zdigits2 (Zpos p)).
  destruct (Zdigits2_bounds (Zpos p) ltac:(lia)) as (Hd & L' & U').
  destruct (Z_lt_le_dec (-1074) e) as [C|C].
  - rewrite (Zdigits2_unique (Zpos p) 53); lia.
  - assert (Zdigits2 (Zpos p) - 1 < 53) by (apply pow2_lt_exp; lia). lia.
Qed.

Lemma finish_valid (s : bool) (M e : Z) :
  staged M e -> is_number (finish s M e) = true.
Proof.
  intros (HM & Hn & He). unfold finish, is_number.
  destruct (Z.eqb_spec M (2 ^ 53)) as [->|Hne].
  - destruct (Z.leb_spec (e + 1) 971) as [C|C]; [|reflexivity].
    cbn [valid_binary]. unfold bounded.
    rewrite canonical_53 by lia.
    apply Z.leb_le in C. exact C.
  - destruct M as [|p|p]; [reflexivity| |lia].
    destruct (Z.leb_spec e 971) as [C|C]; [|reflexivity].
    cbn [valid_binary]. unfold bounded.
    rewrite canonical_53 by lia.
    apply Z.leb_le in C. exact C.
Qed.

Lemma finish_normal (s : bool) (M e : Z) :
  finish s M e = finish_pair s (normal_pair M e).
Proof.
  unfold finish, normal_pair. destruct (M =? 2 ^ 53); reflexivity.
Qed.

Lemma finish_pair_mono (M1 e1 M2 e2 : Z) :
  0 <= M1 -> 0 <= M2 -> (M2 = 0 -> M1 = 0) ->
  e1 < e2 \/ (e1 = e2 /\ M1 <= M2) ->
  leb (finish_pair false (M1, e1)) (finish_pair false (M2, e2)) = true.
Proof.
  intros H1 H2 H0 H. unfold finish_pair, leb, SFleb. cbn [fst snd].
  destruct M1 as [|p1|p1]; [| |lia]; (destruct M2 as [|p2|p2]; [| |lia]).
  - reflexivity.
  - destruct (e2 <=? 971); reflexivity.
  - lia.
  - destruct (Z.leb_spec e1 971), (Z.leb_spec e2 971); cbn [SFcompare];
      try reflexivity; try lia.
    destruct (Z.compare_spec e1 e2); try reflexivity; try lia.
    change (Pos.compare_cont Eq p1 p2) with (Pos.compare p1 p2).
    destruct (Pos.compare_spec p1 p2); try reflexivity; lia.
Qed.

Lemma finish_mono (M1 e1 M2 e2 : Z) :
  staged M1 e1 -> staged M2 e2 ->
  e1 < e2 \/ (e1 = e2 /\ M1 <= M2) ->
  leb (finish false M1 e1) (finish false M2 e2) = true.
Proof.
  intros (HM1 & Hn1 & He1) (HM2 & Hn2 & He2) H.
  rewrite !finish_normal. unfold normal_pair.
  destruct (Z.eqb_spec M1 (2 ^ 53)) as [E1|E1],
           (Z.eqb_spec M2 (2 ^ 53)) as [E2|E2];
    apply finish_pair_mono; lia.
Qed.

Theorem binary_round_aux_valid (s : bool) (m e : Z) (l : location) :
  long_enough m e -> is_number (binary_round_aux prec emax s m e l) = true.
Proof.
  intros H. rewrite binary_round_aux_finish by exact H.
  destruct (first_stage m e l _ 4 H ltac:(lia) (code_of_loc m l))
    as (_ & _ & B & Hn & He).
  apply finish_valid.
  pose proof (RNE_bounds (fst (shr_fexp prec emax m e l))) as R.
  repeat split; lia.
Qed.

(** Monotonicity: the triples locate the values [N1 / D1] and
    [N2 / D2], counted in units of [2^(-K)]. *)
Theorem binary_round_aux_mono (K : Z)
    (m1 e1 : Z) (l1 : location) (N1 D1 : Z)
    (m2 e2 : Z) (l2 : location) (N2 D2 : Z) :
  long_enough m1 e1 -> long_enough m2 e2 ->
  - K <= e1 -> - K <= e2 ->
  0 <= N1 -> 0 < D1 -> 0 < D2 ->
  code (shr_record_of_loc m1 l1) = Code N1 (D1 * 2 ^ (e1 + K)) ->
  code (shr_record_of_loc m2 l2) = Code N2 (D2 * 2 ^ (e2 + K)) ->
  N1 * D2 <= N2 * D1 ->
  leb (binary_round_aux prec emax false m1 e1 l1)
      (binary_round_aux prec emax false m2 e2 l2) = true.
Proof.
  intros L1 L2 K1 K2 HN1 HD1 HD2 C1 C2 Hle.
  rewrite !binary_round_aux_finish by assumption.
  assert (P1 : 0 < D1 * 2 ^ (e1 + K))
    by (apply Z.mul_pos_pos; [|apply Z.pow_pos_nonneg]; lia).
  assert (P2 : 0 < D2 * 2 ^ (e2 + K))
    by (apply Z.mul_pos_pos; [|apply Z.pow_pos_nonneg]; lia).
  destruct (first_stage m1 e1 l1 _ _ L1 P1 C1) as (_ & F1 & B1 & Hn1 & He1).
  destruct (first_stage m2 e2 l2 _ _ L2 P2 C2) as (_ & F2 & B2 & Hn2 & He2).
  set (e1' := fexp prec emax (Zdigits2 m1 + e1)) in *.
  set (e2' := fexp prec emax (Zdigits2 m2 + e2)) in *.
  set (a := fst (shr_fexp prec emax m1 e1 l1)) in *.
  set (b := fst (shr_fexp prec emax m2 e2 l2)) in *.
  assert (G1 : e1 <= e1') by (destruct L1; assumption).
  assert (G2 : e2 <= e2') by (destruct L2; assumption).
  rewrite <- Z.mul_assoc, <- Z.pow_add_r in F1, F2 by lia.
  replace (e1 + K + (e1' - e1)) with (e1' + K) in F1 by lia.
  replace (e2 + K + (e2' - e2)) with (e2' + K) in F2 by lia.
  assert (Q1 : 0 < 2 ^ (e1' + K)) by (apply Z.pow_pos_nonneg; lia).
  assert (Q2 : 0 < 2 ^ (e2' + K)) by (apply Z.pow_pos_nonneg; lia).
  assert (R1 : 0 < D1 * 2 ^ (e1' + K)) by (apply Z.mul_pos_pos; lia).
  assert (R2 : 0 < D2 * 2 ^ (e2' + K)) by (apply Z.mul_pos_pos; lia).
  pose proof (code_mantissa _ _ _ R1 F1) as A1.
  pose proof (code_mantissa _ _ _ R2 F2) as A2.
  pose proof (RNE_bounds a) as Ra. pose proof (RNE_bounds b) as Rb.
  assert (Ord : e1' <= e2').
  { destruct (Z_le_gt_dec e1' e2') as [O|O]; [exact O|exfalso].
    assert (T1 : 2 ^ 52 <= shr_m a) by (apply Hn1; lia).
    rewrite A1 in T1. rewrite A2 in B2.
    assert (U1 : 2 ^ 52 * (D1 * 2 ^ (e1' + K)) <= N1).
    { pose proof (Z.mul_div_le N1 _ R1).
      assert (2 ^ 52 * (D1 * 2 ^ (e1' + K))
              <= N1 / (D1 * 2 ^ (e1' + K)) * (D1 * 2 ^ (e1' + K)))
        by (apply Z.mul_le_mono_nonneg_r; lia).
      lia. }
    assert (U2 : N2 < 2 ^ 53 * (D2 * 2 ^ (e2' + K))).
    { pose proof (Z.mul_succ_div_gt N2 _ R2).
      assert ((Z.succ (N2 / (D2 * 2 ^ (e2' + K)))) * (D2 * 2 ^ (e2' + K))
              <= 2 ^ 53 * (D2 * 2 ^ (e2' + K)))
        by (apply Z.mul_le_mono_nonneg_r; lia).
      lia. }
    assert (U3 : 2 * 2 ^ (e2' + K) <= 2 ^ (e1' + K)).
    { rewrite <- Z.pow_succ_r by lia. apply Z.pow_le_mono_r; lia. }
    change (2 ^ 53) with (2 ^ 52 * 2) in U2.
    set (x := 2 ^ (e1' + K)) in *. set (y := 2 ^ (e2' + K)) in *.
    assert (V1 : 2 ^ 52 * (D1 * x) * D2 <= N1 * D2)
      by (apply Z.mul_le_mono_nonneg_r; lia).
    assert (V2 : N2 * D1 < 2 ^ 52 * 2 * (D2 * y) * D1)
      by (apply Z.mul_lt_mono_pos_r; lia).
    assert (V3 : 2 ^ 52 * 2 * (D2 * y) * D1 <= 2 ^ 52 * (D1 * x) * D2).
    { replace (2 ^ 52 * 2 * (D2 * y) * D1) with (2 ^ 52 * D1 * D2 * (2 * y)) by ring.
      replace (2 ^ 52 * (D1 * x) * D2) with (2 ^ 52 * D1 * D2 * x) by ring.
      apply Z.mul_le_mono_nonneg_l; [|lia].
      apply Z.mul_nonneg_nonneg; [apply Z.mul_nonneg_nonneg|]; lia. }
    lia. }
  apply finish_mono.
  - repeat split; lia.
  - repeat split; lia.
  - destruct (Z.eq_dec e1' e2') as [E|E]; [right|left; lia].
    split; [exact E|]. apply RNE_mono. rewrite F1, F2.
    apply Code_mono; try lia.
    rewrite E.
    replace (N1 * (D2 * 2 ^ (e2' + K))) with (N1 * D2 * 2 ^ (e2' + K)) by ring.
    replace (N2 * (D1 * 2 ^ (e2' + K))) with (N2 * D1 * 2 ^ (e2' + K)) by ring.
    apply Z.mul_le_mono_nonneg_r; lia.
Qed.

End Rounding.

(** ** Values of numbers

    The value of a finite number of mantissa [m] and exponent [e],
    counted in units of [2^(-K)], is the integer [m * 2^(e + K)]; any
    [K] with [- K <= e] will do. *)

Module Values.
Import Rounding.

Lemma bounded_facts (m : positive) (e : Z) :
  bounded prec emax m e = true ->
  Zpos m < 2 ^ 53 /\ (-1074 < e -> 2 ^ 52 <= Zpos m) /\ -1074 <= e <= 971
  /\ fexp prec emax (Zdigits2 (Zpos m) + e) = e.
Proof.
  unfold bounded, canonical_mantissa. intros H.
  apply andb_true_iff in H. destruct H as [C B].
  apply Z.eqb_eq in C. apply Z.leb_le in B.
  change (emax - prec) with 971 in B.
  change (Zpos (digits2_pos m)) with (Zdigits2 (Zpos m)) in C.
  destruct (Zdigits2_bounds (Zpos m) ltac:(lia)) as (Hd & L & U).
  pose proof C as C'. rewrite fexp_eq in C'.
  set (d := Zdigits2 (Zpos m)) in *.
  assert (Hd53 : d <= 53) by lia.
  assert (2 ^ d <= 2 ^ 53) by (apply Z.pow_le_mono_r; lia).
  repeat split; try lia.
  intros He. assert (d = 53) by lia. subst d.
  replace (2 ^ 52) with (2 ^ (Zdigits2 (Zpos m) - 1)) by (rewrite H0; reflexivity).
  exact L.
Qed.

Lemma pow2_step (a b : Z) : 0 <= a -> a < b -> 2 * 2 ^ a <= 2 ^ b.
Proof.
  intros Ha Hab. rewrite <- Z.pow_succ_r by lia.
  apply Z.pow_le_mono_r; lia.
Qed.

Lemma lex_lt_value (K m1 e1 m2 e2 : Z) :
  0 <= m1 < 2 ^ 53 -> 2 ^ 52 <= m2 -> - K <= e1 -> e1 < e2 ->
  m1 * 2 ^ (e1 + K) < m2 * 2 ^ (e2 + K).
Proof.
  intros H1 H2 HK He.
  pose proof (pow2_step (e1 + K) (e2 + K) ltac:(lia) ltac:(lia)) as P.
  assert (Q : 0 < 2 ^ (e1 + K)) by (apply Z.pow_pos_nonneg; lia).
  set (x := 2 ^ (e1 + K)) in *. set (y := 2 ^ (e2 + K)) in *.
  assert (m1 * x < 2 ^ 53 * x) by (apply Z.mul_lt_mono_pos_r; lia).
  assert (2 ^ 52 * y <= m2 * y) by (apply Z.mul_le_mono_nonneg_r; lia).
  change (2 ^ 53) with (2 ^ 52 * 2) in *. nia.
Qed.

(** The comparison of two positive numbers is that of their values. *)
Lemma leb_finite_value (K : Z) (m1 : positive) (e1 : Z) (m2 : positive) (e2 : Z) :
  bounded prec emax m1 e1 = true -> bounded prec emax m2 e2 = true ->
  - K <= e1 -> - K <= e2 ->
  leb (S754_finite false m1 e1) (S754_finite false m2 e2) = true
  <-> val K m1 e1 <= val K m2 e2.
Proof.
  intros B1 B2 K1 K2.
  destruct (bounded_facts _ _ B1) as (U1 & L1 & R1 & _).
  destruct (bounded_facts _ _ B2) as (U2 & L2 & R2 & _).
  unfold leb, SFleb, val. cbn [SFcompare].
  change (Pos.compare_cont Eq m1 m2) with (Pos.compare m1 m2).
  destruct (Z.compare_spec e1 e2) as [E|E|E].
  - subst e2.
    assert (Q : 0 < 2 ^ (e1 + K)) by (apply Z.pow_pos_nonneg; lia).
    destruct (Pos.compare_spec m1 m2) as [F|F|F]; split; intros H;
      try reflexivity; try discriminate; try nia.
  - split; [intros _|reflexivity].
    apply Z.lt_le_incl. apply lex_lt_value; lia.
  - split; [discriminate|]. intros H.
    pose proof (lex_lt_value K (Zpos m2) e2 (Zpos m1) e1
                  ltac:(lia) ltac:(lia) ltac:(lia) ltac:(lia)).
    lia.
Qed.

End Values.

(** ** Exact results and [binary_round] *)

Module Exact.
Import Rounding Values.

Lemma code_exact (m : Z) : code (shr_record_of_loc m loc_Exact) = Code m 1.
Proof.
  unfold code, Code. cbn [shr_record_of_loc shr_m shr_r shr_s].
  rewrite Z.div_1_r, Z.mod_1_r. cbn [Z.eqb]. lia.
Qed.

Lemma code_exact_scaled (m c : Z) :
  0 < c -> code (shr_record_of_loc m loc_Exact) = Code (m * c) (1 * c).
Proof.
  intros Hc. rewrite code_exact, !(Z.mul_comm _ c).
  symmetry. apply Code_scale; lia.
Qed.

(** A mantissa that ends with the zeros to be shifted out is rounded
    to itself. *)
Lemma binary_round_aux_exact (s : bool) (m e M : Z) :
  long_enough m e ->
  m = M * 2 ^ (fexp prec emax (Zdigits2 m + e) - e) ->
  binary_round_aux prec emax s m e loc_Exact
  = finish s M (fexp prec emax (Zdigits2 m + e)).
Proof.
  intros L Hm. rewrite binary_round_aux_finish by exact L. f_equal.
  destruct (first_stage m e loc_Exact m 1 L ltac:(lia) (code_exact m))
    as (_ & F & _).
  set (e' := fexp prec emax (Zdigits2 m + e)) in *.
  set (mrs := fst (shr_fexp prec emax m e loc_Exact)) in *.
  assert (P : 0 < 2 ^ (e' - e)) by (apply Z.pow_pos_nonneg; destruct L; lia).
  rewrite Hm in F at 1.
  rewrite !(Z.mul_comm _ (2 ^ (e' - e))), Code_scale in F by lia.
  pose proof (code_mantissa mrs M 1 ltac:(lia) F) as A.
  rewrite Z.div_1_r in A.
  unfold Code in F. rewrite Z.div_1_r, Z.mod_1_r in F. cbn [Z.eqb] in F.
  unfold code in F. unfold RNE.
  destruct mrs as [m' r s']. cbn [shr_m shr_r shr_s] in *. subst m'.
  destruct r, s'; cbn [loc_of_shr_record round_nearest_even]; lia.
Qed.

Lemma iter_xO (m d : positive) : Zpos (Pos.iter xO m d) = Zpos m * 2 ^ Zpos d.
Proof.
  induction d as [|d IH] using Pos.peano_ind.
  - cbn [Pos.iter]. change (2 ^ 1) with 2. lia.
  - rewrite Pos.iter_succ, Pos2Z.inj_xO, IH, Pos2Z.inj_succ.
    rewrite Z.pow_succ_r by lia. ring.
Qed.

Lemma shl_align_spec (m : positive) (e e' : Z) :
  let r := shl_align m e e' in
  snd r = Z.min e e' /\ Zpos (fst r) = Zpos m * 2 ^ (e - snd r).
Proof.
  unfold shl_align. destruct (e' - e) as [|d|d] eqn:E; cbn [fst snd].
  - split; [lia|]. rewrite Z.sub_diag. lia.
  - split; [lia|]. rewrite Z.sub_diag. lia.
  - split; [lia|]. rewrite iter_xO. f_equal. f_equal. lia.
Qed.

Lemma Zdigits2_shift (m k : Z) :
  0 < m -> 0 <= k -> Zdigits2 (m * 2 ^ k) = Zdigits2 m + k.
Proof.
  intros Hm Hk. destruct (Zdigits2_bounds m Hm) as (Hd & L & U).
  assert (P : 0 < 2 ^ k) by (apply Z.pow_pos_nonneg; lia).
  apply Zdigits2_unique; [lia|].
  replace (Zdigits2 m + k - 1) with (Zdigits2 m - 1 + k) by lia.
  rewrite !Z.pow_add_r by lia. split; nia.
Qed.

(** [binary_round] prepares its mantissa as [binary_round_aux] asks. *)
Lemma binary_round_unfold (s : bool) (m : positive) (e : Z) :
  let r := shl_align m e (fexp prec emax (Zpos (digits2_pos m) + e)) in
  binary_round prec emax s m e
  = binary_round_aux prec emax s (Zpos (fst r)) (snd r) loc_Exact
  /\ long_enough (Zpos (fst r)) (snd r)
  /\ fexp prec emax (Zdigits2 (Zpos (fst r)) + snd r)
     = fexp prec emax (Zdigits2 (Zpos m) + e).
Proof.
  cbv zeta. unfold binary_round.
  destruct (shl_align_spec m e (fexp prec emax (Zpos (digits2_pos m) + e)))
    as [E1 E2].
  destruct (shl_align m e _) as [mz ez]. cbn [fst snd] in *.
  split; [reflexivity|].
  assert (D : Zdigits2 (Zpos mz) + ez = Zdigits2 (Zpos m) + e).
  { rewrite E2, Zdigits2_shift by lia. lia. }
  unfold long_enough.
  rewrite D. change (Zpos (digits2_pos m)) with (Zdigits2 (Zpos m)) in E1.
  split; [|reflexivity].
  split; lia.
Qed.

Lemma binary_round_valid (s : bool) (m : positive) (e : Z) :
  is_number (binary_round prec emax s m e) = true.
Proof.
  destruct (binary_round_unfold s m e) as (-> & L & _).
  apply binary_round_aux_valid. exact L.
Qed.

Lemma binary_round_mono (K : Z) (m1 : positive) (e1 : Z)
    (m2 : positive) (e2 : Z) :
  1074 <= K -> - K <= e1 -> - K <= e2 ->
  val K m1 e1 <= val K m2 e2 ->
  leb (binary_round prec emax false m1 e1)
      (binary_round prec emax false m2 e2) = true.
Proof.
  intros HK K1 K2 H.
  destruct (binary_round_unfold false m1 e1) as (-> & L1 & _).
  destruct (binary_round_unfold false m2 e2) as (-> & L2 & _).
  destruct (shl_align_spec m1 e1 (fexp prec emax (Zpos (digits2_pos m1) + e1)))
    as [A1 B1].
  destruct (shl_align_spec m2 e2 (fexp prec emax (Zpos (digits2_pos m2) + e2)))
    as [A2 B2].
  rewrite fexp_eq in A1, A2.
  set (r1 := shl_align m1 e1 _) in *. set (r2 := shl_align m2 e2 _) in *.
  assert (V1 : Zpos (fst r1) * 2 ^ (snd r1 + K) = val K m1 e1).
  { unfold val. rewrite B1, <- Z.mul_assoc, <- Z.pow_add_r by lia.
    f_equal. f_equal. lia. }
  assert (V2 : Zpos (fst r2) * 2 ^ (snd r2 + K) = val K m2 e2).
  { unfold val. rewrite B2, <- Z.mul_assoc, <- Z.pow_add_r by lia.
    f_equal. f_equal. lia. }
  assert (P1 : 0 < 2 ^ (snd r1 + K)) by (apply Z.pow_pos_nonneg; lia).
  assert (P2 : 0 < 2 ^ (snd r2 + K)) by (apply Z.pow_pos_nonneg; lia).
  assert (N1 : 0 <= val K m1 e1) by (rewrite <- V1; lia).
  assert (C1 : code (shr_record_of_loc (Zpos (fst r1)) loc_Exact)
               = Code (val K m1 e1) (1 * 2 ^ (snd r1 + K)))
    by (rewrite <- V1; apply code_exact_scaled; exact P1).
  assert (C2 : code (shr_record_of_loc (Zpos (fst r2)) loc_Exact)
               = Code (val K m2 e2) (1 * 2 ^ (snd r2 + K)))
    by (rewrite <- V2; apply code_exact_scaled; exact P2).
  apply (binary_round_aux_mono K _ _ _ _ 1 _ _ _ _ 1 L1 L2
           ltac:(lia) ltac:(lia) N1 ltac:(lia) ltac:(lia) C1 C2).
  lia.
Qed.

(** A number is the rounding of its own mantissa and exponent. *)
Lemma binary_round_canonical (s : bool) (m : positive) (e : Z) :
  bounded prec emax m e = true ->
  binary_round prec emax s m e = S754_finite s m e.
Proof.
  intros B. destruct (bounded_facts m e B) as (U & L & R & C).
  unfold binary_round.
  change (Zpos (digits2_pos m)) with (Zdigits2 (Zpos m)).
  rewrite C. unfold shl_align. rewrite Z.sub_diag.
  rewrite (binary_round_aux_exact s (Zpos m) e (Zpos m)).
  - rewrite C. unfold finish.
    destruct (Z.eqb_spec (Zpos m) (2 ^ 53)) as [E|E]; [lia|].
    destruct (Z.leb_spec e 971); [reflexivity|lia].
  - split; lia.
  - rewrite C, Z.sub_diag. change (2 ^ 0) with 1. lia.
Qed.

End Exact.

(** ** The operations on nonnegative numbers *)

Module Ops.
Import Rounding Values Exact.

Lemma positive_nonneg (x : number) : positive_number x -> nonneg x.
Proof. intros [V H]. split; [exact V|]. destruct x as [| | |[]]; auto. Qed.

Lemma val_pos (K : Z) (m : positive) (e : Z) : - K <= e -> 0 < val K m e.
Proof.
  intros H. unfold val. apply Z.mul_pos_pos; [lia|].
  apply Z.pow_pos_nonneg; lia.
Qed.

Lemma number_exponent (s : bool) (m : positive) (e : Z) :
  is_number (S754_finite s m e) = true -> -1074 <= e <= 971.
Proof. intros H. apply bounded_facts in H. lia. Qed.

(** The order of nonnegative numbers is the order of their values. *)
Lemma leb_value (K : Z) (x y : number) :
  1074 <= K -> nonneg x -> nonneg y ->
  leb x y = true <-> value K x <= value K y.
Proof.
  intros HK [Vx Sx] [Vy Sy].
  destruct x as [sx| | |[] mx ex], y as [sy| | |[] my ey]; try contradiction.
  - cbn. split; [lia|reflexivity].
  - pose proof (number_exponent _ _ _ Vy).
    pose proof (val_pos K my ey ltac:(lia)).
    cbn [value]. split; [lia|reflexivity].
  - pose proof (number_exponent _ _ _ Vx).
    pose proof (val_pos K mx ex ltac:(lia)).
    cbn [value]. split; [discriminate|lia].
  - pose proof (number_exponent _ _ _ Vx). pose proof (number_exponent _ _ _ Vy).
    cbn [value]. apply leb_finite_value; try assumption; lia.
Qed.

Lemma zero_leb_finish (s : bool) (M e : Z) :
  0 <= M -> leb (S754_zero s) (finish false M e) = true.
Proof.
  intros H. unfold finish.
  destruct (M =? 2 ^ 53).
  - destruct (e + 1 <=? 971); reflexivity.
  - destruct M as [|p|p]; [reflexivity| |lia].
    destruct (e <=? 971); reflexivity.
Qed.

Lemma zero_leb_round_aux (s : bool) (m e : Z) (l : location) :
  long_enough m e ->
  leb (S754_zero s) (binary_round_aux prec emax false m e l) = true.
Proof.
  intros L. rewrite binary_round_aux_finish by exact L.
  apply zero_leb_finish.
  destruct (first_stage m e l _ 4 L ltac:(lia) (code_of_loc m l))
    as (_ & _ & B & _).
  pose proof (RNE_bounds (fst (shr_fexp prec emax m e l))). lia.
Qed.

Lemma zero_leb_round (s : bool) (m : positive) (e : Z) :
  leb (S754_zero s) (binary_round prec emax false m e) = true.
Proof.
  destruct (binary_round_unfold false m e) as (-> & L & _).
  apply zero_leb_round_aux. exact L.
Qed.

(** *** Multiplication *)

Lemma Zdigits2_mul (a b : Z) :
  0 < a -> 0 < b -> Zdigits2 a + Zdigits2 b - 1 <= Zdigits2 (a * b).
Proof.
  intros Ha Hb.
  destruct (Zdigits2_bounds a Ha) as (Da & La & Ua).
  destruct (Zdigits2_bounds b Hb) as (Db & Lb & Ub).
  destruct (Zdigits2_bounds (a * b) ltac:(nia)) as (Dc & Lc & Uc).
  assert (2 ^ (Zdigits2 a - 1 + (Zdigits2 b - 1)) < 2 ^ Zdigits2 (a * b)).
  { rewrite Z.pow_add_r by lia.
    assert (0 < 2 ^ (Zdigits2 a - 1)) by (apply Z.pow_pos_nonneg; lia).
    assert (0 < 2 ^ (Zdigits2 b - 1)) by (apply Z.pow_pos_nonneg; lia).
    nia. }
  apply pow2_lt_exp in H; lia.
Qed.

Lemma mul_long_enough (mx : positive) (ex : Z) (my : positive) (ey : Z) :
  bounded prec emax mx ex = true -> bounded prec emax my ey = true ->
  long_enough (Zpos (mx * my)) (ex + ey).
Proof.
  intros Bx By.
  destruct (bounded_facts _ _ Bx) as (_ & _ & _ & Cx).
  destruct (bounded_facts _ _ By) as (_ & _ & _ & Cy).
  rewrite fexp_eq in Cx, Cy.
  pose proof (Zdigits2_mul (Zpos mx) (Zpos my) ltac:(lia) ltac:(lia)) as D.
  destruct (Zdigits2_bounds (Zpos mx) ltac:(lia)) as (Dx & _).
  destruct (Zdigits2_bounds (Zpos my) ltac:(lia)) as (Dy & _).
  split; [lia|]. rewrite fexp_eq. rewrite Pos2Z.inj_mul. lia.
Qed.

Lemma mul_valid (x y : number) :
  is_number x = true -> is_number y = true -> is_number (mul x y) = true.
Proof.
  intros Vx Vy. destruct x as [sx|sx| |sx mx ex], y as [sy|sy| |sy my ey];
    try reflexivity.
  apply binary_round_aux_valid. apply mul_long_enough; assumption.
Qed.

Lemma mul_mono (x1 x2 y : number) :
  nonneg x1 -> nonneg x2 -> nonneg y ->
  leb x1 x2 = true -> leb (mul x1 y) (mul x2 y) = true.
Proof.
  intros N1 N2 [Vy Sy] H.
  destruct y as [sy| | |[] my ey]; try contradiction.
  { destruct N1 as [_ S1], N2 as [_ S2].
    destruct x1 as [| | |[]], x2 as [| | |[]]; try contradiction; reflexivity. }
  pose proof (number_exponent _ _ _ Vy) as Ey.
  pose proof (proj1 (leb_value (3000 + ey) x1 x2 ltac:(lia) N1 N2) H) as V.
  destruct N1 as [V1 S1], N2 as [V2 S2].
  destruct x1 as [s1| | |[] m1 e1]; try contradiction;
    (destruct x2 as [s2| | |[] m2 e2]; try contradiction).
  - reflexivity.
  - apply zero_leb_round_aux. apply mul_long_enough; assumption.
  - pose proof (number_exponent _ _ _ V1).
    pose proof (val_pos (3000 + ey) m1 e1 ltac:(lia)). cbn [value] in V. lia.
  - pose proof (number_exponent _ _ _ V1) as E1.
    pose proof (number_exponent _ _ _ V2) as E2.
    cbn [value] in V. unfold val in V.
    unfold mul. cbn [SFmul xorb].
    assert (P1 : 0 < 2 ^ (e1 + ey + 3000)) by (apply Z.pow_pos_nonneg; lia).
    assert (P2 : 0 < 2 ^ (e2 + ey + 3000)) by (apply Z.pow_pos_nonneg; lia).
    pose proof (code_exact_scaled (Zpos (m1 * my)) _ P1) as C1.
    pose proof (code_exact_scaled (Zpos (m2 * my)) _ P2) as C2.
    assert (G1 : - 3000 <= e1 + ey) by lia.
    assert (G2 : - 3000 <= e2 + ey) by lia.
    assert (G3 : 0 <= Zpos (m1 * my) * 2 ^ (e1 + ey + 3000)) by lia.
    apply (binary_round_aux_mono 3000 _ _ _ _ 1 _ _ _ _ 1
             (mul_long_enough _ _ _ _ V1 Vy) (mul_long_enough _ _ _ _ V2 Vy)
             G1 G2 G3 Z.lt_0_1 Z.lt_0_1 C1 C2).
    rewrite !Pos2Z.inj_mul, !Z.mul_1_r.
    replace (e1 + ey + 3000) with (e1 + (3000 + ey)) by lia.
    replace (e2 + ey + 3000) with (e2 + (3000 + ey)) by lia.
    nia.
Qed.

(** *** Division *)

Lemma new_location_code (nb q r : Z) :
  0 <= r < nb ->
  code (shr_record_of_loc q (new_location nb r)) = Code (nb * q + r) nb.
Proof.
  intros Hr. unfold Code.
  assert (E : forall t u, 2 * r = nb * t + u -> 0 <= u < nb ->
            2 * (nb * q + r) / nb = 2 * q + t
            /\ (2 * (nb * q + r)) mod nb = u).
  { intros t u Ht Hu. split.
    - symmetry. apply (Z.div_unique_pos _ _ _ u); lia.
    - symmetry. apply (Z.mod_unique_pos _ _ (2 * q + t)); lia. }
  assert (X : r = 0 ->
            code (shr_record_of_loc q loc_Exact) = 2 * (2 * q + 0) + 0)
    by (intros _; unfold code; cbn [shr_record_of_loc shr_m shr_r shr_s]; lia).
  unfold new_location, new_location_even, new_location_odd.
  destruct (Z.even nb) eqn:Ev; cbv beta iota.
  - destruct (Z.eqb_spec r 0) as [R0|R0].
    { destruct (E 0 0 ltac:(lia) ltac:(lia)) as [-> ->]. auto. }
    destruct (Z.compare_spec (2 * r) nb) as [C|C|C].
    + destruct (E 1 0 ltac:(lia) ltac:(lia)) as [-> ->].
      unfold code; cbn [shr_record_of_loc shr_m shr_r shr_s Z.eqb]; lia.
    + destruct (E 0 (2 * r) ltac:(lia) ltac:(lia)) as [-> ->].
      destruct (Z.eqb_spec (2 * r) 0); [lia|].
      unfold code; cbn [shr_record_of_loc shr_m shr_r shr_s]; lia.
    + destruct (E 1 (2 * r - nb) ltac:(lia) ltac:(lia)) as [-> ->].
      destruct (Z.eqb_spec (2 * r - nb) 0); [lia|].
      unfold code; cbn [shr_record_of_loc shr_m shr_r shr_s]; lia.
  - destruct (Z.eqb_spec r 0) as [R0|R0].
    { destruct (E 0 0 ltac:(lia) ltac:(lia)) as [-> ->]. auto. }
    assert (Od : Z.odd nb = true) by (rewrite <- Z.negb_even, Ev; reflexivity).
    apply Z.odd_spec in Od. destruct Od as [k Hk].
    destruct (Z.compare_spec (2 * r + 1) nb) as [C|C|C].
    + destruct (E 0 (2 * r) ltac:(lia) ltac:(lia)) as [-> ->].
      destruct (Z.eqb_spec (2 * r) 0); [lia|].
      unfold code; cbn [shr_record_of_loc shr_m shr_r shr_s]; lia.
    + destruct (E 0 (2 * r) ltac:(lia) ltac:(lia)) as [-> ->].
      destruct (Z.eqb_spec (2 * r) 0); [lia|].
      unfold code; cbn [shr_record_of_loc shr_m shr_r shr_s]; lia.
    + destruct (E 1 (2 * r - nb) ltac:(lia) ltac:(lia)) as [-> ->].
      destruct (Z.eqb_spec (2 * r - nb) 0); [lia|].
      unfold code; cbn [shr_record_of_loc shr_m shr_r shr_s]; lia.
Qed.

Lemma div_core_spec (m1 : positive) (e1 : Z) (m2 : positive) (e2 : Z) :
  exists q l,
    SFdiv_core_binary prec emax (Zpos m1) e1 (Zpos m2) e2
    = (q, div_exponent m1 e1 m2 e2, l)
    /\ code (shr_record_of_loc q l) = Code (div_dividend m1 e1 m2 e2) (Zpos m2)
    /\ long_enough q (div_exponent m1 e1 m2 e2).
Proof.
  unfold SFdiv_core_binary. fold (div_exponent m1 e1 m2 e2).
  set (e' := div_exponent m1 e1 m2 e2).
  assert (Hs : 0 <= e1 - e2 - e') by (unfold e', div_exponent; lia).
  set (m' := match e1 - e2 - e' with
             | Z0 => Zpos m1
             | Zpos _ => Z.shiftl (Zpos m1) (e1 - e2 - e')
             | Zneg _ => 0
             end).
  assert (Em : m' = div_dividend m1 e1 m2 e2).
  { unfold m', div_dividend. fold e'.
    destruct (e1 - e2 - e') as [|p|p] eqn:E; [| |lia].
    - change (2 ^ 0) with 1. lia.
    - rewrite Z.shiftl_mul_pow2 by lia. reflexivity. }
  pose proof (Z_div_mod m' (Zpos m2) ltac:(lia)) as DM.
  destruct (Z.div_eucl m' (Zpos m2)) as [q r]. destruct DM as [DM Hr].
  exists q, (new_location (Zpos m2) r). split; [reflexivity|].
  assert (P : 0 < 2 ^ (e1 - e2 - e')) by (apply Z.pow_pos_nonneg; lia).
  assert (Hm' : 0 < m') by (rewrite Em; unfold div_dividend; fold e'; lia).
  assert (Hq : 0 <= q) by nia.
  split.
  - rewrite <- Em, DM. apply new_location_code. exact Hr.
  - split; [exact Hq|]. rewrite fexp_eq.
    destruct (Z_le_gt_dec e' (-1074)) as [C|C]; [lia|].
    assert (T : 2 ^ 52 <= q).
    { destruct (Zdigits2_bounds (Zpos m1) ltac:(lia)) as (D1 & L1 & U1).
      destruct (Zdigits2_bounds (Zpos m2) ltac:(lia)) as (D2 & L2 & U2).
      set (d1 := Zdigits2 (Zpos m1)) in *. set (d2 := Zdigits2 (Zpos m2)) in *.
      assert (S : d2 - d1 + 53 <= e1 - e2 - e').
      { unfold e', div_exponent in *. rewrite fexp_eq in *. fold d1 d2 in C |- *. lia. }
      assert (2 ^ (d2 + 52) <= m').
      { rewrite Em. unfold div_dividend. fold e'.
        assert (2 ^ (d2 + 52) <= 2 ^ (d1 - 1 + (e1 - e2 - e')))
          by (apply Z.pow_le_mono_r; lia).
        rewrite (Z.pow_add_r 2 (d1 - 1)) in H by lia.
        eapply Z.le_trans; [exact H|].
        apply Z.mul_le_mono_nonneg_r; [apply Z.pow_nonneg|]; lia. }
      rewrite Z.pow_add_r in H by lia.
      destruct (Z_le_gt_dec (2 ^ 52) q) as [G|G]; [exact G|exfalso].
      assert (q + 1 <= 2 ^ 52) by lia.
      assert (Zpos m2 * (q + 1) <= Zpos m2 * 2 ^ 52)
        by (apply Z.mul_le_mono_nonneg_l; lia).
      assert (Zpos m2 * 2 ^ 52 < 2 ^ d2 * 2 ^ 52)
        by (apply Z.mul_lt_mono_pos_r; lia).
      lia. }
    destruct (Zdigits2_bounds q ltac:(lia)) as (Dq & Lq & Uq).
    assert (52 < Zdigits2 q) by (apply pow2_lt_exp; lia).
    lia.
Qed.

Lemma div_valid (x y : number) :
  is_number x = true -> is_number y = true -> is_number (div x y) = true.
Proof.
  intros Vx Vy. destruct x as [sx|sx| |sx mx ex], y as [sy|sy| |sy my ey];
    try reflexivity.
  unfold div. cbn [SFdiv].
  destruct (div_core_spec mx ex my ey) as (q & l & -> & _ & L).
  apply binary_round_aux_valid. exact L.
Qed.

Lemma div_mono (x1 x2 y : number) :
  nonneg x1 -> nonneg x2 -> positive_number y ->
  leb x1 x2 = true -> leb (div x1 y) (div x2 y) = true.
Proof.
  intros N1 N2 [Vy Sy] H.
  destruct y as [sy| | |[] my ey]; try contradiction.
  pose proof (number_exponent _ _ _ Vy) as Ey.
  pose proof (proj1 (leb_value (3000 - ey) x1 x2 ltac:(lia) N1 N2) H) as V.
  destruct N1 as [V1 S1], N2 as [V2 S2].
  destruct x1 as [s1| | |[] m1 e1]; try contradiction;
    (destruct x2 as [s2| | |[] m2 e2]; try contradiction).
  - reflexivity.
  - unfold div. cbn [SFdiv xorb].
    destruct (div_core_spec m2 e2 my ey) as (q & l & -> & _ & L).
    apply zero_leb_round_aux. exact L.
  - pose proof (number_exponent _ _ _ V1).
    pose proof (val_pos (3000 - ey) m1 e1 ltac:(lia)). cbn [value] in V. lia.
  - pose proof (number_exponent _ _ _ V1) as E1.
    pose proof (number_exponent _ _ _ V2) as E2.
    cbn [value] in V. unfold val in V.
    unfold div. cbn [SFdiv xorb].
    destruct (div_core_spec m1 e1 my ey) as (q1 & l1 & -> & C1 & L1).
    destruct (div_core_spec m2 e2 my ey) as (q2 & l2 & -> & C2 & L2).
    set (a1 := div_exponent m1 e1 my ey) in *.
    set (a2 := div_exponent m2 e2 my ey) in *.
    assert (A1 : -3000 <= a1 <= e1 - ey)
      by (unfold a1, div_exponent; rewrite fexp_eq; lia).
    assert (A2 : -3000 <= a2 <= e2 - ey)
      by (unfold a2, div_exponent; rewrite fexp_eq; lia).
    assert (P1 : 0 < 2 ^ (a1 + 3000)) by (apply Z.pow_pos_nonneg; lia).
    assert (P2 : 0 < 2 ^ (a2 + 3000)) by (apply Z.pow_pos_nonneg; lia).
    rewrite <- (Code_scale _ _ (2 ^ (a1 + 3000))) in C1 by lia.
    rewrite <- (Code_scale _ _ (2 ^ (a2 + 3000))) in C2 by lia.
    rewrite (Z.mul_comm _ (Zpos my)) in C1.
    rewrite (Z.mul_comm _ (Zpos my)) in C2.
    assert (F1 : 2 ^ (a1 + 3000) * div_dividend m1 e1 my ey
                 = Zpos m1 * 2 ^ (e1 + (3000 - ey))).
    { unfold div_dividend. fold a1.
      rewrite (Z.mul_comm (2 ^ _)), <- Z.mul_assoc, <- Z.pow_add_r by lia.
      f_equal. f_equal. lia. }
    assert (F2 : 2 ^ (a2 + 3000) * div_dividend m2 e2 my ey
                 = Zpos m2 * 2 ^ (e2 + (3000 - ey))).
    { unfold div_dividend. fold a2.
      rewrite (Z.mul_comm (2 ^ _)), <- Z.mul_assoc, <- Z.pow_add_r by lia.
      f_equal. f_equal. lia. }
    rewrite F1 in C1. rewrite F2 in C2.
    assert (G3 : 0 <= Zpos m1 * 2 ^ (e1 + (3000 - ey))).
    { apply Z.mul_nonneg_nonneg; [lia|]. apply Z.pow_nonneg. lia. }
    apply (binary_round_aux_mono 3000 _ _ _ _ (Zpos my) _ _ _ _ (Zpos my)
             L1 L2 ltac:(lia) ltac:(lia) G3 ltac:(lia) ltac:(lia) C1 C2).
    apply Z.mul_le_mono_nonneg_r; [lia|exact V].
Qed.

(** *** Addition and subtraction *)

Lemma binary_normalize_valid (z e : Z) (szero : bool) :
  is_number (binary_normalize prec emax z e szero) = true.
Proof.
  destruct z; [reflexivity| |]; apply binary_round_valid.
Qed.

Lemma binary_normalize_mono (K z1 e1 z2 e2 : Z) :
  1074 <= K -> - K <= e1 -> - K <= e2 -> 0 <= z1 ->
  z1 * 2 ^ (e1 + K) <= z2 * 2 ^ (e2 + K) ->
  leb (binary_normalize prec emax z1 e1 false)
      (binary_normalize prec emax z2 e2 false) = true.
Proof.
  intros HK K1 K2 Hz H.
  assert (P1 : 0 < 2 ^ (e1 + K)) by (apply Z.pow_pos_nonneg; lia).
  assert (P2 : 0 < 2 ^ (e2 + K)) by (apply Z.pow_pos_nonneg; lia).
  destruct z1 as [|p1|p1]; [| |lia]; destruct z2 as [|p2|p2]; cbn [binary_normalize].
  - reflexivity.
  - apply zero_leb_round.
  - exfalso. nia.
  - exfalso. nia.
  - apply (binary_round_mono K); assumption.
  - exfalso. nia.
Qed.

Lemma aligned (m : positive) (e ez : Z) :
  ez <= e -> Zpos (fst (shl_align m e ez)) = Zpos m * 2 ^ (e - ez).
Proof.
  intros H. destruct (shl_align_spec m e ez) as [A B].
  rewrite B, A. f_equal. f_equal. lia.
Qed.

Lemma add_valid (x y : number) :
  is_number x = true -> is_number y = true -> is_number (add x y) = true.
Proof.
  intros Vx Vy. destruct x as [[]|[]| |sx mx ex], y as [[]|[]| |sy my ey];
    try reflexivity; try assumption.
  apply binary_normalize_valid.
Qed.

Lemma sub_valid (x y : number) :
  is_number x = true -> is_number y = true -> is_number (sub x y) = true.
Proof.
  intros Vx Vy. destruct x as [[]|[]| |sx mx ex], y as [[]|[]| |sy my ey];
    try reflexivity; try assumption.
  apply binary_normalize_valid.
Qed.

Lemma aligned_value (K : Z) (m : positive) (e ez : Z) :
  - K <= ez -> ez <= e ->
  Zpos (fst (shl_align m e ez)) * 2 ^ (ez + K) = val K m e.
Proof.
  intros HK H. rewrite aligned by exact H. unfold val.
  rewrite <- Z.mul_assoc, <- Z.pow_add_r by lia. f_equal. f_equal. lia.
Qed.

(** The sum of a positive and a nonnegative number is the rounding of
    the sum of their values. *)
Lemma add_normalize (K : Z) (r x : number) :
  1074 <= K -> positive_number r -> nonneg x ->
  exists z e,
    add r x = binary_normalize prec emax z e false
    /\ -1074 <= e /\ 0 <= z
    /\ z * 2 ^ (e + K) = value K r + value K x.
Proof.
  intros HK [Vr Sr] [Vx Sx].
  destruct r as [| | |[] mr er]; try contradiction.
  pose proof (number_exponent _ _ _ Vr) as Er.
  destruct x as [sx| | |[] mx ex]; try contradiction.
  - exists (Zpos mr), er. cbn [value binary_normalize].
    rewrite binary_round_canonical by exact Vr.
    repeat split; try lia. unfold val. lia.
  - pose proof (number_exponent _ _ _ Vx) as Ex.
    exists (Zpos (fst (shl_align mr er (Z.min er ex)))
            + Zpos (fst (shl_align mx ex (Z.min er ex)))), (Z.min er ex).
    split; [reflexivity|]. split; [lia|]. split; [lia|].
    rewrite Z.mul_add_distr_r, !aligned_value by lia. reflexivity.
Qed.

(** The difference of a positive number and a smaller nonnegative one
    is the rounding of the difference of their values. *)
Lemma sub_normalize (K : Z) (s c : number) :
  1074 <= K -> positive_number s -> nonneg c -> leb c s = true ->
  exists z e,
    sub s c = binary_normalize prec emax z e false
    /\ -1074 <= e /\ 0 <= z
    /\ z * 2 ^ (e + K) = value K s - value K c.
Proof.
  intros HK Ps Nc H.
  pose proof (proj1 (leb_value K c s HK Nc (positive_nonneg _ Ps)) H) as V.
  destruct Ps as [Vs Ss], Nc as [Vc Sc].
  destruct s as [| | |[] ms es]; try contradiction.
  pose proof (number_exponent _ _ _ Vs) as Es.
  destruct c as [sc| | |[] mc ec]; try contradiction.
  - exists (Zpos ms), es. cbn [value binary_normalize].
    rewrite binary_round_canonical by exact Vs.
    repeat split; try lia. unfold val. lia.
  - pose proof (number_exponent _ _ _ Vc) as Ec.
    cbn [value] in V.
    set (ez := Z.min es ec).
    exists (Zpos (fst (shl_align ms es ez)) - Zpos (fst (shl_align mc ec ez))), ez.
    assert (E : (Zpos (fst (shl_align ms es ez)) - Zpos (fst (shl_align mc ec ez)))
                * 2 ^ (ez + K) = val K ms es - val K mc ec).
    { rewrite Z.mul_sub_distr_r, !aligned_value by (unfold ez; lia). reflexivity. }
    split; [reflexivity|]. split; [unfold ez; lia|]. split; [|exact E].
    assert (0 < 2 ^ (ez + K)) by (apply Z.pow_pos_nonneg; unfold ez; lia).
    nia.
Qed.

Lemma add_mono (r x1 x2 : number) :
  positive_number r -> nonneg x1 -> nonneg x2 ->
  leb x1 x2 = true -> leb (add r x1) (add r x2) = true.
Proof.
  intros Pr N1 N2 H.
  pose proof (proj1 (leb_value 1074 x1 x2 ltac:(lia) N1 N2) H) as V.
  destruct (add_normalize 1074 r x1 ltac:(lia) Pr N1) as (z1 & e1 & -> & E1 & Z1 & A1).
  destruct (add_normalize 1074 r x2 ltac:(lia) Pr N2) as (z2 & e2 & -> & E2 & Z2 & A2).
  apply (binary_normalize_mono 1074); lia.
Qed.

Lemma sub_anti (s c1 c2 : number) :
  positive_number s -> nonneg c1 -> nonneg c2 ->
  leb c1 c2 = true -> leb c2 s = true ->
  leb (sub s c2) (sub s c1) = true.
Proof.
  intros Ps N1 N2 H12 H2.
  pose proof (Order.leb_trans _ _ _ H12 H2) as H1.
  pose proof (proj1 (leb_value 1074 c1 c2 ltac:(lia) N1 N2) H12) as V.
  destruct (sub_normalize 1074 s c1 ltac:(lia) Ps N1 H1) as (z1 & e1 & -> & E1 & Z1 & A1).
  destruct (sub_normalize 1074 s c2 ltac:(lia) Ps N2 H2) as (z2 & e2 & -> & E2 & Z2 & A2).
  apply (binary_normalize_mono 1074); lia.
Qed.

End Ops.

(** ** [Math.round] and the bounds of a chain of operations *)

Module Round.
Import Rounding Values Exact Ops.

Lemma zero_leb_normalize (s : bool) (z e : Z) :
  0 <= z -> leb (S754_zero s) (binary_normalize prec emax z e false) = true.
Proof.
  intros H. destruct z as [|p|p]; [reflexivity| |lia].
  apply zero_leb_round.
Qed.

(** A number between zero and a nonnegative number is nonnegative. *)
Lemma nonneg_between (x b : number) :
  is_number x = true -> leb (S754_zero false) x = true ->
  leb x b = true -> nonneg b -> nonneg x.
Proof.
  intros V L U [_ Sb]. split; [exact V|].
  destruct x as [sx|[]| |[] mx ex]; try exact I; try discriminate;
    destruct b as [sb|[]| |[] mb eb]; try contradiction; discriminate.
Qed.

Lemma round_half_scaled (K m e : Z) :
  e < 0 -> - K <= e ->
  (2 * m + 2 ^ (- e)) / 2 ^ (1 - e)
  = (2 * (m * 2 ^ (e + K)) + 2 ^ K) / 2 ^ (K + 1).
Proof.
  intros He HK.
  assert (P : 0 < 2 ^ (e + K)) by (apply Z.pow_pos_nonneg; lia).
  rewrite <- (Z.div_mul_cancel_r (2 * m + 2 ^ (- e)) (2 ^ (1 - e)) (2 ^ (e + K)))
    by (try apply Z.pow_nonzero; lia).
  rewrite Z.mul_add_distr_r, <- !Z.pow_add_r by lia.
  replace (- e + (e + K)) with K by lia.
  replace (1 - e + (e + K)) with (K + 1) by lia.
  f_equal. ring.
Qed.

Lemma round_half_integer (K a : Z) :
  0 <= K -> (2 * (a * 2 ^ K) + 2 ^ K) / 2 ^ (K + 1) = a.
Proof.
  intros HK. assert (P : 0 < 2 ^ K) by (apply Z.pow_pos_nonneg; lia).
  rewrite Z.pow_add_r by lia. change (2 ^ 1) with 2.
  symmetry. apply (Z.div_unique_pos _ _ _ (2 ^ K)); lia.
Qed.

(** [Math.round] of a positive number below 2^52, as a rounding. *)
Lemma Math_round_fraction (m : positive) (e : Z) :
  e < 0 ->
  Math_round (S754_finite false m e)
  = binary_normalize prec emax ((2 * Zpos m + 2 ^ (- e)) / 2 ^ (1 - e)) 0 false.
Proof.
  intros He. unfold Math_round.
  destruct (Z.leb_spec 0 e); [lia|]. cbn [cond_Zopp].
  destruct (Z.eqb_spec ((2 * Zpos m + 2 ^ (- e)) / 2 ^ (1 - e)) 0) as [->|]; reflexivity.
Qed.

Lemma Math_round_integer (s : bool) (m : positive) (e : Z) :
  0 <= e -> Math_round (S754_finite s m e) = S754_finite s m e.
Proof.
  intros He. unfold Math_round. destruct (Z.leb_spec 0 e); [reflexivity|lia].
Qed.

Lemma Math_round_valid (x : number) :
  is_number x = true -> is_number (Math_round x) = true.
Proof.
  intros V. destruct x as [| | |s m e]; try exact V.
  unfold Math_round. destruct (0 <=? e); [exact V|].
  destruct (_ =? 0); [reflexivity|]. apply binary_normalize_valid.
Qed.

Lemma Math_round_mono (x1 x2 : number) :
  nonneg x1 -> nonneg x2 ->
  leb x1 x2 = true -> leb (Math_round x1) (Math_round x2) = true.
Proof.
  intros N1 N2 H.
  pose proof (proj1 (leb_value 1074 x1 x2 ltac:(lia) N1 N2) H) as V.
  destruct N1 as [V1 S1], N2 as [V2 S2].
  destruct x1 as [s1| | |[] m1 e1]; try contradiction;
    (destruct x2 as [s2| | |[] m2 e2]; try contradiction).
  - reflexivity.
  - destruct (Z_lt_le_dec e2 0) as [C|C].
    + rewrite Math_round_fraction by exact C.
      apply zero_leb_normalize. apply Z.div_pos.
      * assert (0 <= 2 ^ (- e2)) by (apply Z.pow_nonneg; lia). lia.
      * apply Z.pow_pos_nonneg; lia.
    + rewrite Math_round_integer by exact C. reflexivity.
  - pose proof (number_exponent _ _ _ V1).
    pose proof (val_pos 1074 m1 e1 ltac:(lia)). cbn [value] in V. lia.
  - pose proof (number_exponent _ _ _ V1) as E1.
    pose proof (number_exponent _ _ _ V2) as E2.
    cbn [value] in V. unfold val in V.
    assert (P : 0 < 2 ^ (1074 + 1)) by reflexivity.
    destruct (Z_lt_le_dec e1 0) as [C1|C1], (Z_lt_le_dec e2 0) as [C2|C2].
    + rewrite !Math_round_fraction by assumption.
      rewrite (round_half_scaled 1074 _ e1), (round_half_scaled 1074 _ e2) by lia.
      apply (binary_normalize_mono 1074); try lia.
      * apply Z.div_pos; [nia|lia].
      * apply Z.mul_le_mono_nonneg_r; [lia|].
        apply Z.div_le_mono; lia.
    + rewrite Math_round_fraction, Math_round_integer by assumption.
      rewrite <- (binary_round_canonical false m2 e2 V2).
      change (binary_round prec emax false m2 e2)
        with (binary_normalize prec emax (Zpos m2) e2 false).
      rewrite (round_half_scaled 1074 _ e1) by lia.
      apply (binary_normalize_mono 1074); try lia.
      * apply Z.div_pos; [nia|lia].
      * replace (Zpos m2 * 2 ^ (e2 + 1074)) with (Zpos m2 * 2 ^ e2 * 2 ^ 1074) in *
          by (rewrite Z.pow_add_r by lia; ring).
        rewrite Z.add_0_l.
        apply Z.mul_le_mono_nonneg_r; [lia|].
        rewrite <- (round_half_integer 1074 (Zpos m2 * 2 ^ e2)) by lia.
        apply Z.div_le_mono; lia.
    + exfalso. unfold leb, SFleb in H. cbn [SFcompare] in H.
      destruct (Z.compare_spec e1 e2); first [lia | discriminate].
    + rewrite !Math_round_integer by assumption. exact H.
Qed.

End Round.

(** ** Growing functions

    [grows b f]: on the nonnegative numbers up to [b], the function [f]
    is monotone and its results are nonnegative numbers. *)

Module Growing.
Import Rounding Values Exact Ops Round.

Lemma nonneg_zero : nonneg zero.
Proof. split; [reflexivity|exact I]. Qed.

Lemma zero_leb (x : number) : nonneg x -> leb zero x = true.
Proof. intros [_ S]. destruct x as [| | |[]]; try contradiction; reflexivity. Qed.

Lemma leb_refl (x : number) : nonneg x -> leb x x = true.
Proof.
  intros N. apply (leb_value 1074 x x); [lia|exact N|exact N|lia].
Qed.

Lemma grows_nonneg (b : number) (f : number -> number) (x : number) :
  grows b f -> nonneg x -> leb x b = true ->
  nonneg (f x) /\ leb (f x) (f b) = true.
Proof.
  intros G N H.
  assert (U : leb (f x) (f b) = true).
  { apply (grows_mono b f G); try assumption.
    - apply (grows_bound b f G).
    - apply leb_refl. apply (grows_bound b f G). }
  split; [|exact U].
  apply (nonneg_between (f x) (f b)).
  - apply (grows_valid b f G). apply N.
  - apply (Order.leb_trans _ (f zero)); [apply (grows_zero b f G)|].
    apply (grows_mono b f G); try assumption.
    + apply nonneg_zero.
    + apply zero_leb. exact N.
  - exact U.
  - apply (grows_top b f G).
Qed.

Lemma grows_compose (b : number) (f g : number -> number) :
  grows b f -> grows (f b) g -> grows b (fun x => g (f x)).
Proof.
  intros F G. constructor.
  - apply (grows_bound b f F).
  - apply (grows_top (f b) g G).
  - intros x V. apply (grows_valid _ g G). apply (grows_valid b f F). exact V.
  - intros x1 x2 N1 N2 H12 H2.
    assert (H1 : leb x1 b = true) by (eapply Order.leb_trans; eassumption).
    destruct (grows_nonneg b f x1 F N1 H1) as [M1 _].
    destruct (grows_nonneg b f x2 F N2 H2) as [M2 U2].
    apply (grows_mono _ g G); try assumption.
    apply (grows_mono b f F); assumption.
  - assert (Nb := grows_bound b f F).
    destruct (grows_nonneg b f zero F nonneg_zero (zero_leb b Nb)) as [M U].
    apply (Order.leb_trans _ (g zero)); [apply (grows_zero _ g G)|].
    apply (grows_mono _ g G); try assumption.
    + apply nonneg_zero.
    + apply (grows_zero b f F).
Qed.

Lemma grows_div (b d : number) :
  positive_number d -> nonneg b -> nonneg (div b d) ->
  grows b (fun x => div x d).
Proof.
  intros Pd Nb Nt. constructor; try assumption.
  - intros x V. apply div_valid; [exact V|apply Pd].
  - intros x1 x2 N1 N2 H _. apply div_mono; assumption.
  - destruct Pd as [_ S]. destruct d as [| | |[]]; try contradiction. reflexivity.
Qed.

Lemma grows_mul (b y : number) :
  nonneg y -> nonneg b -> nonneg (mul b y) ->
  grows b (fun x => mul x y).
Proof.
  intros Ny Nb Nt. constructor; try assumption.
  - intros x V. apply mul_valid; [exact V|apply Ny].
  - intros x1 x2 N1 N2 H _. apply mul_mono; assumption.
  - destruct Ny as [_ S]. destruct y as [| | |[]]; try contradiction; reflexivity.
Qed.

Lemma grows_add (b r : number) :
  positive_number r -> nonneg b -> nonneg (add r b) ->
  grows b (fun x => add r x).
Proof.
  intros Pr Nb Nt. constructor; try assumption.
  - intros x V. apply add_valid; [apply Pr|exact V].
  - intros x1 x2 N1 N2 H _. apply add_mono; assumption.
  - destruct Pr as [_ S]. destruct r as [| | |[]]; try contradiction. reflexivity.
Qed.

Lemma grows_round (b : number) :
  nonneg b -> nonneg (Math_round b) -> grows b Math_round.
Proof.
  intros Nb Nt. constructor; try assumption.
  - apply Math_round_valid.
  - intros x1 x2 N1 N2 H _. apply Math_round_mono; assumption.
  - reflexivity.
Qed.

(** The offset [s - c] of a score [c] in a segment whose highest score
    is [s]. *)
Lemma offset_nonneg (s c : number) :
  positive_number s -> nonneg c -> leb c s = true ->
  is_number (sub s c) = true /\ leb zero (sub s c) = true.
Proof.
  intros Ps Nc H. split.
  - apply sub_valid; [apply Ps|apply Nc].
  - destruct (sub_normalize 1074 s c ltac:(lia) Ps Nc H) as (z & e & -> & _ & Z & _).
    apply zero_leb_normalize. exact Z.
Qed.

End Growing.

(** ** The interpolation loop *)

Module Interpolation.
Import Rounding Values Exact Ops Round Growing.

Lemma nonnegb_spec (x : number) : nonnegb x = true -> nonneg x.
Proof.
  unfold nonnegb. intros H. apply andb_true_iff in H. destruct H as [V S].
  split; [exact V|]. destruct x as [| | |[]]; try discriminate; exact I.
Qed.

Lemma positiveb_spec (x : number) : positiveb x = true -> positive_number x.
Proof.
  unfold positiveb. intros H. apply andb_true_iff in H. destruct H as [V S].
  split; [exact V|]. destruct x as [| | |[]]; try discriminate; exact I.
Qed.

Lemma medium_banded (cur next : entry) (c : number) :
  medium (banded (interpolatedRank cur next c) c)
  = rank_at cur next (sub (score cur) c).
Proof. reflexivity. Qed.

Lemma kcet2025RankTable_ok : table_ok kcet2025RankTable = true.
Proof. vm_compute. reflexivity. Qed.

Section Segment.
Variables cur next : entry.
Hypothesis OK : segment_ok cur next = true.

Let d := sub (score cur) (score next).

Lemma segment_facts :
  positive_number (score cur) /\ positive_number (score next)
  /\ positive_number (rank cur) /\ positive_number (rank next)
  /\ leb (score next) (score cur) = true
  /\ leb (rank cur) (rank_at cur next (sub (score cur) (score cur))) = true
  /\ leb (rank_at cur next d) (rank next) = true.
Proof.
  unfold segment_ok in OK. cbv zeta in OK.
  do 12 (apply andb_true_iff in OK; let H := fresh "H" in destruct OK as [OK H]).
  split; [apply positiveb_spec; assumption|].
  split; [apply positiveb_spec; assumption|].
  split; [apply positiveb_spec; assumption|].
  split; [apply positiveb_spec; assumption|].
  split; [assumption|]. split; assumption.
Qed.

Lemma rank_at_grows : grows d (rank_at cur next).
Proof.
  unfold segment_ok in OK. cbv zeta in OK. fold d in OK.
  do 12 (apply andb_true_iff in OK; let H := fresh "H" in destruct OK as [OK H]).
  unfold rank_at. fold d.
  set (rd := sub (rank next) (rank cur)) in *.
  assert (Nd : nonneg d) by (apply positive_nonneg, positiveb_spec; assumption).
  apply (grows_compose d (fun o => add (rank cur) (mul (div o d) rd)) Math_round).
  - apply (grows_compose d (fun o => mul (div o d) rd) (fun p => add (rank cur) p)).
    + apply (grows_compose d (fun o => div o d) (fun q => mul q rd)).
      * apply grows_div; [apply positiveb_spec; assumption|exact Nd|].
        apply nonnegb_spec; assumption.
      * apply grows_mul; apply nonnegb_spec; assumption.
    + apply grows_add; [apply positiveb_spec; assumption| |];
        apply nonnegb_spec; assumption.
  - apply grows_round; apply nonnegb_spec; assumption.
Qed.

Lemma offset_inside (c : number) :
  inside cur next c -> nonneg (sub (score cur) c) /\ leb (sub (score cur) c) d = true.
Proof.
  intros (N & L & U).
  destruct segment_facts as (Ps & Ps' & _ & _ & Hs & _).
  destruct (offset_nonneg _ _ Ps N U) as [V Z].
  assert (B : leb (sub (score cur) c) d = true).
  { apply sub_anti; try assumption. apply positive_nonneg; assumption. }
  split; [|exact B].
  apply (nonneg_between _ d V Z B).
  apply (grows_bound _ _ rank_at_grows).
Qed.

Lemma rank_at_bounds (c : number) :
  inside cur next c ->
  nonneg (rank_at cur next (sub (score cur) c))
  /\ leb (rank cur) (rank_at cur next (sub (score cur) c)) = true
  /\ leb (rank_at cur next (sub (score cur) c)) (rank next) = true.
Proof.
  intros I. destruct (offset_inside c I) as [No Bo].
  destruct I as (N & L & U).
  destruct segment_facts as (Ps & Ps' & _ & _ & Hs & Lo & Hi).
  destruct (grows_nonneg _ _ _ rank_at_grows No Bo) as [Nr Ur].
  split; [exact Nr|]. split.
  - apply (Order.leb_trans _ _ _ Lo).
    assert (Is : inside cur next (score cur)).
    { split; [apply positive_nonneg; assumption|]. split; [exact Hs|].
      apply leb_refl. apply positive_nonneg; assumption. }
    destruct (offset_inside _ Is) as [No' Bo'].
    apply (grows_mono _ _ rank_at_grows); try assumption.
    apply sub_anti; try assumption.
    + apply positive_nonneg; assumption.
    + apply leb_refl. apply positive_nonneg; assumption.
  - apply (Order.leb_trans _ _ _ Ur Hi).
Qed.

(** Inside a segment, a higher score has a rank that is not larger. *)
Lemma rank_at_antitone (a b : number) :
  inside cur next a -> inside cur next b -> leb a b = true ->
  leb (rank_at cur next (sub (score cur) b))
      (rank_at cur next (sub (score cur) a)) = true.
Proof.
  intros Ia Ib H.
  destruct (offset_inside a Ia) as [Na Ba].
  destruct (offset_inside b Ib) as [Nb Bb].
  destruct Ia as (N1 & L1 & U1), Ib as (N2 & L2 & U2).
  destruct segment_facts as (Ps & _).
  apply (grows_mono _ _ rank_at_grows); try assumption.
  apply sub_anti; assumption.
Qed.
End Segment.

(** *** The table *)

Lemma nonneg_not_nan (x : number) : nonneg x -> isNaN x = false.
Proof. intros [_ S]. destruct x; try contradiction; reflexivity. Qed.

Lemma ranks_rise (cur next : entry) :
  segment_ok cur next = true -> leb (rank cur) (rank next) = true.
Proof.
  intros OK.
  destruct (segment_facts cur next OK) as (Ps & Ps' & _ & _ & Hs & _).
  assert (I : inside cur next (score cur)).
  { split; [apply positive_nonneg; assumption|]. split; [exact Hs|].
    apply leb_refl. apply positive_nonneg; assumption. }
  destruct (rank_at_bounds cur next OK _ I) as (_ & L & U).
  eapply Order.leb_trans; eassumption.
Qed.

Lemma last_default (A : Type) (l : list A) : forall (y d d' : A),
  last (y :: l) d = last (y :: l) d'.
Proof.
  induction l as [|z l IH]; intros y d d'; [reflexivity|].
  change (last (y :: z :: l) d) with (last (z :: l) d).
  change (last (y :: z :: l) d') with (last (z :: l) d').
  apply IH.
Qed.

Lemma last_cons (A : Type) (x y : A) (l : list A) (d d' : A) :
  last (x :: y :: l) d = last (y :: l) d'.
Proof.
  change (last (x :: y :: l) d) with (last (y :: l) d). apply last_default.
Qed.

Lemma table_ok_cons (cur next : entry) (rest : list entry) :
  table_ok (cur :: next :: rest)
  = segment_ok cur next && table_ok (next :: rest).
Proof. reflexivity. Qed.

Lemma interpolate_cons (cur next : entry) (rest : list entry) (c : number) :
  interpolate (cur :: next :: rest) c
  = if leb c (score cur) && leb (score next) c
    then Some (banded (interpolatedRank cur next c) c)
    else interpolate (next :: rest) c.
Proof. reflexivity. Qed.

Lemma ranks_rise_table (rest : list entry) : forall cur next,
  table_ok (cur :: next :: rest) = true ->
  leb (rank cur) (rank (last (next :: rest) next)) = true.
Proof.
  induction rest as [|e3 rest IH]; intros cur next OK;
    rewrite table_ok_cons in OK; apply andb_true_iff in OK;
    destruct OK as [OK1 OK2].
  - apply ranks_rise. exact OK1.
  - rewrite (last_cons _ next e3 rest next e3).
    apply (Order.leb_trans _ (rank next)).
    + apply ranks_rise. exact OK1.
    + apply IH. exact OK2.
Qed.

(** A score below the first one and above the last one is found by
    the loop, and its rank lies between those of the two ends. *)
Lemma interpolate_inside (table : list entry) : forall first,
  table_ok table = true -> hd_error table = Some first ->
  forall c, nonneg c ->
  leb c (score first) = true -> ltb (score (last table first)) c = true ->
  exists res,
    interpolate table c = Some res
    /\ nonneg (medium res)
    /\ leb (rank first) (medium res) = true
    /\ leb (medium res) (rank (last table first)) = true.
Proof.
  induction table as [|cur rest IH]; intros first OK Hd c Nc U L;
    [discriminate|].
  injection Hd as <-.
  destruct rest as [|next rest].
  - cbn [last] in L. apply Order.ltb_not_geb in L. congruence.
  - pose proof (ranks_rise_table rest cur next OK) as Rise.
    rewrite table_ok_cons in OK. apply andb_true_iff in OK.
    destruct OK as [OK1 OK2].
    rewrite (last_cons _ cur next rest cur next) in *.
    destruct (segment_facts cur next OK1) as (Ps & Ps' & Pr & Pr' & Hs & _).
    rewrite interpolate_cons, U. cbn [andb].
    destruct (leb (score next) c) eqn:G.
    + eexists. split; [reflexivity|]. rewrite medium_banded.
      destruct (rank_at_bounds cur next OK1 c) as (N & Lo & Hi).
      { split; [exact Nc|]. split; assumption. }
      split; [exact N|]. split; [exact Lo|].
      apply (Order.leb_trans _ _ _ Hi).
      destruct rest as [|e3 rest]; [apply leb_refl, positive_nonneg, Pr'|].
      rewrite (last_cons _ next e3 rest next e3).
      apply ranks_rise_table. exact OK2.
    + assert (Lt : ltb c (score next) = true).
      { apply Order.leb_false_ltb; [| |exact G].
        - destruct Ps' as [_ S]. destruct (score next); try contradiction; reflexivity.
        - apply nonneg_not_nan, Nc. }
      destruct (IH next OK2 eq_refl c Nc (Order.ltb_leb _ _ Lt) L)
        as (res & E & N & Lo & Hi).
      exists res. split; [exact E|]. split; [exact N|]. split; [|exact Hi].
      apply (Order.leb_trans _ (rank next)); [|exact Lo].
      apply ranks_rise. exact OK1.
Qed.

(** In the loop, a higher score has a rank that is not larger. *)
Lemma interpolate_antitone (table : list entry) : forall first,
  table_ok table = true -> hd_error table = Some first ->
  forall a b, nonneg a -> nonneg b -> leb a b = true ->
  leb b (score first) = true -> ltb (score (last table first)) a = true ->
  exists ra rb,
    interpolate table a = Some ra /\ interpolate table b = Some rb
    /\ leb (medium rb) (medium ra) = true.
Proof.
  induction table as [|cur rest IH]; intros first OK Hd a b Na Nb Hab U L;
    [discriminate|].
  injection Hd as <-.
  assert (Ua : leb a (score cur) = true) by (eapply Order.leb_trans; eassumption).
  destruct rest as [|next rest].
  - cbn [last] in L. apply Order.ltb_not_geb in L. congruence.
  - pose proof OK as OK0.
    rewrite table_ok_cons in OK. apply andb_true_iff in OK.
    destruct OK as [OK1 OK2].
    destruct (segment_facts cur next OK1) as (Ps & Ps' & Pr & Pr' & Hs & _).
    assert (Nn : isNaN (score next) = false)
      by (destruct Ps' as [_ S]; destruct (score next); try contradiction; reflexivity).
    pose proof L as L'. rewrite (last_cons _ cur next rest cur next) in L'.
    rewrite !interpolate_cons, U, Ua. cbn [andb].
    destruct (leb (score next) b) eqn:Gb.
    + destruct (leb (score next) a) eqn:Ga.
      * do 2 eexists. split; [reflexivity|]. split; [reflexivity|].
        rewrite !medium_banded.
        apply rank_at_antitone; try assumption; (split; [|split]); assumption.
      * assert (Lt : ltb a (score next) = true)
          by (apply Order.leb_false_ltb; [exact Nn|apply nonneg_not_nan, Na|exact Ga]).
        destruct (interpolate_inside _ next OK2 eq_refl a Na (Order.ltb_leb _ _ Lt) L')
          as (ra & Ea & _ & Lo & _).
        exists ra. eexists. split; [exact Ea|]. split; [reflexivity|].
        rewrite medium_banded.
        destruct (rank_at_bounds cur next OK1 b) as (_ & _ & Hi).
        { split; [exact Nb|]. split; assumption. }
        eapply Order.leb_trans; eassumption.
    + assert (Ltb : ltb b (score next) = true)
        by (apply Order.leb_false_ltb; [exact Nn|apply nonneg_not_nan, Nb|exact Gb]).
      assert (Ga : leb (score next) a = false).
      { destruct (leb (score next) a) eqn:Ga; [|reflexivity].
        pose proof (Order.leb_trans _ _ _ Ga Hab). congruence. }
      rewrite Ga.
      apply (IH next OK2 eq_refl a b Na Nb Hab (Order.ltb_leb _ _ Ltb) L').
Qed.

End Interpolation.

(** ** [predictKCETRank] on its three ranges *)

Module Predict.
Import Rounding Values Exact Ops Round Growing Interpolation.

Lemma of_Z_valid (n : Z) : is_number (of_Z n) = true.
Proof. apply binary_normalize_valid. Qed.

Lemma decimal_valid (n k : Z) : is_number (decimal n k) = true.
Proof. apply div_valid; apply of_Z_valid. Qed.

(** The combined score of two numbers is a number. *)
Lemma combined_valid (cet puc : number) :
  is_number cet = true -> is_number puc = true ->
  is_number (combined cet puc) = true.
Proof.
  intros Vc Vp. unfold combined.
  apply add_valid; apply mul_valid; try apply decimal_valid; try exact Vp.
  apply mul_valid; [|apply of_Z_valid].
  apply div_valid; [exact Vc|apply of_Z_valid].
Qed.

(** The guard rejects what is not in [0, 100]. *)
Lemma rejected_range (c : number) :
  rejected c = negb (leb (of_Z 0) c && leb c (of_Z 100)).
Proof.
  unfold rejected, gtb. destruct (isNaN c) eqn:Nn.
  - destruct c; try discriminate. reflexivity.
  - cbn [orb].
    assert (A : ltb c (of_Z 0) = negb (leb (of_Z 0) c)).
    { destruct (leb (of_Z 0) c) eqn:E.
      - apply Order.leb_not_gtb. exact E.
      - apply Order.leb_false_ltb; [reflexivity|exact Nn|exact E]. }
    assert (B : ltb (of_Z 100) c = negb (leb c (of_Z 100))).
    { destruct (leb c (of_Z 100)) eqn:E.
      - apply Order.leb_not_gtb. exact E.
      - apply Order.leb_false_ltb; [exact Nn|reflexivity|exact E]. }
    rewrite A, B. destruct (leb (of_Z 0) c), (leb c (of_Z 100)); reflexivity.
Qed.

Lemma accepted_nonneg (c : number) :
  is_number c = true -> rejected c = false ->
  nonneg c /\ leb c (of_Z 100) = true.
Proof.
  intros V R. rewrite rejected_range in R.
  apply negb_false_iff, andb_true_iff in R. destruct R as [L U].
  split; [|exact U].
  apply (nonneg_between c (of_Z 100) V L U).
  split; [reflexivity|exact I].
Qed.

Lemma predict_top (c : number) :
  geb c top_score = true ->
  predict c
  = {| low := of_Z 1; medium := of_Z 1; high := of_Z 1; composite := c;
       percentile := Some "Top 0.01%"; rankBand := Some "Elite";
       competitionLevel := Some "Extremely High" |}.
Proof. intros H. unfold predict. fold top_score. rewrite H. reflexivity. Qed.

Lemma bottom_below_top (c : number) :
  leb c bottom_score = true -> geb c top_score = false.
Proof.
  intros H. unfold geb. destruct (leb top_score c) eqn:E; [|reflexivity].
  pose proof (Order.leb_trans _ _ _ E H) as F. vm_compute in F. discriminate.
Qed.

Lemma predict_bottom (c : number) :
  leb c bottom_score = true ->
  predict c
  = {| low := of_Z 250000; medium := of_Z 260000; high := of_Z 270000;
       composite := c;
       percentile := Some "Bottom 20%"; rankBand := Some "Lower";
       competitionLevel := Some "Moderate" |}.
Proof.
  intros H. unfold predict. fold top_score bottom_score.
  rewrite (bottom_below_top c H), H. reflexivity.
Qed.

(** Between the two ends the loop finds the score, and the rank lies
    between the ranks of the table. *)
Lemma predict_between (c : number) :
  nonneg c -> geb c top_score = false -> leb c bottom_score = false ->
  exists res,
    interpolate kcet2025RankTable c = Some res /\ predict c = res
    /\ nonneg (medium res)
    /\ leb (of_Z 81) (medium res) = true
    /\ leb (medium res) (of_Z 259000) = true.
Proof.
  intros N T B.
  assert (Nn := nonneg_not_nan c N).
  assert (U : leb c top_score = true).
  { apply Order.ltb_leb. apply Order.leb_false_ltb; [reflexivity|exact Nn|exact T]. }
  assert (L : ltb bottom_score c = true)
    by (apply Order.leb_false_ltb; [exact Nn|reflexivity|exact B]).
  destruct (interpolate_inside kcet2025RankTable first_entry
              kcet2025RankTable_ok eq_refl c N U L) as (res & E & Nm & Lo & Hi).
  exists res. split; [exact E|]. split.
  - unfold predict. fold top_score bottom_score. rewrite T, B, E. reflexivity.
  - split; [exact Nm|]. split; [exact Lo|exact Hi].
Qed.

(** The rank falls as the score grows, over the three ranges. *)
Lemma predict_antitone (a b : number) :
  nonneg a -> nonneg b -> leb a b = true ->
  leb (medium (predict b)) (medium (predict a)) = true.
Proof.
  intros Na Nb H.
  destruct (geb b top_score) eqn:Tb.
  - rewrite (predict_top b Tb). cbn [medium].
    destruct (geb a top_score) eqn:Ta.
    + rewrite (predict_top a Ta). reflexivity.
    + destruct (leb a bottom_score) eqn:Ba.
      * rewrite (predict_bottom a Ba). reflexivity.
      * destruct (predict_between a Na Ta Ba) as (res & _ & -> & _ & Lo & _).
        apply (Order.leb_trans _ (of_Z 81)); [reflexivity|exact Lo].
  - assert (Ta : geb a top_score = false).
    { unfold geb in *. destruct (leb top_score a) eqn:E; [|reflexivity].
      pose proof (Order.leb_trans _ _ _ E H). congruence. }
    destruct (leb b bottom_score) eqn:Bb.
    + assert (Ba : leb a bottom_score = true)
        by (eapply Order.leb_trans; eassumption).
      rewrite (predict_bottom a Ba), (predict_bottom b Bb). reflexivity.
    + destruct (predict_between b Nb Tb Bb) as (rb & Eb & Pb & _ & _ & Hi).
      destruct (leb a bottom_score) eqn:Ba.
      * rewrite (predict_bottom a Ba), Pb. cbn [medium].
        apply (Order.leb_trans _ _ _ Hi). reflexivity.
      * destruct (predict_between a Na Ta Ba) as (ra & Ea & Pa & _).
        assert (U : leb b top_score = true).
        { apply Order.ltb_leb. apply Order.leb_false_ltb;
            [reflexivity|apply nonneg_not_nan, Nb|exact Tb]. }
        assert (L : ltb bottom_score a = true)
          by (apply Order.leb_false_ltb;
              [apply nonneg_not_nan, Na|reflexivity|exact Ba]).
        destruct (interpolate_antitone kcet2025RankTable first_entry
                    kcet2025RankTable_ok eq_refl a b Na Nb H U L)
          as (ra' & rb' & Ea' & Eb' & M).
        rewrite Pa, Pb.
        assert (ra' = ra) by congruence. assert (rb' = rb) by congruence.
        subst. exact M.
Qed.

End Predict.

(** ** The band around the rank *)

Module Bands.
Import Rounding Values Exact Ops Round Growing Interpolation Predict.

Lemma mul_comm (x y : number) : mul x y = mul y x.
Proof.
  destruct x as [[]|[]| |sx mx ex], y as [[]|[]| |sy my ey];
    try reflexivity; unfold mul; cbn [SFmul];
    try (destruct sx; reflexivity); try (destruct sy; reflexivity).
  rewrite (Pos.mul_comm mx my), (Z.add_comm ex ey), (xorb_comm sx sy).
  reflexivity.
Qed.

Lemma mul_one (x : number) : nonneg x -> mul x one = x.
Proof.
  intros [V S]. destruct x as [[]| | |[] m e]; try contradiction;
    try reflexivity.
  destruct (bounded_facts m e V) as (U & L & R & C).
  change one with (S754_finite false 4503599627370496 (-52)).
  unfold mul. cbn [SFmul xorb].
  assert (E : Zpos (m * 4503599627370496) = Zpos m * 2 ^ 52)
    by (rewrite Pos2Z.inj_mul; reflexivity).
  assert (D : Zdigits2 (Zpos (m * 4503599627370496)) + (e + -52)
              = Zdigits2 (Zpos m) + e)
    by (rewrite E, Zdigits2_shift by lia; lia).
  rewrite (binary_round_aux_exact false _ _ (Zpos m)).
  - rewrite D, C. unfold finish.
    destruct (Z.eqb_spec (Zpos m) (2 ^ 53)); [lia|].
    destruct (Z.leb_spec e 971); [reflexivity|lia].
  - split; [lia|]. rewrite D, C. lia.
  - rewrite D, C, E. f_equal. f_equal. lia.
Qed.

(** Rounding a positive integer below 2^53 keeps it. *)
Lemma binary_round_integer (p : positive) :
  Zpos p < 2 ^ 53 ->
  exists q : positive,
    Zpos q = Zpos p * 2 ^ (53 - Zdigits2 (Zpos p))
    /\ binary_round prec emax false p 0
       = S754_finite false q (Zdigits2 (Zpos p) - 53).
Proof.
  intros U.
  destruct (Zdigits2_bounds (Zpos p) ltac:(lia)) as (Hd & Lp & Up).
  set (d := Zdigits2 (Zpos p)) in *.
  assert (Hd53 : d <= 53).
  { assert (d - 1 < 53) by (apply pow2_lt_exp; lia). lia. }
  destruct (binary_round_unfold false p 0) as (-> & Lg & F).
  destruct (shl_align_spec p 0 (fexp prec emax (Zpos (digits2_pos p) + 0)))
    as [A B].
  set (r := shl_align p 0 _) in *.
  change (Zpos (digits2_pos p)) with d in A.
  change (Zdigits2 (Zpos p)) with d in F.
  assert (F' : fexp prec emax (Zdigits2 (Zpos (fst r)) + snd r) = d - 53)
    by (rewrite F, fexp_eq; lia).
  rewrite fexp_eq in A.
  assert (Es : snd r = d - 53) by lia.
  exists (fst r). split; [rewrite B, Es; f_equal; f_equal; lia|].
  rewrite (binary_round_aux_exact false _ _ (Zpos (fst r))); [|exact Lg|].
  - rewrite F'. unfold finish.
    assert (Zpos (fst r) < 2 ^ 53).
    { rewrite B, Es. replace (0 - (d - 53)) with (53 - d) by lia.
      assert (Zpos p * 2 ^ (53 - d) < 2 ^ d * 2 ^ (53 - d)).
      { apply Z.mul_lt_mono_pos_r; [apply Z.pow_pos_nonneg|]; lia. }
      rewrite <- Z.pow_add_r in H by lia.
      replace (d + (53 - d)) with 53 in H by lia. exact H. }
    destruct (Z.eqb_spec (Zpos (fst r)) (2 ^ 53)); [lia|].
    destruct (Z.leb_spec (d - 53) 971); [reflexivity|lia].
  - rewrite F', Es, Z.sub_diag. change (2 ^ 0) with 1. lia.
Qed.

Lemma Math_round_integer_literal (n : Z) :
  0 <= n < 2 ^ 53 ->
  Math_round (binary_normalize prec emax n 0 false)
  = binary_normalize prec emax n 0 false.
Proof.
  intros Hn. destruct n as [|p|p]; [reflexivity| |lia].
  cbn [binary_normalize].
  destruct (binary_round_integer p ltac:(lia)) as (q & Eq & ->).
  destruct (Zdigits2_bounds (Zpos p) ltac:(lia)) as (Hd & Lp & Up).
  set (d := Zdigits2 (Zpos p)) in *.
  destruct (Z_lt_le_dec (d - 53) 0) as [C|C].
  - rewrite Math_round_fraction by exact C.
    replace (- (d - 53)) with (53 - d) by lia.
    replace (1 - (d - 53)) with (53 - d + 1) by lia.
    rewrite Eq, round_half_integer by lia.
    cbn [binary_normalize].
    destruct (binary_round_integer p ltac:(lia)) as (q' & Eq' & ->).
    fold d in Eq' |- *. f_equal. lia.
  - apply Math_round_integer. exact C.
Qed.

(** [Math.round] returns integers: rounding again changes nothing. *)
Lemma Math_round_idempotent (x : number) :
  nonneg x -> Math_round (Math_round x) = Math_round x.
Proof.
  intros [V S]. destruct x as [s| | |[] m e]; try contradiction;
    [reflexivity|].
  destruct (Z_lt_le_dec e 0) as [C|C].
  - rewrite Math_round_fraction by exact C.
    apply Math_round_integer_literal.
    destruct (bounded_facts m e V) as (U & _).
    assert (P : 0 < 2 ^ (- e)) by (apply Z.pow_pos_nonneg; lia).
    assert (Q : 2 ^ (1 - e) = 2 * 2 ^ (- e)).
    { replace (1 - e) with (Z.succ (- e)) by lia.
      apply Z.pow_succ_r. lia. }
    rewrite Q. split.
    + apply Z.div_pos; lia.
    + apply Z.div_lt_upper_bound; [lia|].
      assert (2 <= 2 ^ (- e)).
      { change 2 with (2 ^ 1) at 1. apply Z.pow_le_mono_r; lia. }
      nia.
  - rewrite !Math_round_integer by exact C. reflexivity.
Qed.

Lemma nonneg_one : nonneg one.
Proof. split; [reflexivity|exact I]. Qed.

(** The band of a rounded rank encloses it: [lo <= 1 <= hi] are the
    two factors and [B] bounds the rank. *)
Lemma band_encloses (lo hi B t : number) :
  nonneg lo -> nonneg hi -> leb lo one = true -> leb one hi = true ->
  nonneg B -> nonneg (mul B lo) -> nonneg (mul B hi) ->
  nonneg t -> nonneg (Math_round t) -> leb (Math_round t) B = true ->
  leb (Math_round (mul (Math_round t) lo)) (Math_round t) = true
  /\ leb (Math_round t) (Math_round (mul (Math_round t) hi)) = true.
Proof.
  intros Nlo Nhi Hlo Hhi NB NBlo NBhi Nt Nm Hm.
  set (m := Math_round t) in *.
  assert (Im : Math_round m = m) by (apply Math_round_idempotent; exact Nt).
  destruct (grows_nonneg B (fun x => mul x lo) m
              (grows_mul B lo Nlo NB NBlo) Nm Hm) as [Nl _].
  destruct (grows_nonneg B (fun x => mul x hi) m
              (grows_mul B hi Nhi NB NBhi) Nm Hm) as [Nh _].
  cbv beta in Nl, Nh.
  split.
  - assert (L : leb (mul m lo) m = true).
    { rewrite <- (mul_one m Nm) at 2.
      rewrite (mul_comm m lo), (mul_comm m one).
      exact (mul_mono lo one m Nlo nonneg_one Nm Hlo). }
    rewrite <- Im at 2.
    exact (Math_round_mono _ _ Nl Nm L).
  - assert (L : leb m (mul m hi) = true).
    { rewrite <- (mul_one m Nm) at 1.
      rewrite (mul_comm m hi), (mul_comm m one).
      exact (mul_mono one hi m nonneg_one Nhi Nm Hhi). }
    rewrite <- Im at 1.
    exact (Math_round_mono _ _ Nm Nh L).
Qed.

End Bands.

(** ** The loop finds every score between the ends of the table *)

Module Coverage.

Lemma interpolate_found (table : list entry) : forall first,
  Forall (fun e => isNaN (score e) = false) table ->
  hd_error table = Some first ->
  forall c, isNaN c = false ->
  leb c (score first) = true -> ltb (score (last table first)) c = true ->
  exists cur next,
    In (cur, next) (adjacent table)
    /\ leb (score next) c = true /\ leb c (score cur) = true
    /\ interpolate table c
       = Some (banded (interpolatedRank cur next c) c).
Proof.
  induction table as [|cur rest IH]; intros first F Hd c Nc U L;
    [discriminate|].
  injection Hd as <-.
  destruct rest as [|next rest].
  - cbn [last] in L. apply Order.ltb_not_geb in L. congruence.
  - rewrite (Interpolation.last_cons _ cur next rest cur next) in L.
    rewrite Interpolation.interpolate_cons, U. cbn [andb].
    inversion F as [|? ? _ F']; subst. inversion F' as [|? ? Nn _]; subst.
    destruct (leb (score next) c) eqn:G.
    + exists cur, next. split; [left; reflexivity|]. auto.
    + assert (Lt : ltb c (score next) = true)
        by (apply Order.leb_false_ltb; assumption).
      destruct (IH next F' eq_refl c Nc (Order.ltb_leb _ _ Lt) L)
        as (cur' & next' & I & A & B & E).
      exists cur', next'. split; [right; exact I|]. auto.
Qed.

End Coverage.

(** ** [calculatePercentile] over the pool *)

Module Percentile.
Import Rounding Values Exact Ops Round Growing Interpolation Predict.

Lemma hundredths_nearest (m : positive) (e : Z) :
  nearest_hundredth m e (hundredths m e).
Proof.
  unfold nearest_hundredth, hundredths.
  destruct (Z.leb_spec 0 e) as [C|C]; [reflexivity|].
  assert (P : 0 < 2 ^ (- e)) by (apply Z.pow_pos_nonneg; lia).
  assert (Q : 2 ^ (1 - e) = 2 * 2 ^ (- e)).
  { replace (1 - e) with (Z.succ (- e)) by lia. apply Z.pow_succ_r. lia. }
  rewrite Q. set (p := 2 ^ (- e)) in *.
  pose proof (Z.div_mod (200 * Zpos m + p) (2 * p) ltac:(lia)) as DM.
  pose proof (Z.mod_pos_bound (200 * Zpos m + p) (2 * p) ltac:(lia)) as B.
  set (n := (200 * Zpos m + p) / (2 * p)) in *. lia.
Qed.

Lemma calculatePercentile_unfold (rank : number) :
  calculatePercentile rank = (toFixed2 (percentage rank) ++ "%")%string.
Proof. reflexivity. Qed.

Lemma pool_eq : totalCandidates = pool.
Proof. vm_compute. reflexivity. Qed.

Lemma percentage_of_offset_grows :
  grows pool (fun o => mul (div o pool) (of_Z 100)).
Proof.
  apply (grows_compose pool (fun o => div o pool) (fun q => mul q (of_Z 100))).
  - apply grows_div; apply nonnegb_spec || apply positiveb_spec;
      vm_compute; reflexivity.
  - apply grows_mul; apply nonnegb_spec; vm_compute; reflexivity.
Qed.

(** Within the pool the percentage is a number between 0 and 100. *)
Lemma percentage_range (rank : number) :
  nonneg rank -> leb rank totalCandidates = true ->
  nonneg (percentage rank) /\ leb (percentage rank) (of_Z 100) = true.
Proof.
  intros N H. unfold percentage. rewrite pool_eq in *.
  assert (Pp : positive_number pool) by (apply positiveb_spec; reflexivity).
  destruct (offset_nonneg pool rank Pp N H) as [V Z].
  assert (B : leb (sub pool rank) pool = true)
    by exact (sub_anti pool zero rank Pp nonneg_zero N (zero_leb rank N) H).
  assert (No : nonneg (sub pool rank)).
  { apply (nonneg_between _ pool V Z B). apply positive_nonneg. exact Pp. }
  destruct (grows_nonneg _ _ _ percentage_of_offset_grows No B) as [Np U].
  split; [exact Np|].
  eapply Order.leb_trans; [exact U|]. vm_compute. reflexivity.
Qed.

(** Within the pool, the string is the nearest hundredth of the
    percentage with two decimals. *)
Lemma calculatePercentile_pool (rank : number) :
  nonneg rank -> leb rank totalCandidates = true ->
  exists n,
    calculatePercentile rank = (fixed2 n ++ "%")%string
    /\ 0 <= n <= 10000
    /\ match percentage rank with
       | S754_finite _ m e => nearest_hundredth m e n
       | _ => n = 0
       end.
Proof.
  intros N H. rewrite calculatePercentile_unfold.
  destruct (percentage_range rank N H) as [[V S] U].
  destruct (percentage rank) as [s| | |[] m e]; try contradiction.
  - exists 0. split; [reflexivity|]. split; [lia|reflexivity].
  - exists (hundredths m e).
    change (of_Z 100) with (S754_finite false 7036874417766400 (-46)) in U.
    pose proof (number_exponent _ _ _ V) as Ex.
    assert (V100 : bounded prec emax 7036874417766400 (-46) = true)
      by reflexivity.
    pose proof (proj1 (leb_finite_value 1074 m e 7036874417766400 (-46)
                         V V100 ltac:(lia) ltac:(lia)) U) as Val.
    unfold leb, SFleb in U. cbn [SFcompare] in U.
    assert (He : e <= -46) by (destruct (Z.compare_spec e (-46)); [lia|lia|discriminate]).
    assert (Ee : (0 <=? e) = false) by (apply Z.leb_gt; lia).
    split.
    + unfold toFixed2. rewrite Ee. reflexivity.
    + split; [|apply hundredths_nearest].
      unfold hundredths. rewrite Ee.
      assert (P : 0 < 2 ^ (- e)) by (apply Z.pow_pos_nonneg; lia).
      assert (Q : 2 ^ (1 - e) = 2 * 2 ^ (- e)).
      { replace (1 - e) with (Z.succ (- e)) by lia. apply Z.pow_succ_r. lia. }
      rewrite Q.
      assert (M : Zpos m <= 100 * 2 ^ (- e)).
      { unfold val in Val.
        assert (R : 7036874417766400 * 2 ^ (-46 + 1074)
                    = 100 * 2 ^ (- e) * 2 ^ (e + 1074)).
        { rewrite <- Z.mul_assoc, <- Z.pow_add_r by lia.
          replace (- e + (e + 1074)) with 1074 by lia. reflexivity. }
        rewrite R in Val.
        apply Z.mul_le_mono_pos_r in Val; [exact Val|].
        apply Z.pow_pos_nonneg; lia. }
      split.
      * apply Z.div_pos; lia.
      * assert ((200 * Zpos m + 2 ^ (- e)) / (2 * 2 ^ (- e)) < 10001)
          by (apply Z.div_lt_upper_bound; lia).
        lia.
Qed.

End Percentile.

(** ** Facts about the source used by the claims *)

Module Facts.
Import Rounding Values Exact Ops Round Growing Interpolation Predict Bands.

Lemma top_score_literal : decimal 9622 2 = top_score.
Proof. vm_compute. reflexivity. Qed.

Lemma bottom_score_literal : decimal 3500 2 = bottom_score.
Proof. vm_compute. reflexivity. Qed.

Lemma interpolate_composite (table : list entry) (c : number) :
  forall res, interpolate table c = Some res -> composite res = c.
Proof.
  induction table as [|cur rest IH]; intros res H; [discriminate|].
  destruct rest as [|next rest]; [discriminate|].
  rewrite interpolate_cons in H.
  destruct (leb c (score cur) && leb (score next) c).
  - injection H as <-. reflexivity.
  - apply IH. exact H.
Qed.

Lemma predict_composite (c : number) : composite (predict c) = c.
Proof.
  unfold predict.
  destruct (geb c (score first_entry)); [reflexivity|].
  destruct (leb c (score last_entry)); [reflexivity|].
  destruct (interpolate kcet2025RankTable c) as [res|] eqn:E; [|reflexivity].
  apply (interpolate_composite _ _ _ E).
Qed.

Lemma predictKCETRank_guard (cet puc : number) :
  predictKCETRank cet puc
  = if leb (of_Z 0) (combined cet puc) && leb (combined cet puc) (of_Z 100)
    then Returned (predict (combined cet puc))
    else Thrown invalid_marks.
Proof.
  unfold predictKCETRank. rewrite rejected_range.
  destruct (leb (of_Z 0) (combined cet puc) && leb (combined cet puc) (of_Z 100));
    reflexivity.
Qed.

Lemma adjacent_ok (table : list entry) (cur next : entry) :
  table_ok table = true -> In (cur, next) (adjacent table) ->
  segment_ok cur next = true.
Proof.
  induction table as [|e1 rest IH]; intros OK I; [destruct I|].
  destruct rest as [|e2 rest]; [destruct I|].
  rewrite table_ok_cons in OK. apply andb_true_iff in OK. destruct OK as [O1 O2].
  destruct I as [I|I].
  - injection I as <- <-. exact O1.
  - apply IH; assumption.
Qed.

(** A score strictly between the two ends of the table is a nonnegative
    number when it is a number. *)
Lemma between_ends_nonneg (c : number) :
  is_number c = true ->
  ltb bottom_score c = true -> ltb c top_score = true -> nonneg c.
Proof.
  intros V L U.
  apply (nonneg_between c top_score V).
  - apply Order.ltb_leb.
    apply (Order.leb_ltb_trans _ bottom_score); [reflexivity|exact L].
  - apply Order.ltb_leb. exact U.
  - apply nonnegb_spec. reflexivity.
Qed.

Lemma between_ends_accepted (c : number) :
  ltb bottom_score c = true -> ltb c top_score = true -> rejected c = false.
Proof.
  intros L U. rewrite rejected_range. apply negb_false_iff, andb_true_iff.
  split.
  - apply Order.ltb_leb.
    apply (Order.leb_ltb_trans _ bottom_score); [reflexivity|exact L].
  - apply Order.ltb_leb.
    apply (Order.ltb_leb_trans _ top_score); [exact U|reflexivity].
Qed.

(** The two band factors and the largest rank of the table. *)
Lemma band_factors :
  nonneg (decimal 95 2) /\ nonneg (decimal 105 2)
  /\ leb (decimal 95 2) one = true /\ leb one (decimal 105 2) = true
  /\ nonneg (of_Z 259000)
  /\ nonneg (mul (of_Z 259000) (decimal 95 2))
  /\ nonneg (mul (of_Z 259000) (decimal 105 2)).
Proof.
  repeat (split; [first [apply nonnegb_spec; vm_compute; reflexivity
                        | vm_compute; reflexivity]|]).
  apply nonnegb_spec; vm_compute; reflexivity.
Qed.

(** For every key that [Object.prototype] does not define, the
    suggestion is the one of the category's table, the general table
    for an unknown category. *)
Lemma getCollegeSuggestions_plain_key (rank : number) (category : string) :
  existsb (String.eqb category) Object_prototype_keys = false ->
  getCollegeSuggestions rank category
  = Returned (first_at_least rank (table_of category)).
Proof.
  intros H. unfold getCollegeSuggestions, colleges, table_of, first_at_least.
  rewrite H.
  destruct (String.eqb category "general"); [reflexivity|].
  destruct (String.eqb category "obc"); [reflexivity|].
  destruct (String.eqb category "sc"); [reflexivity|].
  destruct (String.eqb category "st"); reflexivity.
Qed.

End Facts.

(** * The claims *)

Import Rounding Values Exact Ops Round Growing Interpolation Predict Bands.
Import Coverage Percentile Facts.

(** C1.  [predictKCETRank] throws exactly when the combined score
    [0.6 * (cet / 180 * 100) + 0.4 * puc] is NaN or lies outside the
    closed interval [0, 100]; for every other pair of marks it returns a
    prediction, whose composite is the combined score.  So
    [predictKCETRank(NaN, 50)] throws, as do marks whose combined score
    is above 100 or below 0, while marks outside 0-180 and 0-100 whose
    combined score is in range are not rejected. *)
Theorem predictKCETRank_throws_exactly_outside_range :
  (forall cet puc : number,
     predictKCETRank cet puc
     = if leb (of_Z 0) (combined cet puc) && leb (combined cet puc) (of_Z 100)
       then Returned (predict (combined cet puc))
       else Thrown invalid_marks)
  /\ (forall c : number, composite (predict c) = c)
  /\ predictKCETRank NaN (of_Z 50) = Thrown invalid_marks
  /\ predictKCETRank (of_Z 180) (of_Z 101) = Thrown invalid_marks
  /\ predictKCETRank (of_Z (-1)) (of_Z 0) = Thrown invalid_marks
  /\ predictKCETRank (of_Z 240) (of_Z 0)
     = Returned (predict (combined (of_Z 240) (of_Z 0)))
  /\ predictKCETRank (of_Z 0) (of_Z 150)
     = Returned (predict (combined (of_Z 0) (of_Z 150))).
Proof.
  split; [exact predictKCETRank_guard|].
  split; [exact predict_composite|].
  repeat split; vm_compute; reflexivity.
Qed.

(** C2.  For two pairs of marks whose combined scores [a < b] are both
    accepted, the medium rank of [a] is greater than or equal to the
    medium rank of [b]. *)
Theorem predictKCETRank_higher_score_no_worse_rank
    (cet1 puc1 cet2 puc2 : number) :
  is_number cet1 = true -> is_number puc1 = true ->
  is_number cet2 = true -> is_number puc2 = true ->
  rejected (combined cet1 puc1) = false ->
  rejected (combined cet2 puc2) = false ->
  ltb (combined cet1 puc1) (combined cet2 puc2) = true ->
  exists ra rb,
    predictKCETRank cet1 puc1 = Returned ra
    /\ predictKCETRank cet2 puc2 = Returned rb
    /\ geb (medium ra) (medium rb) = true.
Proof.
  intros V1 V2 V3 V4 Ra Rb H.
  destruct (accepted_nonneg _ (combined_valid _ _ V1 V2) Ra) as [Na _].
  destruct (accepted_nonneg _ (combined_valid _ _ V3 V4) Rb) as [Nb _].
  exists (predict (combined cet1 puc1)), (predict (combined cet2 puc2)).
  unfold predictKCETRank. rewrite Ra, Rb.
  split; [reflexivity|]. split; [reflexivity|].
  apply predict_antitone; try assumption. apply Order.ltb_leb. exact H.
Qed.

Lemma predictKCETRank_higher_score_no_worse_rank_witness :
  ltb (combined (of_Z 100) (of_Z 60)) (combined (of_Z 162) (of_Z 96)) = true
  /\ exists ra rb,
       predictKCETRank (of_Z 100) (of_Z 60) = Returned ra
       /\ predictKCETRank (of_Z 162) (of_Z 96) = Returned rb
       /\ geb (medium ra) (medium rb) = true.
Proof.
  split; [vm_compute; reflexivity|].
  apply (predictKCETRank_higher_score_no_worse_rank
           (of_Z 100) (of_Z 60) (of_Z 162) (of_Z 96));
    vm_compute; reflexivity.
Defined.

(** C3, as the claim states it, fails: the guard comes first, and marks
    whose combined score is above 100, so at least 96.22, or below 0,
    so at most 35.00, are rejected. *)
Lemma predictKCETRank_rejects_before_boundary :
  geb (combined (of_Z 180) (of_Z 110)) (decimal 9622 2) = true
  /\ predictKCETRank (of_Z 180) (of_Z 110) = Thrown invalid_marks
  /\ leb (combined (of_Z (-18)) (of_Z 0)) (decimal 3500 2) = true
  /\ predictKCETRank (of_Z (-18)) (of_Z 0) = Thrown invalid_marks.
Proof. repeat split; vm_compute; reflexivity. Qed.

(** C3, amended.  Among the scores that pass the guard, one that is at
    least the highest calibration score 96.22 gets the ranks 1, 1, 1,
    and one that is at most the lowest calibration score 35.00 gets the
    ranks 250000, 260000, 270000. *)
Theorem predictKCETRank_boundary_ranks (cet puc : number) :
  rejected (combined cet puc) = false ->
  (geb (combined cet puc) (decimal 9622 2) = true ->
   exists r, predictKCETRank cet puc = Returned r
     /\ low r = of_Z 1 /\ medium r = of_Z 1 /\ high r = of_Z 1)
  /\ (leb (combined cet puc) (decimal 3500 2) = true ->
      exists r, predictKCETRank cet puc = Returned r
        /\ low r = of_Z 250000 /\ medium r = of_Z 260000
        /\ high r = of_Z 270000).
Proof.
  intros R. unfold predictKCETRank. rewrite R.
  rewrite top_score_literal, bottom_score_literal. split; intros H.
  - eexists. split; [reflexivity|]. rewrite (predict_top _ H). auto.
  - eexists. split; [reflexivity|]. rewrite (predict_bottom _ H). auto.
Qed.

Lemma predictKCETRank_boundary_ranks_witness :
  (exists r, predictKCETRank (of_Z 180) (of_Z 100) = Returned r
     /\ low r = of_Z 1 /\ medium r = of_Z 1 /\ high r = of_Z 1)
  /\ (exists r, predictKCETRank (of_Z 36) (of_Z 50) = Returned r
        /\ low r = of_Z 250000 /\ medium r = of_Z 260000
        /\ high r = of_Z 270000).
Proof.
  split.
  - apply (predictKCETRank_boundary_ranks (of_Z 180) (of_Z 100));
      vm_compute; reflexivity.
  - apply (predictKCETRank_boundary_ranks (of_Z 36) (of_Z 50));
      vm_compute; reflexivity.
Defined.

(** C4.  [predictKCETRank(0, 0)] has the combined score 0, below the
    lowest calibration score, and the medium rank 260000; its rank band
    is the fixed label "Lower" of that branch, although [getRankBand]
    calls the rank 260000 "Very Poor". *)
Theorem predictKCETRank_zero_marks_band :
  predictKCETRank (of_Z 0) (of_Z 0)
  = Returned {| low := of_Z 250000; medium := of_Z 260000;
                high := of_Z 270000; composite := of_Z 0;
                percentile := Some "Bottom 20%"; rankBand := Some "Lower";
                competitionLevel := Some "Moderate" |}
  /\ leb (of_Z 0) (decimal 3500 2) = true
  /\ getRankBand (of_Z 260000) = "Very Poor".
Proof. repeat split; vm_compute; reflexivity. Qed.

(** C5, as the claim states it, fails: the medium rank of
    [predictKCETRank(162, 96)] is 691, the integer part of
    308 + (94.06 - 92.4) / (94.06 - 90.00) * (1245 - 308) = 691.1...,
    and not 714. *)
Lemma predictKCETRank_162_96_medium_is_not_714 :
  (exists r, predictKCETRank (of_Z 162) (of_Z 96) = Returned r
     /\ medium r = of_Z 691
     /\ SFeqb (medium r) (of_Z 714) = false)
  /\ (308 * 406 + 166 * 937) / 406 = 691.
Proof.
  split; [|reflexivity].
  eexists. split; [vm_compute; reflexivity|].
  split; vm_compute; reflexivity.
Qed.

(** C5, amended.  [predictKCETRank(162, 96)] has the combined score
    92.4, between the calibration points (94.06, 308) and
    (90.00, 1245); it interpolates between these two and returns the
    medium rank 691 with the band 656 to 726 and the rank band
    "Excellent". *)
Theorem predictKCETRank_162_96 :
  combined (of_Z 162) (of_Z 96) = decimal 924 1
  /\ leb (decimal 9000 2) (decimal 924 1) = true
  /\ leb (decimal 924 1) (decimal 9406 2) = true
  /\ predictKCETRank (of_Z 162) (of_Z 96)
     = Returned (banded (interpolatedRank (point 9406 308) (point 9000 1245)
                                          (decimal 924 1))
                        (decimal 924 1))
  /\ predictKCETRank (of_Z 162) (of_Z 96)
     = Returned {| low := of_Z 656; medium := of_Z 691; high := of_Z 726;
                   composite := decimal 924 1;
                   percentile := Some "99.73%";
                   rankBand := Some "Excellent";
                   competitionLevel := Some "Very High" |}.
Proof. repeat split; vm_compute; reflexivity. Qed.

(** C6.  For every prediction that is not one of the two boundary
    cases, [low] is [Math.round(medium * 0.95)] and [high] is
    [Math.round(medium * 1.05)]; the medium rank is positive there, and
    [low <= medium <= high]. *)
Theorem predictKCETRank_band_around_medium (cet puc : number) :
  is_number cet = true -> is_number puc = true ->
  rejected (combined cet puc) = false ->
  geb (combined cet puc) (decimal 9622 2) = false ->
  leb (combined cet puc) (decimal 3500 2) = false ->
  exists r,
    predictKCETRank cet puc = Returned r
    /\ low r = Math_round (mul (medium r) (decimal 95 2))
    /\ high r = Math_round (mul (medium r) (decimal 105 2))
    /\ ltb (of_Z 0) (medium r) = true
    /\ leb (low r) (medium r) = true
    /\ leb (medium r) (high r) = true.
Proof.
  intros Vc Vp R T B. rewrite top_score_literal in T.
  rewrite bottom_score_literal in B.
  destruct (accepted_nonneg _ (combined_valid _ _ Vc Vp) R) as [N _].
  set (c := combined cet puc) in *.
  assert (Nn := nonneg_not_nan c N).
  assert (U : leb c top_score = true).
  { apply Order.ltb_leb.
    apply Order.leb_false_ltb; [reflexivity|exact Nn|exact T]. }
  assert (L : ltb bottom_score c = true)
    by (apply Order.leb_false_ltb; [exact Nn|reflexivity|exact B]).
  destruct (interpolate_found kcet2025RankTable first_entry
              ltac:(repeat constructor) eq_refl c Nn U L)
    as (cur & next & I & Lo & Hi & E).
  pose proof (adjacent_ok _ _ _ kcet2025RankTable_ok I) as OK.
  destruct (predict_between c N T B) as (res & E' & P & Nm & M81 & M259).
  rewrite E in E'. injection E' as <-.
  exists (banded (interpolatedRank cur next c) c).
  unfold predictKCETRank. fold c. rewrite R, P.
  split; [reflexivity|]. split; [reflexivity|]. split; [reflexivity|].
  split.
  - apply (Order.ltb_leb_trans _ (of_Z 81)); [reflexivity|exact M81].
  - destruct (rank_at_bounds cur next OK c) as (Nr & _).
    { split; [exact N|]. split; assumption. }
    destruct (offset_inside cur next OK c) as [No Bo].
    { split; [exact N|]. split; assumption. }
    destruct band_factors as (F1 & F2 & F3 & F4 & F5 & F6 & F7).
    set (t := interpolatedRank cur next c).
    assert (Nt : nonneg t).
    { unfold t, interpolatedRank.
      pose proof (rank_at_grows cur next OK) as G.
      unfold segment_ok in OK. cbv zeta in OK.
      do 12 (apply andb_true_iff in OK;
             let H := fresh "H" in destruct OK as [OK H]).
      set (d := sub (score cur) (score next)) in *.
      set (rd := sub (rank next) (rank cur)) in *.
      assert (Nd : nonneg d)
        by (apply positive_nonneg, positiveb_spec; assumption).
      assert (G3 : grows d (fun o => add (rank cur) (mul (div o d) rd))).
      { apply (grows_compose d (fun o => mul (div o d) rd)
                 (fun p => add (rank cur) p)).
        - apply (grows_compose d (fun o => div o d) (fun q => mul q rd)).
          + apply grows_div; [apply positiveb_spec; assumption|exact Nd|].
            apply nonnegb_spec; assumption.
          + apply grows_mul; apply nonnegb_spec; assumption.
        - apply grows_add; [apply positiveb_spec; assumption| |];
            apply nonnegb_spec; assumption. }
      exact (proj1 (grows_nonneg _ _ _ G3 No Bo)). }
    exact (band_encloses _ _ _ t F1 F2 F3 F4 F5 F6 F7 Nt Nm M259).
Qed.

Lemma predictKCETRank_band_around_medium_witness :
  exists r,
    predictKCETRank (of_Z 162) (of_Z 96) = Returned r
    /\ low r = Math_round (mul (medium r) (decimal 95 2))
    /\ high r = Math_round (mul (medium r) (decimal 105 2))
    /\ ltb (of_Z 0) (medium r) = true
    /\ leb (low r) (medium r) = true
    /\ leb (medium r) (high r) = true.
Proof.
  apply (predictKCETRank_band_around_medium (of_Z 162) (of_Z 96));
    vm_compute; reflexivity.
Defined.

(** C7.  A score strictly between 35.00 and 96.22 is bracketed by an
    adjacent pair of the calibration table,
    [next.score <= score <= current.score], so the interpolation loop
    produces the result and the nearest-neighbour fallback is not
    reached. *)
Theorem interpolation_covers_the_table (c : number) :
  ltb (decimal 3500 2) c = true -> ltb c (decimal 9622 2) = true ->
  exists cur next,
    In (cur, next) (adjacent kcet2025RankTable)
    /\ leb (score next) c = true /\ leb c (score cur) = true
    /\ interpolate kcet2025RankTable c
       = Some (banded (interpolatedRank cur next c) c)
    /\ predict c = banded (interpolatedRank cur next c) c
    /\ rejected c = false.
Proof.
  rewrite top_score_literal, bottom_score_literal. intros L U.
  assert (Nn : isNaN c = false) by (eapply Order.ltb_not_nan_l; exact U).
  destruct (interpolate_found kcet2025RankTable first_entry
              ltac:(repeat constructor) eq_refl c Nn (Order.ltb_leb _ _ U) L)
    as (cur & next & I & Lo & Hi & E).
  exists cur, next. repeat (split; [assumption|]).
  split; [|apply between_ends_accepted; assumption].
  unfold predict. fold top_score bottom_score. unfold geb.
  rewrite (Order.ltb_not_geb _ _ U), (Order.ltb_not_geb _ _ L), E.
  reflexivity.
Qed.

Lemma interpolation_covers_the_table_witness :
  exists cur next,
    In (cur, next) (adjacent kcet2025RankTable)
    /\ leb (score next) (decimal 924 1) = true
    /\ leb (decimal 924 1) (score cur) = true
    /\ interpolate kcet2025RankTable (decimal 924 1)
       = Some (banded (interpolatedRank cur next (decimal 924 1))
                      (decimal 924 1))
    /\ predict (decimal 924 1)
       = banded (interpolatedRank cur next (decimal 924 1)) (decimal 924 1)
    /\ rejected (decimal 924 1) = false.
Proof.
  apply (interpolation_covers_the_table (decimal 924 1));
    vm_compute; reflexivity.
Defined.

(** C8.  [getCollegeSuggestions(500, "general")] returns the row
    "MSRIT, PESIT, BMSIT" with the branches "CSE, ECE, ISE", and an
    unknown category such as "xyz" falls back on the general table; but
    for the category "constructor" the object [colleges] yields the
    inherited [Object.prototype.constructor], which is kept by [||] and
    has no [find]: the call throws. *)
Theorem getCollegeSuggestions_inherited_key_throws :
  getCollegeSuggestions (of_Z 500) "constructor"
  = Thrown "suggestions.find is not a function"
  /\ getCollegeSuggestions (of_Z 500) "general"
     = Returned (row 1200 "MSRIT, PESIT, BMSIT" "CSE, ECE, ISE")
  /\ getCollegeSuggestions (of_Z 500) "xyz"
     = Returned (row 1200 "MSRIT, PESIT, BMSIT" "CSE, ECE, ISE")
  /\ getCollegeSuggestions (of_Z 30001) "general" = Returned other_colleges.
Proof. repeat split; vm_compute; reflexivity. Qed.

(** C9, as the claim states it, fails: not every rank gets a percentage
    rounded to two decimal places.  For the rank 260000 * 2^70, an
    integer, the percentage is -100 * 2^70, of magnitude above 10^21,
    and [toFixed(2)] writes it in exponent notation, where two decimal
    places would give -118059162071741130342400.00; and for the rank
    NaN the result is "NaN%". *)
Lemma calculatePercentile_beyond_two_decimals :
  percentage (of_Z (260000 * 2 ^ 70)) = S754_finite true 7036874417766400 24
  /\ 7036874417766400 * 2 ^ 24 = 100 * 2 ^ 70
  /\ calculatePercentile (of_Z (260000 * 2 ^ 70))
     = "-1.1805916207174113e+23%"%string
  /\ ("-" ++ fixed2 (hundredths 7036874417766400 24) ++ "%")%string
     = "-118059162071741130342400.00%"%string
  /\ calculatePercentile NaN = "NaN%"%string.
Proof. repeat split; vm_compute; reflexivity. Qed.

(** C9, amended.  [calculatePercentile(rank)] is
    [((260000 - rank) / 260000 * 100).toFixed(2)] followed by "%", for
    every rank.  When the percentage computed is a finite number of
    magnitude below 10^21, this is its magnitude rounded to the nearest
    hundredth, the larger one at a tie, written with two decimals after
    a "-" for a negative percentage; a zero gives "0.00%".  For a
    magnitude of 10^21 or more it is the exponent notation of the
    number, and for NaN and the infinities it is "NaN%", "Infinity%"
    and "-Infinity%".  For every rank of the pool, from 0 to 260000,
    the result lies between "0.00%" and "100.00%";
    [calculatePercentile(1000)] is "99.62%", and beyond the pool
    [calculatePercentile(270000)] is "-3.85%" and
    [calculatePercentile(260001)] is "-0.00%", while the rank
    -260000 * 2^70 gets the exponent notation "1.1805916207174113e+23%". *)
Theorem calculatePercentile_two_decimals :
  (forall rank : number,
     match percentage rank with
     | S754_finite s m e =>
         if (0 <=? e) && (10 ^ 21 <=? Zpos m * 2 ^ e)
         then calculatePercentile rank
              = ((if s then "-" else "") ++ exponential m e ++ "%")%string
         else exists n,
             calculatePercentile rank
             = ((if s then "-" else "") ++ fixed2 n ++ "%")%string
             /\ 0 <= n /\ nearest_hundredth m e n
     | S754_zero _ => calculatePercentile rank = "0.00%"%string
     | S754_infinity s =>
         calculatePercentile rank
         = (if s then "-Infinity%" else "Infinity%")%string
     | S754_nan => calculatePercentile rank = "NaN%"%string
     end)
  /\ (forall rank : number,
        is_number rank = true -> leb (of_Z 0) rank = true ->
        leb rank totalCandidates = true ->
        exists n,
          calculatePercentile rank = (fixed2 n ++ "%")%string
          /\ 0 <= n <= 10000
          /\ match percentage rank with
             | S754_finite _ m e => nearest_hundredth m e n
             | _ => n = 0
             end)
  /\ calculatePercentile (of_Z 1000) = "99.62%"%string
  /\ calculatePercentile (of_Z 270000) = "-3.85%"%string
  /\ calculatePercentile (of_Z 260001) = "-0.00%"%string
  /\ calculatePercentile (of_Z (- 260000 * 2 ^ 70))
     = "1.1805916207174113e+23%"%string.
Proof.
  split; [|split; [|repeat split; vm_compute; reflexivity]].
  - intros rank. rewrite calculatePercentile_unfold.
    destruct (percentage rank) as [s|s| |s m e]; try reflexivity.
    + destruct s; reflexivity.
    + unfold toFixed2.
      destruct ((0 <=? e) && (10 ^ 21 <=? Zpos m * 2 ^ e)) eqn:Big.
      * destruct s; reflexivity.
      * exists (hundredths m e).
        split; [destruct s; reflexivity|]. split; [|apply hundredths_nearest].
        unfold hundredths. destruct (Z.leb_spec 0 e) as [C|C].
        -- assert (0 <= 2 ^ e) by (apply Z.pow_nonneg; lia). nia.
        -- apply Z.div_pos; [|apply Z.pow_pos_nonneg; lia].
           assert (0 <= 2 ^ (- e)) by (apply Z.pow_nonneg; lia). lia.
  - intros rank V L U. apply calculatePercentile_pool; [|exact U].
    apply (nonneg_between rank totalCandidates V L U).
    apply nonnegb_spec. vm_compute. reflexivity.
Qed.

(** C10.  For marks whose combined score lies strictly between 35.00
    and 96.22, the medium rank lies between the ranks of the adjacent
    calibration pair that brackets the score, and so between 81 and
    259000. *)
Theorem predictKCETRank_rank_within_table (cet puc : number) :
  is_number cet = true -> is_number puc = true ->
  ltb (decimal 3500 2) (combined cet puc) = true ->
  ltb (combined cet puc) (decimal 9622 2) = true ->
  exists r cur next,
    predictKCETRank cet puc = Returned r
    /\ In (cur, next) (adjacent kcet2025RankTable)
    /\ leb (score next) (combined cet puc) = true
    /\ leb (combined cet puc) (score cur) = true
    /\ leb (rank cur) (medium r) = true
    /\ leb (medium r) (rank next) = true
    /\ leb (of_Z 81) (medium r) = true
    /\ leb (medium r) (of_Z 259000) = true.
Proof.
  rewrite top_score_literal, bottom_score_literal. intros Vc Vp L U.
  pose proof (combined_valid _ _ Vc Vp) as V.
  set (c := combined cet puc) in *.
  pose proof (between_ends_nonneg c V L U) as N.
  pose proof (between_ends_accepted c L U) as R.
  assert (Nn := nonneg_not_nan c N).
  destruct (interpolate_found kcet2025RankTable first_entry
              ltac:(repeat constructor) eq_refl c Nn (Order.ltb_leb _ _ U) L)
    as (cur & next & I & Lo & Hi & E).
  pose proof (adjacent_ok _ _ _ kcet2025RankTable_ok I) as OK.
  destruct (predict_between c N (Order.ltb_not_geb _ _ U)
              (Order.ltb_not_geb _ _ L)) as (res & E' & P & _ & M81 & M259).
  rewrite E in E'. injection E' as <-.
  destruct (rank_at_bounds cur next OK c) as (_ & B1 & B2).
  { split; [exact N|]. split; assumption. }
  exists (banded (interpolatedRank cur next c) c), cur, next.
  unfold predictKCETRank. fold c. rewrite R, P.
  repeat (split; [first [reflexivity | assumption]|]). assumption.
Qed.

Lemma predictKCETRank_rank_within_table_witness :
  exists r cur next,
    predictKCETRank (of_Z 162) (of_Z 96) = Returned r
    /\ In (cur, next) (adjacent kcet2025RankTable)
    /\ leb (score next) (combined (of_Z 162) (of_Z 96)) = true
    /\ leb (combined (of_Z 162) (of_Z 96)) (score cur) = true
    /\ leb (rank cur) (medium r) = true
    /\ leb (medium r) (rank next) = true
    /\ leb (of_Z 81) (medium r) = true
    /\ leb (medium r) (of_Z 259000) = true.
Proof.
  apply (predictKCETRank_rank_within_table (of_Z 162) (of_Z 96));
    vm_compute; reflexivity.
Defined.

(** * The rest of the source

    Lemmas on the functions that the claims leave out, and on the
    prediction as a whole. *)

(** ** The combined score grows with the marks *)

Module Marks.

Lemma add_comm (x y : number) : add x y = add y x.
Proof.
  destruct x as [[]|[]| |sx mx ex], y as [[]|[]| |sy my ey]; try reflexivity.
  unfold add. cbn [SFadd]. rewrite (Z.min_comm ex ey), Z.add_comm. reflexivity.
Qed.

(** Adding to a nonnegative number grows with the number added. *)
Lemma add_mono_r (r x1 x2 : number) :
  nonneg r -> nonneg x1 -> nonneg x2 ->
  leb x1 x2 = true -> leb (add r x1) (add r x2) = true.
Proof.
  intros [Vr Sr] N1 N2 H.
  destruct r as [sr| | |[] mr er]; try contradiction.
  - destruct N1 as [_ S1], N2 as [_ S2].
    destruct x1 as [s1| | |[] m1 e1], x2 as [s2| | |[] m2 e2];
      try contradiction; try exact H;
      try (destruct sr, s1; reflexivity);
      try (destruct sr, s2; discriminate || reflexivity).
    destruct sr, s1, s2; reflexivity.
  - apply add_mono; try assumption. split; [exact Vr|exact I].
Qed.

Lemma add_mono_l (r x1 x2 : number) :
  nonneg r -> nonneg x1 -> nonneg x2 ->
  leb x1 x2 = true -> leb (add x1 r) (add x2 r) = true.
Proof.
  intros. rewrite (add_comm x1 r), (add_comm x2 r). apply add_mono_r; assumption.
Qed.

Lemma grows_mul_l (b y : number) :
  nonneg y -> nonneg b -> nonneg (mul y b) ->
  grows b (fun x => mul y x).
Proof.
  intros Ny Nb Nt. constructor; try assumption.
  - intros x V. apply mul_valid; [apply Ny|exact V].
  - intros x1 x2 N1 N2 H _. rewrite (mul_comm y x1), (mul_comm y x2).
    apply mul_mono; assumption.
  - destruct Ny as [_ S]. destruct y as [| | |[]]; try contradiction; reflexivity.
Qed.

(** [0.6 * ((cet / 180) * 100)] grows with the KCET marks up to 180,
    where it is 60. *)
Lemma weighted_cet_grows :
  grows (of_Z 180)
    (fun cet => mul (decimal 6 1) (mul (div cet (of_Z 180)) (of_Z 100))).
Proof.
  apply (grows_compose (of_Z 180)
           (fun cet => mul (div cet (of_Z 180)) (of_Z 100))
           (fun k => mul (decimal 6 1) k)).
  - apply (grows_compose (of_Z 180) (fun cet => div cet (of_Z 180))
             (fun q => mul q (of_Z 100))).
    + apply grows_div; apply nonnegb_spec || apply positiveb_spec;
        vm_compute; reflexivity.
    + apply grows_mul; apply nonnegb_spec; vm_compute; reflexivity.
  - apply grows_mul_l; apply nonnegb_spec; vm_compute; reflexivity.
Qed.

(** [0.4 * puc] grows with the PUC marks up to 100, where it is 40. *)
Lemma weighted_puc_grows :
  grows (of_Z 100) (fun puc => mul (decimal 4 1) puc).
Proof. apply grows_mul_l; apply nonnegb_spec; vm_compute; reflexivity. Qed.

Lemma weighted_tops :
  mul (decimal 6 1) (mul (div (of_Z 180) (of_Z 180)) (of_Z 100)) = of_Z 60
  /\ mul (decimal 4 1) (of_Z 100) = of_Z 40
  /\ add (of_Z 60) (of_Z 40) = of_Z 100.
Proof. repeat split; vm_compute; reflexivity. Qed.

(** The combined score grows with either mark, and marks within 0-180
    and 0-100 give a score within 0-100. *)
Lemma combined_grows (cet1 puc1 cet2 puc2 : number) :
  nonneg cet1 -> nonneg cet2 -> nonneg puc1 -> nonneg puc2 ->
  leb cet1 cet2 = true -> leb cet2 (of_Z 180) = true ->
  leb puc1 puc2 = true -> leb puc2 (of_Z 100) = true ->
  nonneg (combined cet1 puc1) /\ nonneg (combined cet2 puc2)
  /\ leb (combined cet1 puc1) (combined cet2 puc2) = true
  /\ leb (combined cet2 puc2) (of_Z 100) = true.
Proof.
  intros Nc1 Nc2 Np1 Np2 Hc Uc Hp Up.
  pose proof (Order.leb_trans _ _ _ Hc Uc) as Uc1.
  pose proof (Order.leb_trans _ _ _ Hp Up) as Up1.
  destruct weighted_tops as (T6 & T4 & T10).
  destruct (grows_nonneg _ _ cet1 weighted_cet_grows Nc1 Uc1) as [Na1 Ua1].
  destruct (grows_nonneg _ _ cet2 weighted_cet_grows Nc2 Uc) as [Na2 Ua2].
  destruct (grows_nonneg _ _ puc1 weighted_puc_grows Np1 Up1) as [Nb1 Ub1].
  destruct (grows_nonneg _ _ puc2 weighted_puc_grows Np2 Up) as [Nb2 Ub2].
  pose proof (grows_mono _ _ weighted_cet_grows cet1 cet2 Nc1 Nc2 Hc Uc) as Ma.
  pose proof (grows_mono _ _ weighted_puc_grows puc1 puc2 Np1 Np2 Hp Up) as Mb.
  cbv beta in *. rewrite T6 in Ua1, Ua2. rewrite T4 in Ub1, Ub2.
  unfold combined.
  set (a1 := mul (decimal 6 1) (mul (div cet1 (of_Z 180)) (of_Z 100))) in *.
  set (a2 := mul (decimal 6 1) (mul (div cet2 (of_Z 180)) (of_Z 100))) in *.
  set (b1 := mul (decimal 4 1) puc1) in *.
  set (b2 := mul (decimal 4 1) puc2) in *.
  assert (N60 : nonneg (of_Z 60)) by (apply nonnegb_spec; vm_compute; reflexivity).
  assert (N40 : nonneg (of_Z 40)) by (apply nonnegb_spec; vm_compute; reflexivity).
  assert (N100 : nonneg (of_Z 100)) by (apply nonnegb_spec; vm_compute; reflexivity).
  assert (Top : forall a b, nonneg a -> nonneg b -> leb a (of_Z 60) = true ->
                  leb b (of_Z 40) = true ->
                  nonneg (add a b) /\ leb (add a b) (of_Z 100) = true).
  { intros a b Na Nb Ua Ub.
    assert (U : leb (add a b) (of_Z 100) = true).
    { rewrite <- T10.
      apply (Order.leb_trans _ (add (of_Z 60) b)).
      - apply add_mono_l; assumption.
      - apply add_mono_r; assumption. }
    split; [|exact U].
    apply (nonneg_between _ (of_Z 100)); [| |exact U|exact N100].
    - apply add_valid; [apply Na|apply Nb].
    - apply (Order.leb_trans _ (add zero b)).
      + apply (Order.leb_trans _ (add zero zero)); [reflexivity|].
        apply add_mono_r; try assumption; try apply nonneg_zero.
        apply zero_leb. exact Nb.
      + apply add_mono_l; try assumption; try apply nonneg_zero.
        apply zero_leb. exact Na. }
  destruct (Top a1 b1 Na1 Nb1 Ua1 Ub1) as [N1 _].
  destruct (Top a2 b2 Na2 Nb2 Ua2 Ub2) as [N2 U2].
  repeat (split; [assumption|]). split; [|exact U2].
  apply (Order.leb_trans _ (add a2 b1)).
  - apply add_mono_l; assumption.
  - apply add_mono_r; assumption.
Qed.

Lemma marks_nonneg (x b : number) :
  is_number x = true -> leb (of_Z 0) x = true -> leb x b = true ->
  nonneg b -> nonneg x.
Proof. intros V L U N. exact (nonneg_between x b V L U N). Qed.

End Marks.

(** ** The three ranks of a prediction *)

Module Ranks.

Lemma accepted (c : number) :
  leb (of_Z 0) c = true -> leb c (of_Z 100) = true -> rejected c = false.
Proof. intros L U. rewrite rejected_range, L, U. reflexivity. Qed.

(** The rank interpolated for a score of a segment is a nonnegative
    number. *)
Lemma interpolatedRank_nonneg (cur next : entry) (c : number) :
  segment_ok cur next = true -> inside cur next c ->
  nonneg (interpolatedRank cur next c).
Proof.
  intros OK In.
  destruct (offset_inside cur next OK c In) as [No Bo].
  unfold interpolatedRank.
  unfold segment_ok in OK. cbv zeta in OK.
  do 12 (apply andb_true_iff in OK;
         let H := fresh "H" in destruct OK as [OK H]).
  set (d := sub (score cur) (score next)) in *.
  set (rd := sub (rank next) (rank cur)) in *.
  assert (Nd : nonneg d)
    by (apply positive_nonneg, positiveb_spec; assumption).
  assert (G3 : grows d (fun o => add (rank cur) (mul (div o d) rd))).
  { apply (grows_compose d (fun o => mul (div o d) rd)
             (fun p => add (rank cur) p)).
    - apply (grows_compose d (fun o => div o d) (fun q => mul q rd)).
      + apply grows_div; [apply positiveb_spec; assumption|exact Nd|].
        apply nonnegb_spec; assumption.
      + apply grows_mul; apply nonnegb_spec; assumption.
    - apply grows_add; [apply positiveb_spec; assumption| |];
        apply nonnegb_spec; assumption. }
  exact (proj1 (grows_nonneg _ _ _ G3 No Bo)).
Qed.

Lemma band_ends :
  Math_round (mul (of_Z 81) (decimal 95 2)) = of_Z 77
  /\ Math_round (mul (of_Z 259000) (decimal 105 2)) = of_Z 271950
  /\ nonneg (of_Z 81).
Proof.
  split; [vm_compute; reflexivity|]. split; [vm_compute; reflexivity|].
  apply nonnegb_spec. vm_compute. reflexivity.
Qed.

(** Between the ends of the table the three ranks are in order, from 77
    to 271950. *)
Lemma interior_ranks (c : number) :
  nonneg c -> geb c top_score = false -> leb c bottom_score = false ->
  let r := predict c in
  leb (of_Z 77) (low r) = true /\ leb (low r) (medium r) = true
  /\ leb (medium r) (high r) = true /\ leb (high r) (of_Z 271950) = true
  /\ rankBand r = Some (getRankBand (medium r))
  /\ percentile r = Some (calculatePercentile (medium r))
  /\ competitionLevel r = Some (getCompetitionLevel c).
Proof.
  intros N T B.
  assert (Nn := nonneg_not_nan c N).
  assert (U : leb c top_score = true).
  { apply Order.ltb_leb.
    apply Order.leb_false_ltb; [reflexivity|exact Nn|exact T]. }
  assert (L : ltb bottom_score c = true)
    by (apply Order.leb_false_ltb; [exact Nn|reflexivity|exact B]).
  destruct (interpolate_found kcet2025RankTable first_entry
              ltac:(repeat constructor) eq_refl c Nn U L)
    as (cur & next & I & Lo & Hi & E).
  pose proof (adjacent_ok _ _ _ kcet2025RankTable_ok I) as OK.
  destruct (predict_between c N T B) as (res & E' & P & Nm & M81 & M259).
  rewrite E in E'. injection E' as <-. cbv zeta. rewrite P.
  assert (In : inside cur next c) by (split; [exact N|]; split; assumption).
  pose proof (interpolatedRank_nonneg cur next c OK In) as Nt.
  destruct band_factors as (F1 & F2 & F3 & F4 & F5 & F6 & F7).
  destruct band_ends as (E77 & E271 & N81).
  cbn [low medium high rankBand percentile competitionLevel banded] in *.
  set (m := Math_round (interpolatedRank cur next c)) in *.
  destruct (band_encloses _ _ _ _ F1 F2 F3 F4 F5 F6 F7 Nt Nm M259) as [Bl Bh].
  fold m in Bl, Bh.
  pose proof (grows_mul (of_Z 259000) (decimal 95 2) F1 F5 F6) as Gl.
  pose proof (grows_mul (of_Z 259000) (decimal 105 2) F2 F5 F7) as Gh.
  destruct (grows_nonneg _ _ m Gl Nm M259) as [Nl _].
  destruct (grows_nonneg _ _ m Gh Nm M259) as [Nh Uh].
  pose proof (Order.leb_trans _ _ _ M81 M259) as M81'.
  destruct (grows_nonneg _ _ (of_Z 81) Gl N81 M81') as [Nl81 _].
  cbv beta in *.
  split.
  { rewrite <- E77. apply Math_round_mono; try assumption.
    apply mul_mono; assumption. }
  split; [exact Bl|]. split; [exact Bh|]. split; [|auto].
  rewrite <- E271. apply Math_round_mono; assumption.
Qed.

End Ranks.

(** ** Ladders of thresholds *)

Module Ladders.

(** One step down a ladder of [if]s: the first test left is decided. *)
Ltac rung :=
  match goal with
  | |- context [if leb ?x ?t then _ else _] => destruct (leb x t) eqn:?
  end.

(** Two numbers in order [H] cannot be told apart the wrong way round
    by a threshold. *)
Ltac crossed H :=
  match goal with
  | H1 : leb ?a ?t = false, H2 : leb ?b ?t = true |- _ =>
      rewrite (Order.leb_trans a b t H H2) in H1; discriminate H1
  | H1 : leb ?t ?a = true, H2 : leb ?t ?b = false |- _ =>
      rewrite (Order.leb_trans t a b H1 H) in H2; discriminate H2
  end.

(** A score at or above a threshold is at or above every lower one. *)
Ltac below :=
  match goal with
  | H1 : leb ?t1 ?s = true, H2 : leb ?t2 ?s = false |- _ =>
      let L := fresh in
      assert (L : leb t2 t1 = true) by (vm_compute; reflexivity);
      rewrite (Order.leb_trans t2 t1 s L H1) in H2; discriminate H2
  end.

End Ladders.

(** ** The bands of [getRankGapAnalysis] *)

Module Gaps.
Import Ladders.

(** The test of [find] on a band whose bounds are parsed. *)
Lemma in_band_row (score : number) (b : band) (lo hi : Z) :
  (nth 0 (bounds b) NaN, nth 1 (bounds b) NaN) = (of_Z lo, of_Z hi) ->
  in_band score b = leb (of_Z lo) score && leb score (of_Z hi).
Proof. intros E. unfold in_band, geb. injection E as -> ->. reflexivity. Qed.

(** The bounds of the first band left in the goal are [lo] and [hi]. *)
Ltac parsed lo hi :=
  match goal with
  | |- context [in_band ?s ?b] =>
      rewrite (in_band_row s b lo hi) by (vm_compute; reflexivity)
  end.

Lemma lower_bound_fails (score lo : number) :
  leb (of_Z 30) score = false -> leb (of_Z 30) lo = true ->
  leb lo score = false.
Proof.
  intros F L. destruct (leb lo score) eqn:E; [|reflexivity].
  rewrite (Order.leb_trans _ _ _ L E) in F. discriminate.
Qed.

Lemma upper_bound_fails (score hi : number) :
  leb score (of_Z 100) = false -> leb hi (of_Z 100) = true ->
  leb score hi = false.
Proof.
  intros F L. destruct (leb score hi) eqn:E; [|reflexivity].
  rewrite (Order.leb_trans _ _ _ E L) in F. discriminate.
Qed.

Lemma next_band (score lo : number) :
  isNaN score = false -> isNaN lo = false -> leb lo score = false ->
  leb score lo = true /\ ltb score lo = true.
Proof.
  intros Nn Nl F.
  pose proof (Order.leb_false_ltb lo score Nl Nn F) as L.
  split; [apply Order.ltb_leb|]; exact L.
Qed.


End Gaps.

(** ** The tables of suggestions *)

Module Suggestions.

Lemma tables_rise (category : string) : rising (table_of category) = true.
Proof.
  unfold table_of.
  destruct (String.eqb category "general"); [vm_compute; reflexivity|].
  destruct (String.eqb category "obc"); [vm_compute; reflexivity|].
  destruct (String.eqb category "sc"); [vm_compute; reflexivity|].
  destruct (String.eqb category "st"); vm_compute; reflexivity.
Qed.

(** In a table whose thresholds rise, the row found has the least
    threshold that is at least the rank. *)
Lemma find_suggestion_least (rank : number) (rows : list suggestion) :
  rising rows = true ->
  forall s, find_suggestion rank rows = Some s ->
  exists t, threshold s = Some t /\ leb rank t = true /\ In s rows
    /\ forall s' t', In s' rows -> threshold s' = Some t' ->
         leb rank t' = true -> leb t t' = true.
Proof.
  induction rows as [|a rest IH]; intros R s F; [discriminate|].
  cbn [rising] in R. apply andb_true_iff in R. destruct R as [R Rr].
  apply andb_true_iff in R. destruct R as [Ra Rf].
  unfold find_suggestion in F. cbn [find] in F.
  destruct (threshold a) as [ta|] eqn:Ta.
  - destruct (leb rank ta) eqn:La.
    + injection F as <-. exists ta. split; [exact Ta|]. split; [exact La|].
      split; [left; reflexivity|].
      intros s' t' [<-|I] T' L'.
      * unfold threshold_leb in Ra. rewrite Ta in Ra.
        rewrite Ta in T'. injection T' as <-. exact Ra.
      * rewrite forallb_forall in Rf. specialize (Rf s' I).
        unfold threshold_leb in Rf. rewrite Ta, T' in Rf. exact Rf.
    + destruct (IH Rr s F) as (t & T & L & I & Least).
      exists t. split; [exact T|]. split; [exact L|]. split; [right; exact I|].
      intros s' t' [<-|I'] T' L'.
      * rewrite Ta in T'. injection T' as <-. congruence.
      * exact (Least s' t' I' T' L').
  - unfold threshold_leb in Ra. rewrite Ta in Ra. discriminate.
Qed.

Lemma find_suggestion_none (rank : number) (rows : list suggestion) :
  find_suggestion rank rows = None ->
  forall s' t', In s' rows -> threshold s' = Some t' -> leb rank t' = false.
Proof.
  intros F s' t' I T.
  pose proof (find_none _ _ F s' I) as N. cbv beta in N.
  rewrite T in N. exact N.
Qed.

End Suggestions.

(** ** The percentile falls as the rank grows *)

Module Falling.

(** The percentage falls as the rank grows, within the pool. *)
Lemma percentage_falls (r1 r2 : number) :
  nonneg r1 -> nonneg r2 ->
  leb r1 r2 = true -> leb r2 totalCandidates = true ->
  leb (percentage r2) (percentage r1) = true.
Proof.
  intros N1 N2 H U. unfold percentage. rewrite pool_eq in *.
  assert (Pp : positive_number pool) by (apply positiveb_spec; reflexivity).
  pose proof (Order.leb_trans _ _ _ H U) as U1.
  destruct (offset_nonneg pool r1 Pp N1 U1) as [V1 Z1].
  destruct (offset_nonneg pool r2 Pp N2 U) as [V2 Z2].
  assert (B1 : leb (sub pool r1) pool = true)
    by exact (sub_anti pool zero r1 Pp nonneg_zero N1 (zero_leb r1 N1) U1).
  assert (B2 : leb (sub pool r2) pool = true)
    by exact (sub_anti pool zero r2 Pp nonneg_zero N2 (zero_leb r2 N2) U).
  assert (No1 : nonneg (sub pool r1)).
  { apply (nonneg_between _ pool V1 Z1 B1). apply positive_nonneg. exact Pp. }
  assert (No2 : nonneg (sub pool r2)).
  { apply (nonneg_between _ pool V2 Z2 B2). apply positive_nonneg. exact Pp. }
  apply (grows_mono _ _ percentage_of_offset_grows); try assumption.
  apply sub_anti; assumption.
Qed.

(** What [toFixed(2)] prints for a number from 0 to 100. *)
Lemma toFixed2_hundredths (x : number) :
  nonneg x -> leb x (of_Z 100) = true ->
  toFixed2 x = fixed2 (hundredths_of x)
  /\ 0 <= hundredths_of x <= 10000
  /\ hundredths_of x = (200 * value 1074 x + 2 ^ 1074) / 2 ^ 1075.
Proof.
  intros [V S] U. destruct x as [s| | |[] m e]; try contradiction.
  - split; [reflexivity|]. split; [cbn; lia|]. reflexivity.
  - change (of_Z 100) with (S754_finite false 7036874417766400 (-46)) in U.
    pose proof (number_exponent _ _ _ V) as Ex.
    assert (V100 : bounded prec emax 7036874417766400 (-46) = true)
      by reflexivity.
    pose proof (proj1 (leb_finite_value 1074 m e 7036874417766400 (-46)
                         V V100 ltac:(lia) ltac:(lia)) U) as Val.
    unfold leb, SFleb in U. cbn [SFcompare] in U.
    assert (He : e <= -46)
      by (destruct (Z.compare_spec e (-46)); [lia|lia|discriminate]).
    assert (Ee : (0 <=? e) = false) by (apply Z.leb_gt; lia).
    assert (P : 0 < 2 ^ (- e)) by (apply Z.pow_pos_nonneg; lia).
    assert (Q : 2 ^ (1 - e) = 2 * 2 ^ (- e)).
    { replace (1 - e) with (Z.succ (- e)) by lia. apply Z.pow_succ_r. lia. }
    assert (W : 0 < 2 ^ (e + 1074)) by (apply Z.pow_pos_nonneg; lia).
    assert (K : 2 ^ (- e) * 2 ^ (e + 1074) = 2 ^ 1074).
    { rewrite <- Z.pow_add_r by lia. f_equal. lia. }
    assert (K' : 2 ^ 1075 = 2 * 2 ^ 1074) by reflexivity.
    cbn [hundredths_of value]. unfold toFixed2, hundredths. rewrite Ee.
    cbn [andb]. split; [reflexivity|].
    assert (F : (200 * Zpos m + 2 ^ (- e)) / 2 ^ (1 - e)
                = (200 * val 1074 m e + 2 ^ 1074) / 2 ^ 1075).
    { unfold val. rewrite Q, K', <- K.
      replace (200 * (Zpos m * 2 ^ (e + 1074)) + 2 ^ (- e) * 2 ^ (e + 1074))
        with ((200 * Zpos m + 2 ^ (- e)) * 2 ^ (e + 1074)) by ring.
      replace (2 * (2 ^ (- e) * 2 ^ (e + 1074)))
        with (2 * 2 ^ (- e) * 2 ^ (e + 1074)) by ring.
      symmetry. apply Z.div_mul_cancel_r; lia. }
    split; [|exact F].
    assert (M : Zpos m <= 100 * 2 ^ (- e)).
    { unfold val in Val.
      assert (R : 7036874417766400 * 2 ^ (-46 + 1074)
                  = 100 * 2 ^ (- e) * 2 ^ (e + 1074)).
      { rewrite <- Z.mul_assoc, K. reflexivity. }
      rewrite R in Val.
      apply Z.mul_le_mono_pos_r in Val; [exact Val|exact W]. }
    rewrite Q. split.
    + apply Z.div_pos; lia.
    + assert ((200 * Zpos m + 2 ^ (- e)) / (2 * 2 ^ (- e)) < 10001)
        by (apply Z.div_lt_upper_bound; lia).
      lia.
Qed.

Lemma hundredths_of_mono (x y : number) :
  nonneg x -> nonneg y -> leb x y = true -> leb y (of_Z 100) = true ->
  hundredths_of x <= hundredths_of y.
Proof.
  intros Nx Ny H U.
  pose proof (Order.leb_trans _ _ _ H U) as Ux.
  destruct (toFixed2_hundredths x Nx Ux) as (_ & _ & ->).
  destruct (toFixed2_hundredths y Ny U) as (_ & _ & ->).
  pose proof (proj1 (leb_value 1074 x y ltac:(lia) Nx Ny) H) as V.
  apply Z.div_le_mono; [reflexivity|]. lia.
Qed.

End Falling.

(** ** The fallback loop *)

Module Fallback.

Lemma ltb_irrefl (x : number) : ltb x x = false.
Proof.
  destruct (ltb x x) eqn:E; [|reflexivity].
  pose proof (Order.ltb_not_geb _ _ E) as F.
  rewrite (Order.ltb_leb _ _ E) in F. discriminate.
Qed.

Lemma ltb_trans (x y z : number) :
  ltb x y = true -> ltb y z = true -> ltb x z = true.
Proof.
  intros A B. apply (Order.ltb_leb_trans _ y); [exact A|].
  apply Order.ltb_leb. exact B.
Qed.

(** The loop keeps an entry it has seen, than which none seen is
    nearer. *)
Lemma closest_from_nearest (c : number) (table : list entry) :
  forall (seen : list entry) (closest : entry),
  In closest seen ->
  (forall e, In e seen -> ltb (distance c e) (distance c closest) = false) ->
  let r := closest_from table c closest (distance c closest) in
  In r (seen ++ table)%list
  /\ forall e, In e (seen ++ table)%list ->
       ltb (distance c e) (distance c r) = false.
Proof.
  induction table as [|x rest IH]; intros seen closest I Near; cbv zeta.
  - cbn [closest_from]. rewrite app_nil_r. split; assumption.
  - cbn [closest_from]. fold (distance c x).
    replace (seen ++ x :: rest)%list with ((seen ++ [x]) ++ rest)%list
      by (rewrite <- app_assoc; reflexivity).
    destruct (ltb (distance c x) (distance c closest)) eqn:L.
    + apply IH.
      * apply in_or_app. right. left. reflexivity.
      * intros e Ie. apply in_app_or in Ie. destruct Ie as [Ie|[<-|[]]].
        -- destruct (ltb (distance c e) (distance c x)) eqn:E; [|reflexivity].
           rewrite <- (Near e Ie). symmetry.
           exact (ltb_trans _ _ _ E L).
        -- apply ltb_irrefl.
    + apply IH.
      * apply in_or_app. left. exact I.
      * intros e Ie. apply in_app_or in Ie. destruct Ie as [Ie|[<-|[]]].
        -- exact (Near e Ie).
        -- exact L.
Qed.

(** An entry that is not nearer than the nearest so far is passed
    over. *)
Lemma closest_from_kept (c : number) (table : list entry) :
  forall (closest : entry) (minDiff : number),
  (forall e, In e table -> ltb (distance c e) minDiff = false) ->
  closest_from table c closest minDiff = closest.
Proof.
  induction table as [|x rest IH]; intros closest minDiff F; [reflexivity|].
  cbn [closest_from]. fold (distance c x).
  rewrite (F x (or_introl eq_refl)).
  apply IH. intros e I. apply F. right. exact I.
Qed.

Lemma distance_nan (c : number) (e : entry) :
  isNaN c = true -> distance c e = NaN.
Proof. intros H. destruct c; try discriminate. reflexivity. Qed.

End Fallback.

(** ** The names of the colleges *)

Module Cleaning.
Import Names.

Local Open Scope N_scope.

Lemma colon_not_white : white 58 = false.
Proof. reflexivity. Qed.

Lemma space_white : white 32 = true.
Proof. reflexivity. Qed.

Lemma single_spaces_head (c : N) (s : text) :
  white c = false -> single_spaces (c :: s) = c :: single_spaces s.
Proof. intros H. cbn [single_spaces]. rewrite H. reflexivity. Qed.

Lemma single_spaces_isolated (s : text) : isolated (single_spaces s) = true.
Proof.
  induction s as [|c s IH]; [reflexivity|].
  cbn [single_spaces]. destruct (white c) eqn:W.
  - destruct s as [|c' s]; [reflexivity|].
    destruct (white c') eqn:W'; [exact IH|].
    rewrite (single_spaces_head c' s W') in *.
    cbn [isolated]. rewrite space_white, W'. cbn [isolated] in IH.
    rewrite W' in IH. exact IH.
  - cbn [isolated]. rewrite W. exact IH.
Qed.

Lemma isolated_tail (c : N) (s : text) :
  isolated (c :: s) = true -> isolated s = true.
Proof. cbn [isolated]. intros H. apply andb_true_iff in H. apply H. Qed.

Lemma skip_isolated (s : text) : isolated s = true -> isolated (skip s) = true.
Proof.
  induction s as [|c s IH]; intros H; [reflexivity|].
  cbn [skip]. destruct (white c); [|exact H].
  apply IH. exact (isolated_tail c s H).
Qed.

Lemma skip_head (s : text) :
  match skip s with c :: _ => white c = false | [] => True end.
Proof.
  induction s as [|c s IH]; [exact I|].
  cbn [skip]. destruct (white c) eqn:W; [exact IH|exact W].
Qed.

(** [chop] keeps the first character of a text that does not begin
    with white space. *)
Lemma chop_head (c : N) (s : text) :
  white c = false -> exists t, chop (c :: s) = c :: t.
Proof.
  intros W. cbn [chop]. destruct (chop s) as [|d t].
  - rewrite W. exists []. reflexivity.
  - exists (d :: t). reflexivity.
Qed.

Lemma chop_spaced (s : text) : isolated s = true -> spaced (chop s) = true.
Proof.
  induction s as [|c s IH]; intros H; [reflexivity|].
  pose proof (IH (isolated_tail c s H)) as S.
  cbn [isolated] in H. apply andb_true_iff in H. destruct H as [H _].
  cbn [chop]. destruct (chop s) as [|d t] eqn:E.
  - destruct (white c) eqn:W; [reflexivity|].
    cbn [spaced]. rewrite W. reflexivity.
  - cbn [spaced]. cbn [spaced] in S. rewrite S, andb_true_r.
    destruct (white c) eqn:W; [|reflexivity].
    apply andb_true_iff in H. destruct H as [H32 Hn]. rewrite H32. cbn [andb].
    destruct s as [|c' s]; [discriminate E|].
    (* the first character of [chop (c' :: s)] is [c'] *)
    assert (d = c').
    { cbn [chop] in E. destruct (chop s).
      - destruct (white c'); [discriminate|]. injection E as <- _. reflexivity.
      - injection E as <- _. reflexivity. }
    subst d. exact Hn.
Qed.

Lemma trim_tidy (s : text) : isolated s = true -> tidy (trim s) = true.
Proof.
  intros H. unfold tidy, trim.
  rewrite (chop_spaced (skip s) (skip_isolated s H)), andb_true_r.
  pose proof (skip_head s) as Hd.
  destruct (skip s) as [|c t]; [reflexivity|].
  destruct (chop_head c t Hd) as [u ->]. rewrite Hd. reflexivity.
Qed.

Lemma cleaned_name_tidy (name : text) : tidy (cleaned_name name) = true.
Proof. apply trim_tidy, single_spaces_isolated. Qed.

(** *** Names that are clean already *)

Lemma spaced_tail (c : N) (s : text) : spaced (c :: s) = true -> spaced s = true.
Proof. cbn [spaced]. intros H. apply andb_true_iff in H. apply H. Qed.

Lemma spaced_single (s : text) : spaced s = true -> single_spaces s = s.
Proof.
  induction s as [|c s IH]; intros H; [reflexivity|].
  pose proof (IH (spaced_tail c s H)) as E.
  cbn [spaced] in H. apply andb_true_iff in H. destruct H as [H _].
  cbn [single_spaces]. destruct (white c) eqn:W; [|rewrite E; reflexivity].
  apply andb_true_iff in H. destruct H as [H32 Hn].
  apply N.eqb_eq in H32. subst c.
  destruct s as [|c' s]; [discriminate|].
  apply negb_true_iff in Hn. rewrite Hn, E. reflexivity.
Qed.

Lemma spaced_chop (s : text) : spaced s = true -> chop s = s.
Proof.
  induction s as [|c s IH]; intros H; [reflexivity|].
  pose proof (IH (spaced_tail c s H)) as E.
  cbn [spaced] in H. apply andb_true_iff in H. destruct H as [H _].
  cbn [chop]. rewrite E. destruct s as [|c' s]; [|reflexivity].
  destruct (white c); [|reflexivity].
  apply andb_true_iff in H. destruct H as [_ H]. discriminate.
Qed.

Lemma tidy_trim (s : text) : tidy s = true -> trim s = s.
Proof.
  unfold tidy, trim. intros H. apply andb_true_iff in H. destruct H as [Hd S].
  destruct s as [|c s]; [reflexivity|].
  apply negb_true_iff in Hd. cbn [skip]. rewrite Hd.
  apply spaced_chop. exact S.
Qed.

(** A spaced text that does not end with a colon has no tail that
    [\s*:\s*$] matches. *)
Lemma spaced_without_colon (s : text) :
  spaced s = true -> ends_with_colon s = false -> without_colon s = s.
Proof.
  unfold ends_with_colon.
  induction s as [|c s IH]; intros S L; [reflexivity|].
  pose proof (spaced_tail c s S) as S'.
  cbn [spaced] in S. apply andb_true_iff in S. destruct S as [Sc _].
  assert (T : colon_tail (c :: s) = false).
  { unfold colon_tail. cbn [skip]. destruct (white c) eqn:W.
    - apply andb_true_iff in Sc. destruct Sc as [_ Hn].
      destruct s as [|c' s]; [discriminate|].
      apply negb_true_iff in Hn. cbn [skip]. rewrite Hn.
      destruct (N.eqb_spec c' 58) as [->|Ne].
      + destruct s as [|d s]; [cbn in L; discriminate|].
        cbn [spaced] in S'. apply andb_true_iff in S'. destruct S' as [_ S'].
        cbn [spaced] in S'. apply andb_true_iff in S'. destruct S' as [Sd _].
        cbn [skip]. destruct (white d) eqn:Wd; [|reflexivity].
        apply andb_true_iff in Sd. destruct Sd as [_ Sd].
        destruct s as [|d' s]; [discriminate|].
        apply negb_true_iff in Sd. cbn [skip]. rewrite Sd. reflexivity.
      + destruct c' as [|p]; [reflexivity|].
        repeat (destruct p as [p|p|]; try reflexivity); congruence.
    - destruct (N.eqb_spec c 58) as [->|Ne].
      + destruct s as [|d s]; [cbn in L; discriminate|].
        cbn [spaced] in S'. apply andb_true_iff in S'. destruct S' as [Sd _].
        cbn [skip]. destruct (white d) eqn:Wd; [|reflexivity].
        apply andb_true_iff in Sd. destruct Sd as [_ Sd].
        destruct s as [|d' s]; [discriminate|].
        apply negb_true_iff in Sd. cbn [skip]. rewrite Sd. reflexivity.
      + destruct c as [|p]; [reflexivity|].
        repeat (destruct p as [p|p|]; try reflexivity); congruence. }
  cbn [without_colon]. rewrite T. f_equal.
  destruct s as [|c' s]; [reflexivity|].
  apply IH; [exact S'|]. exact L.
Qed.

Lemma without_prefix_kept (s : text) :
  begins_with_E s = false -> without_prefix s = s.
Proof.
  unfold begins_with_E, without_prefix.
  destruct s as [|c [|d s]]; [reflexivity| |].
  - intros _. destruct c as [|p]; [reflexivity|].
    repeat (destruct p as [p|p|]; try reflexivity).
  - intros H. destruct (N.eqb_spec c 69) as [->|Nc].
    + destruct (N.eqb_spec d 58) as [->|Nd]; [discriminate|].
      destruct d as [|p]; [reflexivity|].
      repeat (destruct p as [p|p|]; try reflexivity); congruence.
    + destruct c as [|p]; [reflexivity|].
      repeat (destruct p as [p|p|]; try reflexivity); congruence.
Qed.

End Cleaning.

(** ** The session of the user *)

Module Sessions.
Import Reviews.

Lemma getItem_setItem (localStorage : Storage) (key value : string) :
  getItem (setItem localStorage key value) key = Some value.
Proof. unfold getItem, setItem. rewrite String.eqb_refl. reflexivity. Qed.

Lemma getItem_other (localStorage : Storage) (key value other : string) :
  String.eqb other key = false ->
  getItem (setItem localStorage key value) other = getItem localStorage other.
Proof. intros H. unfold getItem, setItem. rewrite H. reflexivity. Qed.

(** The identifier returned is not empty and it is the one stored. *)
Lemma getUserSessionId_stored (randomUUID : string) (localStorage : Storage) :
  String.eqb randomUUID "" = false ->
  let r := getUserSessionId randomUUID localStorage in
  String.eqb (fst r) "" = false
  /\ getItem (snd r) "user_session_id" = Some (fst r).
Proof.
  intros H. unfold getUserSessionId.
  destruct (getItem localStorage "user_session_id") as [sessionId|] eqn:G.
  - destruct (String.eqb sessionId "") eqn:E; cbn [fst snd].
    + split; [exact H|apply getItem_setItem].
    + split; [exact E|exact G].
  - cbn [fst snd]. split; [exact H|apply getItem_setItem].
Qed.

(** With an identifier stored, a call returns it and writes nothing. *)
Lemma getUserSessionId_found (randomUUID sessionId : string)
    (localStorage : Storage) :
  String.eqb sessionId "" = false ->
  getItem localStorage "user_session_id" = Some sessionId ->
  getUserSessionId randomUUID localStorage = (sessionId, localStorage).
Proof. intros E G. unfold getUserSessionId. rewrite G, E. reflexivity. Qed.

End Sessions.

(** ** The ends of the band, and the tables of the categories *)

Module Ends.
Import Ranks.

(** Between the ends of the table the band is computed from the medium
    rank, which lies between 81 and 259000. *)
Lemma interior_band (c : number) :
  nonneg c -> geb c top_score = false -> leb c bottom_score = false ->
  let r := predict c in
  low r = Math_round (mul (medium r) (decimal 95 2))
  /\ high r = Math_round (mul (medium r) (decimal 105 2))
  /\ nonneg (medium r)
  /\ leb (of_Z 81) (medium r) = true
  /\ leb (medium r) (of_Z 259000) = true.
Proof.
  intros N T B.
  assert (Nn := nonneg_not_nan c N).
  assert (U : leb c top_score = true).
  { apply Order.ltb_leb.
    apply Order.leb_false_ltb; [reflexivity|exact Nn|exact T]. }
  assert (L : ltb bottom_score c = true)
    by (apply Order.leb_false_ltb; [exact Nn|reflexivity|exact B]).
  destruct (interpolate_found kcet2025RankTable first_entry
              ltac:(repeat constructor) eq_refl c Nn U L)
    as (cur & next & _ & _ & _ & E).
  destruct (predict_between c N T B) as (res & E' & P & Nm & M81 & M259).
  rewrite E in E'. injection E' as <-. cbv zeta. rewrite P.
  split; [reflexivity|]. split; [reflexivity|].
  split; [exact Nm|]. split; [exact M81|exact M259].
Qed.

(** The two ends of the band grow with the medium rank, up to
    259000. *)
Lemma band_end_grows (factor m1 m2 : number) :
  nonneg factor -> nonneg (mul (of_Z 259000) factor) ->
  nonneg m1 -> nonneg m2 ->
  leb m1 m2 = true -> leb m2 (of_Z 259000) = true ->
  leb (Math_round (mul m1 factor)) (Math_round (mul m2 factor)) = true.
Proof.
  intros Nf Nt N1 N2 H U.
  assert (N259 : nonneg (of_Z 259000))
    by (apply nonnegb_spec; vm_compute; reflexivity).
  pose proof (grows_mul (of_Z 259000) factor Nf N259 Nt) as G.
  pose proof (Order.leb_trans _ _ _ H U) as U1.
  destruct (grows_nonneg _ _ m1 G N1 U1) as [P1 _].
  destruct (grows_nonneg _ _ m2 G N2 U) as [P2 _].
  cbv beta in *.
  apply Math_round_mono; try assumption.
  apply mul_mono; assumption.
Qed.

Lemma place_found (rank : number) (rows : list suggestion) :
  first_at_least rank rows = nth (place rank rows) rows other_colleges.
Proof.
  unfold first_at_least, find_suggestion.
  induction rows as [|s rest IH]; [reflexivity|].
  cbn [find place]. destruct (threshold s) as [t|].
  - destruct (leb rank t); [reflexivity|exact IH].
  - exact IH.
Qed.

(** With higher thresholds row by row, a rank finds its row no
    later. *)
Lemma place_dominated (rank : number) (rows1 : list suggestion) :
  forall rows2, dominated rows1 rows2 = true ->
  (place rank rows2 <= place rank rows1)%nat.
Proof.
  induction rows1 as [|a rest1 IH]; intros [|b rest2] D; try discriminate.
  - apply Nat.le_refl.
  - cbn [dominated] in D. apply andb_true_iff in D. destruct D as [D1 D2].
    unfold threshold_leb in D1. cbn [place].
    destruct (threshold a) as [ta|]; [|discriminate].
    destruct (threshold b) as [tb|]; [|discriminate].
    destruct (leb rank tb) eqn:Lb; [apply Nat.le_0_l|].
    destruct (leb rank ta) eqn:La.
    + rewrite (Order.leb_trans _ _ _ La D1) in Lb. discriminate.
    + apply le_n_S. apply IH. exact D2.
Qed.

End Ends.

(** * Further properties *)

Import Marks Ranks Ladders Gaps Suggestions Falling Fallback Cleaning Sessions.
Import Ends.

(** X1.  Marks within the ranges that the error message names, a KCET
    mark from 0 to 180 and a PUC mark from 0 to 100, are never
    rejected: their combined score lies between 0 and 100 in binary64
    arithmetic, and [predictKCETRank] returns the prediction for it. *)
Theorem predictKCETRank_accepts_valid_marks (cet puc : number) :
  is_number cet = true -> is_number puc = true ->
  leb (of_Z 0) cet = true -> leb cet (of_Z 180) = true ->
  leb (of_Z 0) puc = true -> leb puc (of_Z 100) = true ->
  leb (of_Z 0) (combined cet puc) = true
  /\ leb (combined cet puc) (of_Z 100) = true
  /\ predictKCETRank cet puc = Returned (predict (combined cet puc)).
Proof.
  intros Vc Vp Lc Uc Lp Up.
  assert (N180 : nonneg (of_Z 180)) by (apply nonnegb_spec; vm_compute; reflexivity).
  assert (N100 : nonneg (of_Z 100)) by (apply nonnegb_spec; vm_compute; reflexivity).
  pose proof (marks_nonneg cet _ Vc Lc Uc N180) as Nc.
  pose proof (marks_nonneg puc _ Vp Lp Up N100) as Np.
  destruct (combined_grows cet puc cet puc Nc Nc Np Np
              (leb_refl cet Nc) Uc (leb_refl puc Np) Up) as (N & _ & _ & U).
  pose proof (zero_leb _ N) as L.
  split; [exact L|]. split; [exact U|].
  unfold predictKCETRank. rewrite (accepted _ L U). reflexivity.
Qed.

Lemma predictKCETRank_accepts_valid_marks_witness :
  leb (of_Z 0) (combined (of_Z 162) (of_Z 96)) = true
  /\ leb (combined (of_Z 162) (of_Z 96)) (of_Z 100) = true
  /\ predictKCETRank (of_Z 162) (of_Z 96)
     = Returned (predict (combined (of_Z 162) (of_Z 96))).
Proof.
  apply (predictKCETRank_accepts_valid_marks (of_Z 162) (of_Z 96));
    vm_compute; reflexivity.
Defined.

(** X2.  Within the valid ranges, marks that are at least as high in
    both subjects give a medium rank that is no worse: the combined
    score grows with either mark, and the rank falls as it grows. *)
Theorem predictKCETRank_more_marks_no_worse_rank
    (cet1 puc1 cet2 puc2 : number) :
  is_number cet1 = true -> is_number puc1 = true ->
  is_number cet2 = true -> is_number puc2 = true ->
  leb (of_Z 0) cet1 = true -> leb cet1 cet2 = true ->
  leb cet2 (of_Z 180) = true ->
  leb (of_Z 0) puc1 = true -> leb puc1 puc2 = true ->
  leb puc2 (of_Z 100) = true ->
  exists ra rb,
    predictKCETRank cet1 puc1 = Returned ra
    /\ predictKCETRank cet2 puc2 = Returned rb
    /\ leb (composite ra) (composite rb) = true
    /\ leb (medium rb) (medium ra) = true.
Proof.
  intros V1 W1 V2 W2 Lc Hc Uc Lp Hp Up.
  assert (N180 : nonneg (of_Z 180)) by (apply nonnegb_spec; vm_compute; reflexivity).
  assert (N100 : nonneg (of_Z 100)) by (apply nonnegb_spec; vm_compute; reflexivity).
  pose proof (Order.leb_trans _ _ _ Hc Uc) as Uc1.
  pose proof (Order.leb_trans _ _ _ Hp Up) as Up1.
  pose proof (Order.leb_trans _ _ _ Lc Hc) as Lc2.
  pose proof (Order.leb_trans _ _ _ Lp Hp) as Lp2.
  pose proof (marks_nonneg cet1 _ V1 Lc Uc1 N180) as Nc1.
  pose proof (marks_nonneg cet2 _ V2 Lc2 Uc N180) as Nc2.
  pose proof (marks_nonneg puc1 _ W1 Lp Up1 N100) as Np1.
  pose proof (marks_nonneg puc2 _ W2 Lp2 Up N100) as Np2.
  destruct (combined_grows cet1 puc1 cet2 puc2 Nc1 Nc2 Np1 Np2 Hc Uc Hp Up)
    as (Na & Nb & H & U).
  pose proof (Order.leb_trans _ _ _ H U) as Ua.
  exists (predict (combined cet1 puc1)), (predict (combined cet2 puc2)).
  unfold predictKCETRank.
  rewrite (accepted _ (zero_leb _ Na) Ua), (accepted _ (zero_leb _ Nb) U).
  split; [reflexivity|]. split; [reflexivity|].
  rewrite !predict_composite. split; [exact H|].
  apply predict_antitone; assumption.
Qed.

Lemma predictKCETRank_more_marks_no_worse_rank_witness :
  exists ra rb,
    predictKCETRank (of_Z 100) (of_Z 60) = Returned ra
    /\ predictKCETRank (of_Z 162) (of_Z 96) = Returned rb
    /\ leb (composite ra) (composite rb) = true
    /\ leb (medium rb) (medium ra) = true.
Proof.
  apply (predictKCETRank_more_marks_no_worse_rank
           (of_Z 100) (of_Z 60) (of_Z 162) (of_Z 96));
    vm_compute; reflexivity.
Defined.

(** X3.  Every prediction that is returned, the two boundary cases
    included, has its three ranks in order, [low <= medium <= high],
    between 1 and 271950. *)
Theorem predictKCETRank_ranks_in_order (cet puc : number) :
  is_number cet = true -> is_number puc = true ->
  rejected (combined cet puc) = false ->
  exists r,
    predictKCETRank cet puc = Returned r
    /\ leb (of_Z 1) (low r) = true
    /\ leb (low r) (medium r) = true
    /\ leb (medium r) (high r) = true
    /\ leb (high r) (of_Z 271950) = true.
Proof.
  intros Vc Vp R.
  destruct (accepted_nonneg _ (combined_valid _ _ Vc Vp) R) as [N _].
  exists (predict (combined cet puc)).
  unfold predictKCETRank. rewrite R. split; [reflexivity|].
  set (c := combined cet puc) in *.
  destruct (geb c top_score) eqn:T.
  - rewrite (predict_top c T). repeat split; vm_compute; reflexivity.
  - destruct (leb c bottom_score) eqn:B.
    + rewrite (predict_bottom c B). repeat split; vm_compute; reflexivity.
    + destruct (interior_ranks c N T B) as (L & A & H & U & _).
      split; [|split; [exact A|split; [exact H|exact U]]].
      apply (Order.leb_trans _ (of_Z 77)); [vm_compute; reflexivity|exact L].
Qed.

Lemma predictKCETRank_ranks_in_order_witness :
  exists r,
    predictKCETRank (of_Z 162) (of_Z 96) = Returned r
    /\ leb (of_Z 1) (low r) = true
    /\ leb (low r) (medium r) = true
    /\ leb (medium r) (high r) = true
    /\ leb (high r) (of_Z 271950) = true.
Proof.
  apply (predictKCETRank_ranks_in_order (of_Z 162) (of_Z 96));
    vm_compute; reflexivity.
Defined.

(** X4.  Above the lowest calibration score the labels of a prediction
    are those of the classifiers: the rank band is
    [getRankBand(medium)] and the competition level is
    [getCompetitionLevel(composite)], in the interpolation and in the
    upper boundary case alike.  At or below the lowest calibration
    score the labels are the fixed "Lower" and "Moderate", while the
    classifiers give "Very Poor" and "Very Low" there. *)
Theorem predictKCETRank_labels_follow_classifiers (cet puc : number) :
  is_number cet = true -> is_number puc = true ->
  rejected (combined cet puc) = false ->
  exists r,
    predictKCETRank cet puc = Returned r
    /\ if leb (combined cet puc) (decimal 3500 2)
       then rankBand r = Some "Lower"
            /\ getRankBand (medium r) = "Very Poor"
            /\ competitionLevel r = Some "Moderate"
            /\ getCompetitionLevel (composite r) = "Very Low"
       else rankBand r = Some (getRankBand (medium r))
            /\ competitionLevel r = Some (getCompetitionLevel (composite r)).
Proof.
  intros Vc Vp R.
  destruct (accepted_nonneg _ (combined_valid _ _ Vc Vp) R) as [N _].
  exists (predict (combined cet puc)).
  unfold predictKCETRank. rewrite R. split; [reflexivity|].
  rewrite bottom_score_literal. rewrite predict_composite.
  set (c := combined cet puc) in *.
  destruct (leb c bottom_score) eqn:B.
  - rewrite (predict_bottom c B). cbn [rankBand medium competitionLevel].
    split; [reflexivity|]. split; [vm_compute; reflexivity|].
    split; [reflexivity|].
    unfold getCompetitionLevel, geb.
    repeat
      match goal with
      | |- context [if leb ?t c then _ else _] =>
          let E := fresh "E" in
          destruct (leb t c) eqn:E;
          [pose proof (Order.leb_trans _ _ _ E B) as F; vm_compute in F;
           discriminate F|]
      end.
    reflexivity.
  - destruct (geb c top_score) eqn:T.
    + rewrite (predict_top c T). cbn [rankBand medium competitionLevel].
      split; [vm_compute; reflexivity|].
      unfold getCompetitionLevel. unfold geb in *.
      assert (L : leb (of_Z 95) c = true).
      { apply (Order.leb_trans _ top_score); [vm_compute; reflexivity|exact T]. }
      rewrite L. reflexivity.
    + destruct (interior_ranks c N T B) as (_ & _ & _ & _ & Rb & _ & Cl).
      split; assumption.
Qed.

Lemma predictKCETRank_labels_follow_classifiers_witness :
  exists r,
    predictKCETRank (of_Z 162) (of_Z 96) = Returned r
    /\ if leb (combined (of_Z 162) (of_Z 96)) (decimal 3500 2)
       then rankBand r = Some "Lower"
            /\ getRankBand (medium r) = "Very Poor"
            /\ competitionLevel r = Some "Moderate"
            /\ getCompetitionLevel (composite r) = "Very Low"
       else rankBand r = Some (getRankBand (medium r))
            /\ competitionLevel r = Some (getCompetitionLevel (composite r)).
Proof.
  apply (predictKCETRank_labels_follow_classifiers (of_Z 162) (of_Z 96));
    vm_compute; reflexivity.
Defined.

(** X5.  At a calibration score that lies strictly between the ends of
    the table, the medium rank is the calibration rank of that score;
    at the highest calibration score the rank is 1, not the calibration
    rank 81, and at the lowest it is 260000, not 259000. *)
Theorem predict_at_calibration_points (e : entry) :
  In e kcet2025RankTable ->
  medium (predict (score e))
  = if geb (score e) (decimal 9622 2) then of_Z 1
    else if leb (score e) (decimal 3500 2) then of_Z 260000
    else rank e.
Proof.
  intros I. unfold kcet2025RankTable in I.
  repeat (destruct I as [<-|I]; [vm_compute; reflexivity|]).
  destruct I.
Qed.

Lemma predict_at_calibration_points_witness :
  medium (predict (score (point 9000 1245)))
  = if geb (score (point 9000 1245)) (decimal 9622 2) then of_Z 1
    else if leb (score (point 9000 1245)) (decimal 3500 2) then of_Z 260000
    else rank (point 9000 1245).
Proof.
  apply (predict_at_calibration_points (point 9000 1245)).
  vm_compute. tauto.
Defined.

(** X6.  The fallback loop returns an entry of the table than which no
    entry is strictly nearer to the score, for every table and every
    score; for the score NaN, to which no entry is near, it returns the
    first entry. *)
Theorem fallback_takes_a_nearest_entry
    (table : list entry) (first : entry) (combinedScore : number) :
  let closest := closest_entry table first combinedScore in
  In closest (first :: tl table)
  /\ (forall e, In e (first :: tl table) ->
        ltb (distance combinedScore e) (distance combinedScore closest)
        = false)
  /\ (isNaN combinedScore = true -> closest = first).
Proof.
  cbv zeta. unfold closest_entry. fold (distance combinedScore first).
  rewrite <- and_assoc. split.
  - apply (closest_from_nearest combinedScore (tl table) [first] first).
    + left. reflexivity.
    + intros e [<-|[]]. apply ltb_irrefl.
  - intros H. apply closest_from_kept. intros e _.
    rewrite (distance_nan combinedScore e H). reflexivity.
Qed.

(** X7.  [getRankBand] is monotone: a rank that is at least as good
    gets a band that is at least as good, in the order of the ladder
    from "Elite" to "Very Poor". *)
Theorem getRankBand_better_rank_better_band (rank1 rank2 : number) :
  leb rank1 rank2 = true ->
  (position (getRankBand rank1) rank_bands
   <= position (getRankBand rank2) rank_bands)%nat.
Proof.
  intros H. unfold getRankBand.
  repeat rung; first [crossed H | apply Nat.leb_le; vm_compute; reflexivity].
Qed.

Lemma getRankBand_better_rank_better_band_witness :
  (position (getRankBand (of_Z 150)) rank_bands
   <= position (getRankBand (of_Z 5000)) rank_bands)%nat.
Proof.
  apply (getRankBand_better_rank_better_band (of_Z 150) (of_Z 5000)).
  vm_compute. reflexivity.
Defined.

(** X8.  [getCompetitionLevel] is monotone: a score that is at least as
    high gets a level that is at least as high, in the order from
    "Very Low" to "Extremely High". *)
Theorem getCompetitionLevel_higher_score_higher_level (score1 score2 : number) :
  leb score1 score2 = true ->
  (position (getCompetitionLevel score1) competition_levels
   <= position (getCompetitionLevel score2) competition_levels)%nat.
Proof.
  intros H. unfold getCompetitionLevel, geb.
  repeat rung; first [crossed H | apply Nat.leb_le; vm_compute; reflexivity].
Qed.

Lemma getCompetitionLevel_higher_score_higher_level_witness :
  (position (getCompetitionLevel (of_Z 72)) competition_levels
   <= position (getCompetitionLevel (of_Z 91)) competition_levels)%nat.
Proof.
  apply (getCompetitionLevel_higher_score_higher_level (of_Z 72) (of_Z 91)).
  vm_compute. reflexivity.
Defined.

(** X9.  The label of [getPercentile] is a function of the competition
    level of the same score, "Top 15%" for "High" and "Moderately High"
    and "Top 30%" for "Moderate" and "Moderately Low", and it rises
    with the score. *)
Theorem getPercentile_follows_competition_level :
  (forall score : number,
     getPercentile score = percentile_of_level (getCompetitionLevel score))
  /\ (forall score1 score2 : number,
        leb score1 score2 = true ->
        (position (getPercentile score1) percentile_labels
         <= position (getPercentile score2) percentile_labels)%nat).
Proof.
  split.
  - intros score. unfold getPercentile, getCompetitionLevel, geb.
    repeat rung; first [reflexivity | below].
  - intros score1 score2 H. unfold getPercentile, geb.
    repeat rung; first [crossed H | apply Nat.leb_le; vm_compute; reflexivity].
Qed.

(** X10.  The sentence of [getRankAnalysis] begins with the band that
    [getRankBand] gives to the same rank, followed by the word rank, up
    to the case of the letters: both ladders have the same
    thresholds. *)
Theorem getRankAnalysis_names_the_band (rank : number) :
  String.prefix (lowercase (getRankBand rank ++ " rank"))
                (lowercase (getRankAnalysis rank)) = true.
Proof.
  unfold getRankBand, getRankAnalysis. repeat rung; vm_compute; reflexivity.
Qed.

(** X11.  For a score from 30 to 100, [getRankGapAnalysis] returns the
    rank gap and the candidates per percent of a band [lo-hi%] of the
    table with [lo <= score <= hi]; at a bound shared by two bands it
    is the higher band, so the score is below [hi] unless [hi] is 100.
    Every other score, one below 30, one above 100 and NaN, gets the
    last band of the table, "30-40%". *)
Theorem getRankGapAnalysis_band_of_score (score : number) :
  let r := getRankGapAnalysis score in
  if leb (of_Z 30) score && leb score (of_Z 100)
  then exists b lo hi,
      In b rankGapAnalysis /\ range b = band_label lo hi
      /\ leb (of_Z lo) score = true /\ leb score (of_Z hi) = true
      /\ (hi = 100 \/ ltb score (of_Z hi) = true)
      /\ RankAnalysis.rankGap r = rankRange b
      /\ RankAnalysis.candidatesPerPercent r = candidatesPer1Percent b
  else RankAnalysis.rankGap r = "2,35,000-2,59,000"
       /\ RankAnalysis.candidatesPerPercent r = "10,000".
Proof.
  cbv zeta. unfold getRankGapAnalysis, rankGapAnalysis. cbv [find].
  parsed 95 100. parsed 90 95. parsed 85 90. parsed 80 85. parsed 75 80.
  parsed 70 75. parsed 60 70. parsed 50 60. parsed 40 50. parsed 30 40.
  cbn [RankAnalysis.rankGap RankAnalysis.candidatesPerPercent].
  destruct (leb (of_Z 30) score) eqn:L30; cbn [andb].
  - destruct (leb score (of_Z 100)) eqn:U.
    + pose proof (Order.leb_not_nan_r _ _ L30) as Nn.
      cbn [andb].
      repeat
        match goal with
        | |- context [if leb ?lo score && true then _ else _] =>
            rewrite (andb_true_r (leb lo score));
            let L := fresh "L" in
            destruct (leb lo score) eqn:L;
            [ | let U' := fresh "U" in let S' := fresh "S" in
                destruct (next_band score lo Nn eq_refl L) as [U' S'];
                try rewrite U' ]
        end.
      all: eexists; eexists; eexists;
        split; [| split; [| split; [eassumption
                | split; [eassumption | split; [| split; reflexivity]]]]];
        [cbn; tauto | reflexivity
         | first [left; reflexivity | right; assumption]].
    + repeat
        match goal with
        | |- context [leb score ?hi] =>
            rewrite (upper_bound_fails score hi U) by (vm_compute; reflexivity)
        end.
      rewrite !andb_false_r. split; reflexivity.
  - repeat
      match goal with
      | |- context [leb ?lo score] =>
          rewrite (lower_bound_fails score lo L30) by (vm_compute; reflexivity)
      end.
    split; reflexivity.
Qed.

(** X12.  In the result of [getRankGapAnalysis] the competition level
    is that of [getCompetitionLevel], and the improvement potential
    goes with it: "Limited" from "Moderately High" upwards, "Moderate"
    from "Low" to "Moderate", and "High" for "Very Low". *)
Theorem getRankGapAnalysis_potential_follows_level (score : number) :
  let r := getRankGapAnalysis score in
  RankAnalysis.competitionLevel r = getCompetitionLevel score
  /\ RankAnalysis.improvementPotential r
     = potential_of_level (getCompetitionLevel score).
Proof.
  split; [reflexivity|].
  unfold getRankGapAnalysis. cbn [RankAnalysis.improvementPotential].
  unfold getCompetitionLevel, geb.
  repeat rung; first [reflexivity | below].
Qed.

(** X13.  For a category that is not a member of [Object.prototype],
    [getCollegeSuggestions] returns the row of the category's table
    with the least threshold that is at least the rank, the thresholds
    of every table being in rising order; it returns "Other colleges"
    exactly when no threshold of the table is at least the rank, which
    is so for NaN. *)
Theorem getCollegeSuggestions_least_threshold
    (rank : number) (category : string) :
  existsb (String.eqb category) Object_prototype_keys = false ->
  exists s,
    getCollegeSuggestions rank category = Returned s
    /\ match threshold s with
       | Some t =>
           In s (table_of category) /\ leb rank t = true
           /\ forall s' t', In s' (table_of category) ->
                threshold s' = Some t' -> leb rank t' = true ->
                leb t t' = true
       | None =>
           s = other_colleges
           /\ forall s' t', In s' (table_of category) ->
                threshold s' = Some t' -> leb rank t' = false
       end.
Proof.
  intros K. rewrite (getCollegeSuggestions_plain_key rank category K).
  exists (first_at_least rank (table_of category)).
  split; [reflexivity|]. unfold first_at_least.
  destruct (find_suggestion rank (table_of category)) as [s|] eqn:F.
  - destruct (find_suggestion_least rank _ (tables_rise category) s F)
      as (t & T & L & I & Least).
    rewrite T. split; [exact I|]. split; [exact L|exact Least].
  - cbn [threshold other_colleges]. split; [reflexivity|].
    exact (find_suggestion_none rank _ F).
Qed.

Lemma getCollegeSuggestions_least_threshold_witness :
  exists s,
    getCollegeSuggestions (of_Z 2500) "obc" = Returned s
    /\ match threshold s with
       | Some t =>
           In s (table_of "obc") /\ leb (of_Z 2500) t = true
           /\ forall s' t', In s' (table_of "obc") ->
                threshold s' = Some t' -> leb (of_Z 2500) t' = true ->
                leb t t' = true
       | None =>
           s = other_colleges
           /\ forall s' t', In s' (table_of "obc") ->
                threshold s' = Some t' -> leb (of_Z 2500) t' = false
       end.
Proof.
  apply (getCollegeSuggestions_least_threshold (of_Z 2500) "obc").
  reflexivity.
Defined.

(** X14.  Within the pool of 260000 candidates the percentile falls as
    the rank grows: [calculatePercentile] prints the hundredths of the
    percentage, and a rank that is no better has no more of them. *)
Theorem calculatePercentile_falls_with_rank (rank1 rank2 : number) :
  is_number rank1 = true -> is_number rank2 = true ->
  leb (of_Z 0) rank1 = true -> leb rank1 rank2 = true ->
  leb rank2 totalCandidates = true ->
  calculatePercentile rank1
  = (fixed2 (hundredths_of (percentage rank1)) ++ "%")%string
  /\ calculatePercentile rank2
     = (fixed2 (hundredths_of (percentage rank2)) ++ "%")%string
  /\ 0 <= hundredths_of (percentage rank2)
       <= hundredths_of (percentage rank1)
  /\ hundredths_of (percentage rank1) <= 10000.
Proof.
  intros V1 V2 L1 H U.
  assert (Np : nonneg totalCandidates)
    by (apply nonnegb_spec; vm_compute; reflexivity).
  pose proof (Order.leb_trans _ _ _ H U) as U1.
  pose proof (Order.leb_trans _ _ _ L1 H) as L2.
  pose proof (nonneg_between rank1 _ V1 L1 U1 Np) as N1.
  pose proof (nonneg_between rank2 _ V2 L2 U Np) as N2.
  destruct (percentage_range rank1 N1 U1) as [P1 Q1].
  destruct (percentage_range rank2 N2 U) as [P2 Q2].
  destruct (toFixed2_hundredths _ P1 Q1) as (F1 & B1 & _).
  destruct (toFixed2_hundredths _ P2 Q2) as (F2 & B2 & _).
  rewrite !calculatePercentile_unfold, F1, F2.
  split; [reflexivity|]. split; [reflexivity|].
  pose proof (hundredths_of_mono _ _ P2 P1
                (percentage_falls rank1 rank2 N1 N2 H U) Q1) as M.
  lia.
Qed.

Lemma calculatePercentile_falls_with_rank_witness :
  calculatePercentile (of_Z 1000)
  = (fixed2 (hundredths_of (percentage (of_Z 1000))) ++ "%")%string
  /\ calculatePercentile (of_Z 52000)
     = (fixed2 (hundredths_of (percentage (of_Z 52000))) ++ "%")%string
  /\ 0 <= hundredths_of (percentage (of_Z 52000))
       <= hundredths_of (percentage (of_Z 1000))
  /\ hundredths_of (percentage (of_Z 1000)) <= 10000.
Proof.
  apply (calculatePercentile_falls_with_rank (of_Z 1000) (of_Z 52000));
    vm_compute; reflexivity.
Defined.

(** X15.  For marks whose combined score lies strictly between the
    lowest and the highest calibration score, the percentile of the
    prediction is that of its medium rank, printed with two decimals,
    between "0.38%" and "99.97%", the percentiles of the ranks 259000
    and 81; the labels "Top 0.01%" and "Bottom 20%" belong to the two
    boundary cases only. *)
Theorem predictKCETRank_interior_percentile (cet puc : number) :
  is_number cet = true -> is_number puc = true ->
  ltb (decimal 3500 2) (combined cet puc) = true ->
  ltb (combined cet puc) (decimal 9622 2) = true ->
  exists r,
    predictKCETRank cet puc = Returned r
    /\ percentile r
       = Some (fixed2 (hundredths_of (percentage (medium r))) ++ "%")%string
    /\ 38 <= hundredths_of (percentage (medium r)) <= 9997.
Proof.
  rewrite top_score_literal, bottom_score_literal. intros Vc Vp L U.
  pose proof (combined_valid _ _ Vc Vp) as V.
  set (c := combined cet puc) in *.
  pose proof (between_ends_nonneg c V L U) as N.
  pose proof (between_ends_accepted c L U) as R.
  pose proof (Order.ltb_not_geb _ _ U) as T.
  pose proof (Order.ltb_not_geb _ _ L) as B.
  destruct (predict_between c N T B) as (res & _ & P & Nm & M81 & M259).
  destruct (interior_ranks c N T B) as (_ & _ & _ & _ & _ & Pc & _).
  exists (predict c). unfold predictKCETRank. fold c. rewrite R.
  split; [reflexivity|]. rewrite Pc, P. cbv zeta.
  assert (N81 : nonneg (of_Z 81)) by (apply nonnegb_spec; vm_compute; reflexivity).
  assert (N259 : nonneg (of_Z 259000))
    by (apply nonnegb_spec; vm_compute; reflexivity).
  assert (Up : leb (of_Z 259000) totalCandidates = true)
    by (vm_compute; reflexivity).
  pose proof (Order.leb_trans _ _ _ M259 Up) as Um.
  pose proof (Order.leb_trans _ _ _ M81 Um) as U81.
  destruct (percentage_range (medium res) Nm Um) as [Pm Qm].
  destruct (percentage_range (of_Z 81) N81 U81) as [P81 Q81].
  destruct (percentage_range (of_Z 259000) N259 Up) as [P259 Q259].
  destruct (toFixed2_hundredths _ Pm Qm) as (F & _ & _).
  rewrite calculatePercentile_unfold, F. split; [reflexivity|].
  pose proof (hundredths_of_mono _ _ Pm P81
                (percentage_falls _ _ N81 Nm M81 Um) Q81) as Hi.
  pose proof (hundredths_of_mono _ _ P259 Pm
                (percentage_falls _ _ Nm N259 M259 Up) Qm) as Lo.
  assert (E81 : hundredths_of (percentage (of_Z 81)) = 9997)
    by (vm_compute; reflexivity).
  assert (E259 : hundredths_of (percentage (of_Z 259000)) = 38)
    by (vm_compute; reflexivity).
  lia.
Qed.

Lemma predictKCETRank_interior_percentile_witness :
  exists r,
    predictKCETRank (of_Z 162) (of_Z 96) = Returned r
    /\ percentile r
       = Some (fixed2 (hundredths_of (percentage (medium r))) ++ "%")%string
    /\ 38 <= hundredths_of (percentage (medium r)) <= 9997.
Proof.
  apply (predictKCETRank_interior_percentile (of_Z 162) (of_Z 96));
    vm_compute; reflexivity.
Defined.

(** X16.  The session identifier is stable: once [getUserSessionId] has
    returned an identifier, it is stored under "user_session_id", it is
    not empty, every later call returns the same identifier and leaves
    the storage as it is, whatever [crypto.randomUUID] would give, and
    the first call has changed no other key. *)
Theorem getUserSessionId_keeps_the_session
    (randomUUID randomUUID' : string) (localStorage : Reviews.Storage) :
  String.eqb randomUUID "" = false ->
  let r := Reviews.getUserSessionId randomUUID localStorage in
  String.eqb (fst r) "" = false
  /\ Reviews.getItem (snd r) "user_session_id" = Some (fst r)
  /\ Reviews.getUserSessionId randomUUID' (snd r) = r
  /\ forall key, String.eqb key "user_session_id" = false ->
       Reviews.getItem (snd r) key = Reviews.getItem localStorage key.
Proof.
  intros H. cbv zeta.
  destruct (getUserSessionId_stored randomUUID localStorage H) as [E G].
  split; [exact E|]. split; [exact G|]. split.
  - rewrite (getUserSessionId_found randomUUID' _ _ E G).
    destruct (Reviews.getUserSessionId randomUUID localStorage). reflexivity.
  - intros key K. unfold Reviews.getUserSessionId.
    destruct (Reviews.getItem localStorage "user_session_id") as [sessionId|];
      [destruct (String.eqb sessionId "")|]; cbn [snd];
      try reflexivity; apply getItem_other; exact K.
Qed.

Lemma getUserSessionId_keeps_the_session_witness :
  String.eqb (fst (Reviews.getUserSessionId "3b241101" (fun _ => None))) ""
  = false
  /\ Reviews.getItem (snd (Reviews.getUserSessionId "3b241101" (fun _ => None)))
                     "user_session_id"
     = Some (fst (Reviews.getUserSessionId "3b241101" (fun _ => None)))
  /\ Reviews.getUserSessionId "9c5b94b1"
       (snd (Reviews.getUserSessionId "3b241101" (fun _ => None)))
     = Reviews.getUserSessionId "3b241101" (fun _ => None)
  /\ forall key, String.eqb key "user_session_id" = false ->
       Reviews.getItem (snd (Reviews.getUserSessionId "3b241101" (fun _ => None)))
                       key
       = Reviews.getItem (fun _ => None) key.
Proof.
  apply (getUserSessionId_keeps_the_session "3b241101" "9c5b94b1"
           (fun _ => None)).
  reflexivity.
Defined.

(** X17.  With a session identifier stored, [isUserReview] writes
    nothing and answers by the identifier: a review whose [session_id]
    or [user_id] is the identifier is the user's own, and a review that
    has neither field is not. *)
Theorem isUserReview_by_session
    (randomUUID sessionId : string) (localStorage : Reviews.Storage)
    (review : Reviews.CollegeReview) :
  String.eqb sessionId "" = false ->
  Reviews.getItem localStorage "user_session_id" = Some sessionId ->
  let r := Reviews.isUserReview randomUUID localStorage review in
  snd r = localStorage
  /\ (Reviews.session_id review = Some sessionId -> fst r = true)
  /\ (Reviews.user_id review = Some sessionId -> fst r = true)
  /\ (Reviews.user_id review = None -> Reviews.session_id review = None ->
      fst r = false).
Proof.
  intros E G. cbv zeta. unfold Reviews.isUserReview.
  rewrite (getUserSessionId_found randomUUID _ _ E G). cbn [fst snd].
  split; [reflexivity|]. split; [|split].
  - intros ->. cbn [Reviews.same]. rewrite String.eqb_refl. apply orb_true_r.
  - intros ->. cbn [Reviews.same]. rewrite String.eqb_refl. reflexivity.
  - intros -> ->. reflexivity.
Qed.

Lemma isUserReview_by_session_witness :
  snd (Reviews.isUserReview "u-2" sample_storage sample_review)
  = sample_storage
  /\ (Reviews.session_id sample_review = Some "s-1" ->
      fst (Reviews.isUserReview "u-2" sample_storage sample_review) = true)
  /\ (Reviews.user_id sample_review = Some "s-1" ->
      fst (Reviews.isUserReview "u-2" sample_storage sample_review) = true)
  /\ (Reviews.user_id sample_review = None ->
      Reviews.session_id sample_review = None ->
      fst (Reviews.isUserReview "u-2" sample_storage sample_review) = false).
Proof.
  apply (isUserReview_by_session "u-2" "s-1" sample_storage sample_review);
    reflexivity.
Defined.

(** X18.  [loadColleges] keeps the colleges of the list, in their
    order and with their codes, and every name it returns is tidy: it
    neither begins nor ends with white space, and its white space is
    single spaces. *)
Theorem loadColleges_names_are_tidy (r : Names.response) :
  Forall (fun college => tidy (Names.name college) = true)
         (Names.loadColleges r)
  /\ forall colleges, r = Names.Answered true colleges ->
       map Names.code (Names.loadColleges r) = map Names.code colleges.
Proof.
  split.
  - destruct r as [|[] colleges]; cbn [Names.loadColleges];
      try apply Forall_nil.
    apply Forall_forall. intros college I.
    apply in_map_iff in I. destruct I as (c & <- & _).
    apply cleaned_name_tidy.
  - intros colleges ->. cbn [Names.loadColleges]. rewrite map_map.
    reflexivity.
Qed.

(** X19.  A name that is tidy already, that does not begin with [E:]
    and does not end with a colon, is left as it is by the chain of
    replacements. *)
Theorem cleaned_name_keeps_tidy_names (name : Names.text) :
  tidy name = true -> begins_with_E name = false ->
  ends_with_colon name = false ->
  Names.cleaned_name name = name.
Proof.
  intros T B E. unfold Names.cleaned_name.
  pose proof T as T'. unfold tidy in T'. apply andb_true_iff in T'.
  destruct T' as [_ S].
  rewrite (without_prefix_kept name B), (spaced_without_colon name S E),
    (spaced_single name S).
  apply tidy_trim. exact T.
Qed.

Lemma cleaned_name_keeps_tidy_names_witness :
  Names.cleaned_name [82; 86; 32; 67; 111; 108; 108; 101; 103; 101]%N
  = [82; 86; 32; 67; 111; 108; 108; 101; 103; 101]%N.
Proof.
  apply (cleaned_name_keeps_tidy_names
           [82; 86; 32; 67; 111; 108; 108; 101; 103; 101]%N);
    reflexivity.
Defined.

(** X20.  The lower end of the band follows the score: for two accepted
    combined scores [a <= b], [low] of [b] is at most [low] of [a], and
    so is [high] when [a] is above the lowest calibration score.
    Across that score [high] is not monotone: the marks (0, 87.5), with
    the combined score 35, get the fixed [high] 270000, and the better
    marks (0, 88), with the combined score 35.2, get the worse [high]
    270942. *)
Theorem predictKCETRank_band_ends_follow_score
    (cet1 puc1 cet2 puc2 : number) :
  is_number cet1 = true -> is_number puc1 = true ->
  is_number cet2 = true -> is_number puc2 = true ->
  rejected (combined cet1 puc1) = false ->
  rejected (combined cet2 puc2) = false ->
  leb (combined cet1 puc1) (combined cet2 puc2) = true ->
  (exists ra rb,
     predictKCETRank cet1 puc1 = Returned ra
     /\ predictKCETRank cet2 puc2 = Returned rb
     /\ leb (low rb) (low ra) = true
     /\ (leb (combined cet1 puc1) (decimal 3500 2) = false ->
         leb (high rb) (high ra) = true))
  /\ (exists ra rb,
        predictKCETRank (of_Z 0) (decimal 875 1) = Returned ra
        /\ predictKCETRank (of_Z 0) (of_Z 88) = Returned rb
        /\ ltb (composite ra) (composite rb) = true
        /\ high ra = of_Z 270000 /\ high rb = of_Z 270942).
Proof.
  intros V1 W1 V2 W2 Ra Rb H.
  split.
  2: { exists (predict (combined (of_Z 0) (decimal 875 1))),
         (predict (combined (of_Z 0) (of_Z 88))).
       repeat split; vm_compute; reflexivity. }
  destruct (accepted_nonneg _ (combined_valid _ _ V1 W1) Ra) as [Na _].
  destruct (accepted_nonneg _ (combined_valid _ _ V2 W2) Rb) as [Nb _].
  exists (predict (combined cet1 puc1)), (predict (combined cet2 puc2)).
  unfold predictKCETRank. rewrite Ra, Rb.
  split; [reflexivity|]. split; [reflexivity|].
  rewrite bottom_score_literal.
  set (a := combined cet1 puc1) in *. set (b := combined cet2 puc2) in *.
  pose proof (predict_antitone a b Na Nb H) as M.
  destruct band_factors as (F1 & F2 & _ & _ & F5 & F6 & F7).
  assert (E1 : Math_round (mul (of_Z 81) (decimal 95 2)) = of_Z 77)
    by (vm_compute; reflexivity).
  assert (E2 : Math_round (mul (of_Z 259000) (decimal 95 2)) = of_Z 246050)
    by (vm_compute; reflexivity).
  assert (E3 : Math_round (mul (of_Z 81) (decimal 105 2)) = of_Z 85)
    by (vm_compute; reflexivity).
  assert (N81 : nonneg (of_Z 81)) by (apply nonnegb_spec; vm_compute; reflexivity).
  assert (R259 : leb (of_Z 259000) (of_Z 259000) = true) by (apply leb_refl, F5).
  destruct (geb b top_score) eqn:Tb.
  - (* the better score is at the top *)
    rewrite (predict_top b Tb) in *. cbn [low high medium] in *.
    destruct (geb a top_score) eqn:Ta.
    + rewrite (predict_top a Ta). split; [reflexivity|]. intros _. reflexivity.
    + destruct (leb a bottom_score) eqn:Ba.
      * rewrite (predict_bottom a Ba). split; [reflexivity|]. discriminate.
      * destruct (interior_band a Na Ta Ba) as (-> & -> & Nm & M81 & M259).
        split.
        -- apply (Order.leb_trans _ (of_Z 77)); [reflexivity|].
           rewrite <- E1. apply band_end_grows; assumption.
        -- intros _. apply (Order.leb_trans _ (of_Z 85)); [reflexivity|].
           rewrite <- E3. apply band_end_grows; assumption.
  - assert (Ta : geb a top_score = false).
    { unfold geb in *. destruct (leb top_score a) eqn:E; [|reflexivity].
      pose proof (Order.leb_trans _ _ _ E H). congruence. }
    destruct (leb b bottom_score) eqn:Bb.
    + assert (Ba : leb a bottom_score = true)
        by (eapply Order.leb_trans; eassumption).
      rewrite (predict_bottom a Ba), (predict_bottom b Bb).
      split; [reflexivity|]. intros F. congruence.
    + destruct (interior_band b Nb Tb Bb) as (Lb & Hb & Nmb & Mb81 & Mb259).
      cbv zeta in *. rewrite Lb, Hb.
      destruct (leb a bottom_score) eqn:Ba.
      * rewrite (predict_bottom a Ba). cbn [low high].
        split; [|discriminate].
        apply (Order.leb_trans _ (of_Z 246050)); [|reflexivity].
        rewrite <- E2. apply band_end_grows; assumption.
      * destruct (interior_band a Na Ta Ba) as (-> & -> & Nma & Ma81 & Ma259).
        split; [|intros _]; apply band_end_grows; assumption.
Qed.

Lemma predictKCETRank_band_ends_follow_score_witness :
  (exists ra rb,
     predictKCETRank (of_Z 100) (of_Z 60) = Returned ra
     /\ predictKCETRank (of_Z 162) (of_Z 96) = Returned rb
     /\ leb (low rb) (low ra) = true
     /\ (leb (combined (of_Z 100) (of_Z 60)) (decimal 3500 2) = false ->
         leb (high rb) (high ra) = true))
  /\ (exists ra rb,
        predictKCETRank (of_Z 0) (decimal 875 1) = Returned ra
        /\ predictKCETRank (of_Z 0) (of_Z 88) = Returned rb
        /\ ltb (composite ra) (composite rb) = true
        /\ high ra = of_Z 270000 /\ high rb = of_Z 270942).
Proof.
  apply (predictKCETRank_band_ends_follow_score
           (of_Z 100) (of_Z 60) (of_Z 162) (of_Z 96));
    vm_compute; reflexivity.
Defined.

(** X21.  The tables of the categories are ordered: row by row the
    thresholds of "obc" are at least those of "general", those of "sc"
    at least those of "obc", and those of "st" at least those of "sc".
    So for every rank the row found for "st" comes no later than the
    one for "sc", which comes no later than the one for "obc", which
    comes no later than the one for "general"; the place past the last
    row stands for "Other colleges". *)
Theorem getCollegeSuggestions_categories_in_order (rank : number) :
  (forall category,
     In category ["general"; "obc"; "sc"; "st"] ->
     getCollegeSuggestions rank category
     = Returned (nth (place rank (table_of category)) (table_of category)
                     other_colleges))
  /\ (place rank st <= place rank sc)%nat
  /\ (place rank sc <= place rank obc)%nat
  /\ (place rank obc <= place rank general)%nat.
Proof.
  split.
  - intros category I.
    rewrite getCollegeSuggestions_plain_key, place_found; [reflexivity|].
    repeat (destruct I as [<-|I]; [reflexivity|]). destruct I.
  - repeat split; apply place_dominated; vm_compute; reflexivity.
Qed.

(** X22.  For the category "general" the suggestion goes with the rank
    band: the thresholds of the general table are the first six of
    [getRankBand], so "Elite" gets the first row, "Average" the sixth,
    and every band from "Below Average" on gets "Other colleges". *)
Theorem getCollegeSuggestions_general_by_band (rank : number) :
  getCollegeSuggestions rank "general"
  = Returned (nth (position (getRankBand rank) rank_bands) general
                  other_colleges).
Proof.
  rewrite getCollegeSuggestions_plain_key by reflexivity.
  unfold first_at_least, find_suggestion, table_of, general, row.
  cbn [String.eqb Ascii.eqb Bool.eqb find threshold].
  unfold getRankBand.
  repeat rung; reflexivity.
Qed.
